(** * opensea-js, [src/wyvern.ts]: a shallow embedding and its properties

    The development follows the source file top to bottom in its data
    (the numbers of bignumber.js, the order records, the callback
    registry) and then proves the properties of

    - [estimateCurrentPrice]   (order pricing),
    - [parseSignatureHex]      (signature codec),
    - [track], [confirmTransaction] (transaction confirmation tracker),
    - [orderFromJSON], [orderToJSON] (order JSON adapters),
    - [findAsset]              (asset ownership resolution).

    Code of third-party packages ([bignumber.js], [ethereumjs-util],
    [lodash], [web3]) is not part of the repository; the few functions of
    theirs that [wyvern.ts] calls are written out next to their first use,
    each with a comment that names the package function it stands for. *)

From Stdlib Require Import ZArith QArith Lia Bool List Ascii String.
From Stdlib Require Import Numbers.DecimalString Numbers.DecimalN.
From Stdlib Require Numbers.HexadecimalString Numbers.HexadecimalN.
From Stdlib Require Numbers.HexadecimalPos.
From stdpp Require Import base option list gmap strings.

Local Open Scope Z_scope.

(* ===================================================================== *)
(** * Numbers: the [BigNumber] of bignumber.js *)
(* ===================================================================== *)

(** A [BigNumber] is a decimal: a coefficient and a number of decimal
    places, or one of the three non-finite values. [BNFinite c dp] stands
    for [c * 10^-dp]. The library keeps its values without trailing zero
    decimals, which is what [BN.mk] does. The sign of a zero is not
    tracked. *)
Inductive BigNumber : Type :=
  | BNFinite (c : Z) (dp : nat)
  | BNInfinity (negative : bool)
  | BNNaN.

Module BN.

(** [DECIMAL_PLACES], the library's default (the source never calls
    [BigNumber.config]): the number of decimals kept by a division. The
    rounding mode is the default one too, [ROUND_HALF_UP]. *)
Definition DECIMAL_PLACES : nat := 20.

Definition pow10 (n : nat) : Z := 10 ^ Z.of_nat n.

(** Drop trailing zero decimals. *)
Fixpoint strip (c : Z) (dp : nat) : Z * nat :=
  match dp with
  | O => (c, O)
  | S d => if c mod 10 =? 0 then strip (c / 10) d else (c, S d)
  end.

Definition mk (c : Z) (dp : nat) : BigNumber :=
  let '(c', dp') := strip c dp in BNFinite c' dp'.

(** [new BigNumber(n)] for an integer-valued JavaScript number. *)
Definition of_Z (z : Z) : BigNumber := BNFinite z 0.

Definition negated (x : BigNumber) : BigNumber :=
  match x with
  | BNFinite c dp => BNFinite (- c) dp
  | BNInfinity neg => BNInfinity (negb neg)
  | BNNaN => BNNaN
  end.

Definition plus (x y : BigNumber) : BigNumber :=
  match x, y with
  | BNNaN, _ | _, BNNaN => BNNaN
  | BNInfinity a, BNInfinity b => if Bool.eqb a b then BNInfinity a else BNNaN
  | BNInfinity a, BNFinite _ _ => BNInfinity a
  | BNFinite _ _, BNInfinity b => BNInfinity b
  | BNFinite c1 d1, BNFinite c2 d2 =>
      let m := Nat.max d1 d2 in
      mk (c1 * pow10 (m - d1) + c2 * pow10 (m - d2)) m
  end.

Definition minus (x y : BigNumber) : BigNumber := plus x (negated y).

Definition times (x y : BigNumber) : BigNumber :=
  match x, y with
  | BNNaN, _ | _, BNNaN => BNNaN
  | BNInfinity a, BNInfinity b => BNInfinity (xorb a b)
  | BNInfinity a, BNFinite c _ | BNFinite c _, BNInfinity a =>
      if c =? 0 then BNNaN else BNInfinity (xorb a (c <? 0))
  | BNFinite c1 d1, BNFinite c2 d2 => mk (c1 * c2) (d1 + d2)
  end.

(** Nearest integer to [n / d], ties away from zero ([ROUND_HALF_UP]);
    [d] is not zero. *)
Definition div_half_up (n d : Z) : Z :=
  Z.sgn n * Z.sgn d * ((2 * Z.abs n + Z.abs d) / (2 * Z.abs d)).

Definition dividedBy (x y : BigNumber) : BigNumber :=
  match x, y with
  | BNNaN, _ | _, BNNaN => BNNaN
  | BNInfinity _, BNInfinity _ => BNNaN
  | BNInfinity a, BNFinite c _ => BNInfinity (xorb a (c <? 0))
  | BNFinite _ _, BNInfinity _ => BNFinite 0 0
  | BNFinite c1 d1, BNFinite c2 d2 =>
      if c2 =? 0 then
        if c1 =? 0 then BNNaN else BNInfinity (c1 <? 0)
      else
        mk (div_half_up (c1 * pow10 d2 * pow10 DECIMAL_PLACES) (c2 * pow10 d1))
           DECIMAL_PLACES
  end.

(** [ceil()]: round to an integer towards plus infinity
    ([ROUND_CEIL]); the non-finite values are left as they are. *)
Definition ceil (x : BigNumber) : BigNumber :=
  match x with
  | BNFinite c dp => BNFinite (- ((- c) / pow10 dp)) 0
  | _ => x
  end.

(** The rational a finite value stands for. *)
Definition value (c : Z) (dp : nat) : Q := Qmake c (Z.to_pos (pow10 dp)).

Definition isFinite (x : BigNumber) : bool :=
  match x with BNFinite _ _ => true | _ => false end.

(** A finite value with no decimals left. *)
Definition isInteger (x : BigNumber) : bool :=
  match x with BNFinite _ O => true | _ => false end.

(** A finite value that is not a whole number. *)
Definition isFractional (x : BigNumber) : bool :=
  match x with
  | BNFinite c dp => negb (c mod pow10 dp =? 0)
  | _ => false
  end.

End BN.

(* ===================================================================== *)
(** * Orders *)
(* ===================================================================== *)

(** Modelled from the spec: the enumerations of [./types], which is not
    among the sources. [side] is Buy or Sell, [saleKind] is FixedPrice or
    DutchAuction; on the wire they are the numbers 0 and 1. *)
Inductive OrderSide : Type := Buy | Sell.
Inductive SaleKind : Type := FixedPrice | DutchAuction.

Definition OrderSide_eqb (a b : OrderSide) : bool :=
  match a, b with Buy, Buy | Sell, Sell => true | _, _ => false end.
Definition SaleKind_eqb (a b : SaleKind) : bool :=
  match a, b with
  | FixedPrice, FixedPrice | DutchAuction, DutchAuction => true
  | _, _ => false
  end.

Definition OrderSide_number (a : OrderSide) : Z :=
  match a with Buy => 0 | Sell => 1 end.
Definition SaleKind_number (k : SaleKind) : Z :=
  match k with FixedPrice => 0 | DutchAuction => 1 end.

(** An opaque JSON value (order metadata, the embedded asset, the keys of
    an account object that the adapters never look at). [None] at type
    [option JSON] is JavaScript's [undefined]. *)
#[local] Set Warnings "-register-all".
Inductive JSON : Type :=
  | JNull
  | JBool (b : bool)
  | JNumber (z : Z)
  | JString (s : string)
  | JArray (items : list JSON)
  | JObject (members : list (string * JSON)).
#[local] Set Warnings "register-all".

(** The account object embedded in a current-schema wire order. *)
Module Account.
Record t : Type := {
  address : string;
  rest : list (string * JSON)
}.
End Account.

(** Modelled from the spec: the [Order] interface of [./types], with the
    fields [orderFromJSON] fills in. A [v] of [None] is [NaN]. *)
Module Order.
Record t : Type := {
  hash : option string;
  cancelledOrFinalized : bool;
  markedInvalid : bool;
  metadata : option JSON;
  exchange : string;
  makerAccount : option Account.t;
  takerAccount : option Account.t;
  maker : string;
  taker : string;
  makerRelayerFee : BigNumber;
  takerRelayerFee : BigNumber;
  makerProtocolFee : BigNumber;
  takerProtocolFee : BigNumber;
  feeMethod : Z;
  feeRecipientAccount : option Account.t;
  feeRecipient : string;
  side : OrderSide;
  saleKind : SaleKind;
  target : string;
  howToCall : Z;
  calldata : string;
  replacementPattern : string;
  staticTarget : string;
  staticExtradata : string;
  paymentToken : string;
  basePrice : BigNumber;
  extra : BigNumber;
  listingTime : BigNumber;
  expirationTime : BigNumber;
  salt : BigNumber;
  v : option Z;
  r : option string;
  s : option string;
  asset : option JSON;
  currentPrice : option BigNumber
}.
End Order.

(* ===================================================================== *)
(** * [estimateCurrentPrice] *)
(* ===================================================================== *)

(** [new BigNumber(Date.now() / 1000)]: [Date.now()] is a whole number of
    milliseconds, [nowMs]; for a clock of at most fifteen digits the
    quotient, printed by JavaScript and read back by the constructor, is
    the decimal [nowMs / 1000] itself. *)
Definition unixTimeSeconds (nowMs : Z) : BigNumber := BN.mk nowMs 3.

(** The local [now] of [estimateCurrentPrice]. *)
Definition backtrackedNow (nowMs secondsToBacktrack : Z) : BigNumber :=
  BN.minus (unixTimeSeconds nowMs) (BN.of_Z secondsToBacktrack).

(** The local [diff] of the Dutch-auction branch. *)
Definition dutchAuctionDiff (order : Order.t) (now : BigNumber) : BigNumber :=
  BN.dividedBy
    (BN.times (Order.extra order) (BN.minus now (Order.listingTime order)))
    (BN.minus (Order.expirationTime order) (Order.listingTime order)).

(** The value of the local [exactPrice] when the function returns. The
    fields of [order] are [BigNumber]s already, so [new BigNumber(field)]
    gives the field back. *)
Definition exactPrice (order : Order.t) (nowMs secondsToBacktrack : Z)
  : BigNumber :=
  let now := backtrackedNow nowMs secondsToBacktrack in
  let basePrice := Order.basePrice order in
  if SaleKind_eqb (Order.saleKind order) FixedPrice then
    basePrice
  else if SaleKind_eqb (Order.saleKind order) DutchAuction then
    let diff := dutchAuctionDiff order now in
    if OrderSide_eqb (Order.side order) Sell
    then BN.minus basePrice diff
    else BN.plus basePrice diff
  else basePrice.

Definition estimateCurrentPrice (order : Order.t) (nowMs : Z)
    (secondsToBacktrack : Z) (shouldRoundUp : bool) : BigNumber :=
  let exactPrice := exactPrice order nowMs secondsToBacktrack in
  if shouldRoundUp then BN.ceil exactPrice else exactPrice.

(** The call with both defaults: [estimateCurrentPrice(order)]. *)
Definition estimateCurrentPrice_default (order : Order.t) (nowMs : Z)
  : BigNumber :=
  estimateCurrentPrice order nowMs 30 true.

(** Order of two finite values; [false] when either is not finite. *)
Definition BN_ltb (x y : BigNumber) : bool :=
  match x, y with
  | BNFinite c1 d1, BNFinite c2 d2 =>
      let m := Nat.max d1 d2 in
      c1 * BN.pow10 (m - d1) <? c2 * BN.pow10 (m - d2)
  | _, _ => false
  end.

(** An order with the given terms of sale and every other field empty,
    for the worked examples. *)
Definition termsOnlyOrder (side : OrderSide) (saleKind : SaleKind)
    (basePrice extra listingTime expirationTime : Z) : Order.t :=
  {| Order.hash := None;
     Order.cancelledOrFinalized := false;
     Order.markedInvalid := false;
     Order.metadata := None;
     Order.exchange := "";
     Order.makerAccount := None;
     Order.takerAccount := None;
     Order.maker := "";
     Order.taker := "";
     Order.makerRelayerFee := BN.of_Z 0;
     Order.takerRelayerFee := BN.of_Z 0;
     Order.makerProtocolFee := BN.of_Z 0;
     Order.takerProtocolFee := BN.of_Z 0;
     Order.feeMethod := 0;
     Order.feeRecipientAccount := None;
     Order.feeRecipient := "";
     Order.side := side;
     Order.saleKind := saleKind;
     Order.target := "";
     Order.howToCall := 0;
     Order.calldata := "";
     Order.replacementPattern := "";
     Order.staticTarget := "";
     Order.staticExtradata := "";
     Order.paymentToken := "";
     Order.basePrice := BN.of_Z basePrice;
     Order.extra := BN.of_Z extra;
     Order.listingTime := BN.of_Z listingTime;
     Order.expirationTime := BN.of_Z expirationTime;
     Order.salt := BN.of_Z 0;
     Order.v := None;
     Order.r := None;
     Order.s := None;
     Order.asset := None;
     Order.currentPrice := None |}.

(** An order with its four priced terms replaced. *)
Definition withTerms (basePrice listingTime expirationTime extra : BigNumber)
    (o : Order.t) : Order.t :=
  {| Order.hash := Order.hash o;
     Order.cancelledOrFinalized := Order.cancelledOrFinalized o;
     Order.markedInvalid := Order.markedInvalid o;
     Order.metadata := Order.metadata o;
     Order.exchange := Order.exchange o;
     Order.makerAccount := Order.makerAccount o;
     Order.takerAccount := Order.takerAccount o;
     Order.maker := Order.maker o;
     Order.taker := Order.taker o;
     Order.makerRelayerFee := Order.makerRelayerFee o;
     Order.takerRelayerFee := Order.takerRelayerFee o;
     Order.makerProtocolFee := Order.makerProtocolFee o;
     Order.takerProtocolFee := Order.takerProtocolFee o;
     Order.feeMethod := Order.feeMethod o;
     Order.feeRecipientAccount := Order.feeRecipientAccount o;
     Order.feeRecipient := Order.feeRecipient o;
     Order.side := Order.side o;
     Order.saleKind := Order.saleKind o;
     Order.target := Order.target o;
     Order.howToCall := Order.howToCall o;
     Order.calldata := Order.calldata o;
     Order.replacementPattern := Order.replacementPattern o;
     Order.staticTarget := Order.staticTarget o;
     Order.staticExtradata := Order.staticExtradata o;
     Order.paymentToken := Order.paymentToken o;
     Order.basePrice := basePrice;
     Order.extra := extra;
     Order.listingTime := listingTime;
     Order.expirationTime := expirationTime;
     Order.salt := Order.salt o;
     Order.v := Order.v o;
     Order.r := Order.r o;
     Order.s := Order.s o;
     Order.asset := Order.asset o;
     Order.currentPrice := Order.currentPrice o |}.

(** A fixed-price order whose [basePrice] is 1000.5, as the
    constructor makes it of the wire string ["1000.5"]. *)
Definition fractionalPriceOrder : Order.t :=
  withTerms (BNFinite 10005 1) (BN.of_Z 1540000000) (BN.of_Z 0) (BN.of_Z 0)
    (termsOnlyOrder Buy FixedPrice 0 0 1540000000 0).

(* ===================================================================== *)
(** * [parseSignatureHex] *)
(* ===================================================================== *)

(** What a call that may throw comes to: the value returned, or the
    message of the [Error] thrown. *)
Inductive Outcome (A : Type) : Type :=
  | Returns (a : A)
  | Throws (message : string).
Arguments Returns {A} a.
Arguments Throws {A} message.

Module ECSignature.
Record t : Type := { v : Z; r : string; s : string }.
End ECSignature.

(** A Node [Buffer]. *)
Abbreviation Buffer := (list Byte.byte).

Definition byteValue (b : Byte.byte) : Z := Z.of_N (Byte.to_N b).

(** [buf.slice(start, end)], for indices that are not negative. *)
Definition slice (start end_ : nat) (buf : Buffer) : Buffer :=
  firstn (end_ - start) (skipn start buf).

Definition hexDigit (n : N) : ascii :=
  ascii_of_N (if (n <? 10)%N then 48 + n else 87 + n)%N.

Definition hexDigitValue (c : ascii) : option N :=
  let n := N_of_ascii c in
  if ((48 <=? n) && (n <=? 57))%N then Some (n - 48)%N
  else if ((97 <=? n) && (n <=? 102))%N then Some (n - 87)%N
  else if ((65 <=? n) && (n <=? 70))%N then Some (n - 55)%N
  else None.

Definition isHexDigit (c : ascii) : bool :=
  match hexDigitValue c with Some _ => true | None => false end.

Fixpoint string_forallb (p : ascii -> bool) (s : string) : bool :=
  match s with
  | EmptyString => true
  | String c rest => p c && string_forallb p rest
  end.

(** [buf.toString('hex')]. *)
Fixpoint hexEncode (buf : Buffer) : string :=
  match buf with
  | [] => EmptyString
  | b :: rest =>
      let n := Byte.to_N b in
      String (hexDigit (n / 16)%N) (String (hexDigit (n mod 16)%N) (hexEncode rest))
  end.

(** [Buffer.from(s, 'hex')]: two digits a byte, up to the first pair that
    is not two hexadecimal digits. *)
Fixpoint hexDecode (s : string) : Buffer :=
  match s with
  | String a (String b rest) =>
      match hexDigitValue a, hexDigitValue b with
      | Some x, Some y =>
          match Byte.of_N (16 * x + y)%N with
          | Some byte => byte :: hexDecode rest
          | None => []
          end
      | _, _ => []
      end
  | _ => []
  end.

(** ethereumjs-util: [isHexString(value)], the test
    [/^0x[0-9A-Fa-f]*$/]. *)
Definition isHexString (value : string) : bool :=
  match value with
  | String "0" (String "x" digits) => string_forallb isHexDigit digits
  | _ => false
  end.

Definition stripHexPrefix (str : string) : string :=
  match str with
  | String "0" (String "x" rest) => rest
  | _ => str
  end.

Definition padToEven (str : string) : string :=
  if Nat.even (String.length str) then str else String "0" str.

(** ethereumjs-util: [toBuffer(v)] at a string: the bytes a 0x-prefixed
    hex string spells, and the bytes of the string itself otherwise. *)
Definition toBuffer (v : string) : Buffer :=
  if isHexString v
  then hexDecode (padToEven (stripHexPrefix v))
  else list_byte_of_string v.

(** ethereumjs-util: [bufferToHex(buf)]. *)
Definition bufferToHex (buf : Buffer) : string :=
  String "0" (String "x" (hexEncode buf)).

(** The statement [if (v < 27) { v += 27 }], which both parsers run on
    the byte they take for [v]. *)
Definition addRecoveryOffset (v : Z) : Z :=
  if v <? 27 then v + 27 else v.

(** ethereumjs-util: [fromRpcSig(sig)]. It throws unless the buffer has
    65 bytes; it reads [v] from the last one and [r], [s] before it. *)
Definition fromRpcSig (sig : string) : Outcome (Z * Buffer * Buffer) :=
  let sig := toBuffer sig in
  if negb (Nat.eqb (List.length sig) 65) then
    Throws "Invalid signature length"
  else
    let v := byteValue (nth 64 sig Byte.x00) in
    Returns (addRecoveryOffset v, slice 0 32 sig, slice 32 64 sig).

(** lodash: [_.includes(collection, value)] on an array of numbers. *)
Definition includes (collection : list Z) (value : Z) : bool :=
  existsb (Z.eqb value) collection.

Definition validVParamValues : list Z := [27; 28].

Definition _parseSignatureHexAsRSV (signatureHex : string)
  : Outcome ECSignature.t :=
  match fromRpcSig signatureHex with
  | Throws e => Throws e
  | Returns (v, r, s) =>
      Returns {| ECSignature.v := v;
                 ECSignature.r := bufferToHex r;
                 ECSignature.s := bufferToHex s |}
  end.

(** On an empty buffer [signatureBuffer[0]] is [undefined]: the object
    built then has no number for [v], and the result is [None]. *)
Definition _parseSignatureHexAsVRS (signatureHex : string)
  : option ECSignature.t :=
  let signatureBuffer := toBuffer signatureHex in
  match signatureBuffer with
  | [] => None
  | b0 :: _ =>
      let v := addRecoveryOffset (byteValue b0) in
      let r := slice 1 33 signatureBuffer in
      let s := slice 33 65 signatureBuffer in
      Some {| ECSignature.v := v;
              ECSignature.r := bufferToHex r;
              ECSignature.s := bufferToHex s |}
  end.

Definition parseSignatureHex (signature : string) : Outcome ECSignature.t :=
  match _parseSignatureHexAsRSV signature with
  | Throws e => Throws e
  | Returns ecSignatureRSV =>
      if includes validVParamValues (ECSignature.v ecSignatureRSV) then
        Returns ecSignatureRSV
      else
        match _parseSignatureHexAsVRS signature with
        | Some ecSignatureVRS =>
            if includes validVParamValues (ECSignature.v ecSignatureVRS) then
              Returns ecSignatureVRS
            else Throws "Invalid signature"
        | None => Throws "Invalid signature"
        end
  end.

(** A 65-byte signature string: [r] is 32 bytes of [rbyte], [s] 32 bytes
    of [sbyte], laid out after or before the byte [v]. *)
Definition signatureRSV (rbyte sbyte vbyte : Byte.byte) : string :=
  bufferToHex (repeat rbyte 32 ++ repeat sbyte 32 ++ [vbyte]).
Definition signatureVRS (rbyte sbyte vbyte : Byte.byte) : string :=
  bufferToHex ([vbyte] ++ repeat rbyte 32 ++ repeat sbyte 32).

(* ===================================================================== *)
(** * Strings of the adapters *)
(* ===================================================================== *)

Definition lowerAscii (c : ascii) : ascii :=
  let n := N_of_ascii c in
  if ((65 <=? n) && (n <=? 90))%N then ascii_of_N (n + 32) else c.

(** [str.toLowerCase()], on the ASCII letters that addresses and hex
    strings are made of. *)
Fixpoint toLowerCase (str : string) : string :=
  match str with
  | EmptyString => EmptyString
  | String c rest => String (lowerAscii c) (toLowerCase rest)
  end.

(** The decimal digits of a natural number, and [n.toString()] for an
    integer-valued JavaScript number: its digits, which is what
    JavaScript prints for every safe integer (up to [2^53 - 1] either
    side of zero). The properties that read a number through its string
    are stated for that range. *)
Definition digitsOf (n : N) : string := NilZero.string_of_uint (N.to_uint n).
Definition Number_toString (z : Z) : string := NilZero.string_of_int (Z.to_int z).

Definition isDigit (c : ascii) : bool :=
  let n := N_of_ascii c in ((48 <=? n) && (n <=? 57))%N.

(* ===================================================================== *)
(** * [findAsset] *)
(* ===================================================================== *)

(** What the chain answers to the queries of a schema. [ownerOf] is
    there when [schema.functions.ownerOf] is; [ownerOf_inputsDefined]
    says that no input of its ABI lacks a value, and [ownerOf_result] is
    what the contract call resolves to. [countOf] is there when
    [schema.functions.countOf] is, with the two balances as the numbers
    [toNumber()] makes of them. *)
Record OwnerOfQuery : Type := {
  ownerOf_inputsDefined : bool;
  ownerOf_result : string
}.
Record CountOfQuery : Type := {
  countOf_proxy : Z;
  countOf_account : Z
}.
Record SchemaFunctions : Type := {
  ownerOf : option OwnerOfQuery;
  countOf : option CountOfQuery
}.

(** Truth value of a string that may be missing: [undefined] and the
    empty string are falsy. *)
Definition truthy (str : option string) : bool :=
  match str with
  | Some s => negb (String.eqb s "")
  | None => false
  end.

Definition findAsset (functions : SchemaFunctions) (account : string)
    (proxy : option string) : string :=
  let owner :=
    match ownerOf functions with
    | Some q =>
        if ownerOf_inputsDefined q
        then Some (toLowerCase (ownerOf_result q))
        else None
    | None => None
    end in
  let counts :=
    match countOf functions with
    | Some q =>
        let proxyCount := if truthy proxy then countOf_proxy q else 0 in
        let myCount := countOf_account q in
        Some (proxyCount, myCount)
    | None => None
    end in
  match owner with
  | Some owner =>
      if truthy proxy
         && String.eqb (toLowerCase owner) (toLowerCase (default "" proxy))
      then "proxy"
      else if String.eqb (toLowerCase owner) (toLowerCase account)
      then "account"
      else if String.eqb owner "0x"
      then "unknown"
      else "other"
  | None =>
      match counts with
      | Some (proxyCount, myCount) =>
          if 1000000000000000000 <=? proxyCount then "proxy"
          else if 1000000000000000000 <=? myCount then "account"
          else "other"
      | None => "unknown"
      end
  end.

(** The zero address, twenty zero bytes. *)
Definition ZERO_ADDRESS : string := "0x0000000000000000000000000000000000000000".

(** A schema with an owner-of query only, answered by [owner]. *)
Definition ownerOfOnly (owner : string) : SchemaFunctions :=
  {| ownerOf := Some {| ownerOf_inputsDefined := true; ownerOf_result := owner |};
     countOf := None |}.

(* ===================================================================== *)
(** * Reading and printing a [BigNumber] *)
(* ===================================================================== *)

Fixpoint splitAtDot (str : string) : string * option string :=
  match str with
  | EmptyString => (EmptyString, None)
  | String c rest =>
      if Ascii.eqb c "." then (EmptyString, Some rest)
      else let '(ip, fp) := splitAtDot rest in (String c ip, fp)
  end.

(** The number a string of decimal digits spells; the empty string
    counts for zero. *)
Definition digitsValue (str : string) : option N :=
  match NilEmpty.uint_of_string str with
  | Some d => Some (N.of_uint d)
  | None => None
  end.

(** Decimal notation: an optional minus sign, digits, an optional point
    and more digits, with a digit somewhere. The result is the
    coefficient and the number of decimals. *)
Definition parseDecimal (str : string) : option (Z * nat) :=
  let '(negative, body) :=
    match str with
    | String "-" rest => (true, rest)
    | _ => (false, str)
    end in
  let '(ip, fp) := splitAtDot body in
  let fp := default EmptyString fp in
  let digits := (ip ++ fp)%string in
  if String.eqb digits "" then None
  else
    match digitsValue digits with
    | Some n =>
        Some (if negative then - Z.of_N n else Z.of_N n, String.length fp)
    | None => None
    end.

(** What the library makes of a string that is not in decimal notation
    as above, with its [ERRORS] setting on: an error, for a string it
    cannot read at all. *)
Definition notANumber (str : string) : Outcome BigNumber :=
  Throws ("new BigNumber() not a number: " ++ str).

Section BigNumberOfString.

(** The constructor on the strings left out of this account (exponent
    notation, a radix prefix, blanks around the number, the names of the
    non-finite values). *)
Variable otherNotation : string -> Outcome BigNumber.

(** bignumber.js: [new BigNumber(str)] for a string. *)
Definition BigNumber_new (str : string) : Outcome BigNumber :=
  match parseDecimal str with
  | Some (c, dp) => Returns (BN.mk c dp)
  | None => otherNotation str
  end.

End BigNumberOfString.

Fixpoint zeros (n : nat) : string :=
  match n with
  | O => EmptyString
  | S k => String "0" (zeros k)
  end.

(** Digits without their trailing zeros, one digit left at least. *)
Fixpoint stripTrailingZeros (digits : string) : string :=
  match digits with
  | EmptyString => EmptyString
  | String c rest =>
      match stripTrailingZeros rest with
      | EmptyString =>
          if Ascii.eqb c "0" then EmptyString else String c EmptyString
      | kept => String c kept
      end
  end.

Definition significantDigits (digits : string) : string :=
  match stripTrailingZeros digits with
  | EmptyString => "0"
  | kept => kept
  end.

(** bignumber.js: [toExponential(str, e)] and the fixed-point notation
    of a coefficient [digits] with [dp] decimals. *)
Definition toExponential (str : string) (e : Z) : string :=
  ((match str with
    | String c (String _ _ as rest) => String c (String "." rest)
    | _ => str
    end)
   ++ (if Z.ltb e 0 then "e" else "e+") ++ Number_toString e)%string.

Definition toFixedPoint (digits : string) (dp : nat) : string :=
  let n := String.length digits in
  match dp with
  | O => digits
  | _ =>
      if (dp <? n)%nat
      then (substring 0 (Nat.sub n dp) digits ++ "."
            ++ substring (Nat.sub n dp) dp digits)%string
      else ("0." ++ zeros (Nat.sub dp n) ++ digits)%string
  end.

Section BigNumberConfig.

(** [BigNumber.config({ EXPONENTIAL_AT: [TO_EXP_NEG, TO_EXP_POS] })]:
    the exponents at which [toString] turns to exponential notation.
    The library starts with [-7] and [21]; the setting is global to the
    package and a dependency may have changed it. *)
Variables TO_EXP_NEG TO_EXP_POS : Z.

(** bignumber.js: [x.toString()]. *)
Definition BigNumber_toString (x : BigNumber) : string :=
  match x with
  | BNNaN => "NaN"
  | BNInfinity negative => if negative then "-Infinity" else "Infinity"
  | BNFinite c dp =>
      let '(c, dp) := BN.strip c dp in
      let digits := digitsOf (Z.abs_N c) in
      let e := Z.of_nat (String.length digits) - 1 - Z.of_nat dp in
      let str :=
        if (e <=? TO_EXP_NEG) || (TO_EXP_POS <=? e)
        then toExponential (significantDigits digits) e
        else toFixedPoint digits dp in
      if c <? 0 then String "-" str else str
  end.

End BigNumberConfig.

(* ===================================================================== *)
(** * [orderFromJSON] and [orderToJSON] *)
(* ===================================================================== *)

(** The current-schema wire order, with the keys [orderFromJSON] reads.
    A numeric field is a string, the form the data model gives it on the
    wire. A key that may be missing has an [option] type; [v] is the
    number [parseInt] makes of the key, [None] for [NaN]. *)
Module WireOrder.
Record t : Type := {
  order_hash : option string;
  hash : option string;
  cancelled : bool;
  finalized : bool;
  marked_invalid : bool;
  metadata : option JSON;
  exchange : string;
  maker : Account.t;
  taker : Account.t;
  maker_relayer_fee : string;
  taker_relayer_fee : string;
  maker_protocol_fee : string;
  taker_protocol_fee : string;
  fee_method : Z;
  fee_recipient : Account.t;
  side : OrderSide;
  sale_kind : SaleKind;
  target : string;
  how_to_call : Z;
  calldata : string;
  replacement_pattern : string;
  static_target : string;
  static_extradata : string;
  payment_token : string;
  base_price : string;
  extra : string;
  listing_time : string;
  expiration_time : string;
  salt : string;
  v : option Z;
  r : option string;
  s : option string;
  asset : option JSON
}.
End WireOrder.

(** The object [orderToJSON] builds: every term of the order as a
    string, then the hash and the metadata added to it. *)
Module OrderJSON.
Record t : Type := {
  exchange : string;
  maker : string;
  taker : string;
  makerRelayerFee : string;
  takerRelayerFee : string;
  makerProtocolFee : string;
  takerProtocolFee : string;
  feeMethod : string;
  feeRecipient : string;
  side : string;
  saleKind : string;
  target : string;
  howToCall : string;
  calldata : string;
  replacementPattern : string;
  staticTarget : string;
  staticExtradata : string;
  paymentToken : string;
  basePrice : string;
  extra : string;
  listingTime : string;
  expirationTime : string;
  salt : string;
  hash : option string;
  metadata : option JSON
}.

Definition set_hash (hash : string) (o : t) : t :=
  {| exchange := exchange o; maker := maker o; taker := taker o;
     makerRelayerFee := makerRelayerFee o; takerRelayerFee := takerRelayerFee o;
     makerProtocolFee := makerProtocolFee o; takerProtocolFee := takerProtocolFee o;
     feeMethod := feeMethod o; feeRecipient := feeRecipient o;
     side := side o; saleKind := saleKind o; target := target o;
     howToCall := howToCall o; calldata := calldata o;
     replacementPattern := replacementPattern o;
     staticTarget := staticTarget o; staticExtradata := staticExtradata o;
     paymentToken := paymentToken o; basePrice := basePrice o;
     extra := extra o; listingTime := listingTime o;
     expirationTime := expirationTime o; salt := salt o;
     hash := Some hash; metadata := metadata o |}.

Definition set_metadata (metadata : option JSON) (o : t) : t :=
  {| exchange := exchange o; maker := maker o; taker := taker o;
     makerRelayerFee := makerRelayerFee o; takerRelayerFee := takerRelayerFee o;
     makerProtocolFee := makerProtocolFee o; takerProtocolFee := takerProtocolFee o;
     feeMethod := feeMethod o; feeRecipient := feeRecipient o;
     side := side o; saleKind := saleKind o; target := target o;
     howToCall := howToCall o; calldata := calldata o;
     replacementPattern := replacementPattern o;
     staticTarget := staticTarget o; staticExtradata := staticExtradata o;
     paymentToken := paymentToken o; basePrice := basePrice o;
     extra := extra o; listingTime := listingTime o;
     expirationTime := expirationTime o; salt := salt o;
     hash := hash o; metadata := metadata |}.
End OrderJSON.

(** Sequencing of calls that may throw. *)
Definition bindOutcome {A B : Type} (m : Outcome A) (k : A -> Outcome B)
  : Outcome B :=
  match m with
  | Returns a => k a
  | Throws e => Throws e
  end.

Notation "'let!' x ':=' m 'in' k" := (bindOutcome m (fun x => k))
  (at level 10, x name, m at level 100, k at level 200).

(** [a || b] on strings that may be missing. *)
Definition orElse (a b : option string) : option string :=
  if truthy a then a else b.

Definition set_currentPrice (price : BigNumber) (o : Order.t) : Order.t :=
  {| Order.hash := Order.hash o;
     Order.cancelledOrFinalized := Order.cancelledOrFinalized o;
     Order.markedInvalid := Order.markedInvalid o;
     Order.metadata := Order.metadata o;
     Order.exchange := Order.exchange o;
     Order.makerAccount := Order.makerAccount o;
     Order.takerAccount := Order.takerAccount o;
     Order.maker := Order.maker o;
     Order.taker := Order.taker o;
     Order.makerRelayerFee := Order.makerRelayerFee o;
     Order.takerRelayerFee := Order.takerRelayerFee o;
     Order.makerProtocolFee := Order.makerProtocolFee o;
     Order.takerProtocolFee := Order.takerProtocolFee o;
     Order.feeMethod := Order.feeMethod o;
     Order.feeRecipientAccount := Order.feeRecipientAccount o;
     Order.feeRecipient := Order.feeRecipient o;
     Order.side := Order.side o;
     Order.saleKind := Order.saleKind o;
     Order.target := Order.target o;
     Order.howToCall := Order.howToCall o;
     Order.calldata := Order.calldata o;
     Order.replacementPattern := Order.replacementPattern o;
     Order.staticTarget := Order.staticTarget o;
     Order.staticExtradata := Order.staticExtradata o;
     Order.paymentToken := Order.paymentToken o;
     Order.basePrice := Order.basePrice o;
     Order.extra := Order.extra o;
     Order.listingTime := Order.listingTime o;
     Order.expirationTime := Order.expirationTime o;
     Order.salt := Order.salt o;
     Order.v := Order.v o;
     Order.r := Order.r o;
     Order.s := Order.s o;
     Order.asset := Order.asset o;
     Order.currentPrice := Some price |}.

Section OrderFromJSON.

Variable otherNotation : string -> Outcome BigNumber.

(** [orderFromJSON(order)], run when the clock reads [nowMs]. The nine
    constructor calls run in the order of the object literal, and the
    first that throws ends the call. *)
Definition orderFromJSON (order : WireOrder.t) (nowMs : Z) : Outcome Order.t :=
  let! makerRelayerFee := BigNumber_new otherNotation (WireOrder.maker_relayer_fee order) in
  let! takerRelayerFee := BigNumber_new otherNotation (WireOrder.taker_relayer_fee order) in
  let! makerProtocolFee := BigNumber_new otherNotation (WireOrder.maker_protocol_fee order) in
  let! takerProtocolFee := BigNumber_new otherNotation (WireOrder.taker_protocol_fee order) in
  let! basePrice := BigNumber_new otherNotation (WireOrder.base_price order) in
  let! extra := BigNumber_new otherNotation (WireOrder.extra order) in
  let! listingTime := BigNumber_new otherNotation (WireOrder.listing_time order) in
  let! expirationTime := BigNumber_new otherNotation (WireOrder.expiration_time order) in
  let! salt := BigNumber_new otherNotation (WireOrder.salt order) in
  let fromJSON :=
    {| Order.hash := orElse (WireOrder.order_hash order) (WireOrder.hash order);
       Order.cancelledOrFinalized :=
         WireOrder.cancelled order || WireOrder.finalized order;
       Order.markedInvalid := WireOrder.marked_invalid order;
       Order.metadata := WireOrder.metadata order;
       Order.exchange := WireOrder.exchange order;
       Order.makerAccount := Some (WireOrder.maker order);
       Order.takerAccount := Some (WireOrder.maker order);
       Order.maker := Account.address (WireOrder.maker order);
       Order.taker := Account.address (WireOrder.taker order);
       Order.makerRelayerFee := makerRelayerFee;
       Order.takerRelayerFee := takerRelayerFee;
       Order.makerProtocolFee := makerProtocolFee;
       Order.takerProtocolFee := takerProtocolFee;
       Order.feeMethod := WireOrder.fee_method order;
       Order.feeRecipientAccount := Some (WireOrder.fee_recipient order);
       Order.feeRecipient := Account.address (WireOrder.fee_recipient order);
       Order.side := WireOrder.side order;
       Order.saleKind := WireOrder.sale_kind order;
       Order.target := WireOrder.target order;
       Order.howToCall := WireOrder.how_to_call order;
       Order.calldata := WireOrder.calldata order;
       Order.replacementPattern := WireOrder.replacement_pattern order;
       Order.staticTarget := WireOrder.static_target order;
       Order.staticExtradata := WireOrder.static_extradata order;
       Order.paymentToken := WireOrder.payment_token order;
       Order.basePrice := basePrice;
       Order.extra := extra;
       Order.listingTime := listingTime;
       Order.expirationTime := expirationTime;
       Order.salt := salt;
       Order.v := WireOrder.v order;
       Order.r := WireOrder.r order;
       Order.s := WireOrder.s order;
       Order.asset := WireOrder.asset order;
       Order.currentPrice := None |} in
  Returns (set_currentPrice (estimateCurrentPrice_default fromJSON nowMs) fromJSON).

End OrderFromJSON.

Section OrderToJSON.

Variables TO_EXP_NEG TO_EXP_POS : Z.

(** wyvern-js: [WyvernProtocol.getOrderHashHex], the protocol's own
    hash of the object built so far. *)
Variable getOrderHashHex : OrderJSON.t -> string.

Let toString := BigNumber_toString TO_EXP_NEG TO_EXP_POS.

Definition orderToJSON (order : Order.t) : OrderJSON.t :=
  let asJSON :=
    {| OrderJSON.exchange := toLowerCase (Order.exchange order);
       OrderJSON.maker := toLowerCase (Order.maker order);
       OrderJSON.taker := toLowerCase (Order.taker order);
       OrderJSON.makerRelayerFee := toString (Order.makerRelayerFee order);
       OrderJSON.takerRelayerFee := toString (Order.takerRelayerFee order);
       OrderJSON.makerProtocolFee := toString (Order.makerProtocolFee order);
       OrderJSON.takerProtocolFee := toString (Order.takerProtocolFee order);
       OrderJSON.feeMethod := Number_toString (Order.feeMethod order);
       OrderJSON.feeRecipient := toLowerCase (Order.feeRecipient order);
       OrderJSON.side := Number_toString (OrderSide_number (Order.side order));
       OrderJSON.saleKind :=
         Number_toString (SaleKind_number (Order.saleKind order));
       OrderJSON.target := toLowerCase (Order.target order);
       OrderJSON.howToCall := Number_toString (Order.howToCall order);
       OrderJSON.calldata := Order.calldata order;
       OrderJSON.replacementPattern := Order.replacementPattern order;
       OrderJSON.staticTarget := toLowerCase (Order.staticTarget order);
       OrderJSON.staticExtradata := Order.staticExtradata order;
       OrderJSON.paymentToken := toLowerCase (Order.paymentToken order);
       OrderJSON.basePrice := toString (Order.basePrice order);
       OrderJSON.extra := toString (Order.extra order);
       OrderJSON.listingTime := toString (Order.listingTime order);
       OrderJSON.expirationTime := toString (Order.expirationTime order);
       OrderJSON.salt := toString (Order.salt order);
       OrderJSON.hash := None;
       OrderJSON.metadata := None |} in
  let hash := getOrderHashHex asJSON in
  let asJSON := OrderJSON.set_hash hash asJSON in
  let asJSON := OrderJSON.set_metadata (Order.metadata order) asJSON in
  asJSON.

End OrderToJSON.

(** A numeric wire field in the form the data model gives it: the
    decimal notation of a natural number. *)
Definition isDecimalString (str : string) : bool :=
  match digitsValue str with
  | Some n => String.eqb str (digitsOf n)
  | None => false
  end.

Definition numericFields (order : WireOrder.t) : list string :=
  [ WireOrder.maker_relayer_fee order; WireOrder.taker_relayer_fee order;
    WireOrder.maker_protocol_fee order; WireOrder.taker_protocol_fee order;
    WireOrder.base_price order; WireOrder.extra order;
    WireOrder.listing_time order; WireOrder.expiration_time order;
    WireOrder.salt order ].

(** A well-formed wire order: every numeric field is the decimal
    notation of a natural number, short enough to be printed in
    positional notation under the [EXPONENTIAL_AT] setting. *)
Definition wellFormedWireOrder (TO_EXP_POS : Z) (order : WireOrder.t) : bool :=
  forallb
    (fun field =>
       isDecimalString field
       && (Z.of_nat (String.length field) <=? TO_EXP_POS))
    (numericFields order).

(** A wire order for the worked examples: a fixed-price sale with
    checksummed addresses. *)
Definition exampleWireOrder : WireOrder.t :=
  {| WireOrder.order_hash := Some "0x5f1e"%string;
     WireOrder.hash := None;
     WireOrder.cancelled := false;
     WireOrder.finalized := false;
     WireOrder.marked_invalid := false;
     WireOrder.metadata := Some (JObject [("schema"%string, JString "ERC721")]);
     WireOrder.exchange := "0x7Be8076f4EA4A4AD08075C2508e481d6C946D12b";
     WireOrder.maker :=
       {| Account.address := "0xAbCdEf0000000000000000000000000000000001";
          Account.rest := [("user"%string, JNull)] |};
     WireOrder.taker :=
       {| Account.address := "0x0000000000000000000000000000000000000000";
          Account.rest := [("user"%string, JString "nobody")] |};
     WireOrder.maker_relayer_fee := "250";
     WireOrder.taker_relayer_fee := "0";
     WireOrder.maker_protocol_fee := "0";
     WireOrder.taker_protocol_fee := "0";
     WireOrder.fee_method := 1;
     WireOrder.fee_recipient :=
       {| Account.address := "0x5b3256965e7C3cF26E11FCAf296DfC8807C01073";
          Account.rest := [] |};
     WireOrder.side := Sell;
     WireOrder.sale_kind := FixedPrice;
     WireOrder.target := "0x06012c8cf97BEaD5deAe237070F9587f8E7A266d";
     WireOrder.how_to_call := 0;
     WireOrder.calldata := "0x23b872dd";
     WireOrder.replacement_pattern := "0x00000000";
     WireOrder.static_target := "0x0000000000000000000000000000000000000000";
     WireOrder.static_extradata := "0x";
     WireOrder.payment_token := "0x0000000000000000000000000000000000000000";
     WireOrder.base_price := "1000000000000000000";
     WireOrder.extra := "0";
     WireOrder.listing_time := "1540000000";
     WireOrder.expiration_time := "0";
     WireOrder.salt := "8374652910384756291038475629103847562910";
     WireOrder.v := Some 27;
     WireOrder.r := Some "0x11"%string;
     WireOrder.s := Some "0x22"%string;
     WireOrder.asset := None |}.

(* ===================================================================== *)
(** * The transaction confirmation tracker: [track], [confirmTransaction] *)
(* ===================================================================== *)

Definition NULL_BLOCK_HASH : string :=
  "0x0000000000000000000000000000000000000000000000000000000000000000".

(** ** What the chain answers *)

(** The answer of one web3 call as [promisify] hands it on: the value
    the promise resolves to, or the error it rejects with. *)
Inductive RpcResult (A : Type) : Type :=
  | RpcOk (res : A)
  | RpcError (err : string).
Arguments RpcOk {A} res.
Arguments RpcError {A} err.

Record Transaction : Type := { blockHash : option string }.

(** The [status] of a receipt: missing ([undefined] or [null]), a
    number (a whole one), or a string such as ["0x1"]. *)
Inductive ReceiptStatus : Type :=
  | StatusMissing
  | StatusNumber (z : Z)
  | StatusString (str : string).

Record TransactionReceipt : Type := { status : ReceiptStatus }.

(** The answers one iteration of [poll] gets: to [getTransaction], and
    (asked only once the transaction is in a block) to
    [getTransactionReceipt]. *)
Record Observation : Type := {
  getTransaction : RpcResult (option Transaction);
  getTransactionReceipt : RpcResult (option TransactionReceipt)
}.

(** ** [parseInt] *)

Definition isWhiteSpace (c : ascii) : bool :=
  let n := N_of_ascii c in
  ((n =? 32) || ((9 <=? n) && (n <=? 13)))%N.

Fixpoint trimStart (str : string) : string :=
  match str with
  | String c rest => if isWhiteSpace c then trimStart rest else str
  | EmptyString => str
  end.

(** The value of the longest prefix of digits below [radix]; [acc] is
    the value read so far, [None] before the first digit. *)
Fixpoint digitsPrefix (radix : N) (str : string) (acc : option N) : option N :=
  match str with
  | String c rest =>
      match hexDigitValue c with
      | Some d =>
          if (d <? radix)%N
          then digitsPrefix radix rest (Some (default 0%N acc * radix + d)%N)
          else acc
      | None => acc
      end
  | EmptyString => acc
  end.

(** [parseInt(str)] with no radix given; [None] is [NaN]. *)
Definition parseInt (str : string) : option Z :=
  let str := trimStart str in
  let '(negative, str) :=
    match str with
    | String "-" rest => (true, rest)
    | String "+" rest => (false, rest)
    | _ => (false, str)
    end in
  let '(radix, str) :=
    match str with
    | String "0" (String "x" rest) => (16%N, rest)
    | String "0" (String "X" rest) => (16%N, rest)
    | _ => (10%N, str)
    end in
  match digitsPrefix radix str None with
  | Some n => Some (if negative then - Z.of_N n else Z.of_N n)
  | None => None
  end.

(** [parseInt((receipt.status || "0").toString()) == 1]. *)
Definition statusIsOne (receipt : TransactionReceipt) : bool :=
  let str :=
    match status receipt with
    | StatusMissing => "0"%string
    | StatusNumber z => if z =? 0 then "0"%string else Number_toString z
    | StatusString str => if String.eqb str "" then "0"%string else str
    end in
  match parseInt str with
  | Some n => n =? 1
  | None => false
  end.

(** [Number.MAX_SAFE_INTEGER]. *)
Definition MAX_SAFE_INTEGER : Z := 9007199254740991.


(** [tx && tx.blockHash && tx.blockHash !== NULL_BLOCK_HASH]. *)
Definition inBlock (tx : option Transaction) : bool :=
  match tx with
  | Some tx =>
      truthy (blockHash tx)
      && negb (String.eqb (default EmptyString (blockHash tx)) NULL_BLOCK_HASH)
  | None => false
  end.

(** ** The registry and the promises *)

Inductive PromiseState : Type :=
  | Pending
  | Resolved (value : string)
  | Rejected (reason : string).

(** A callback given to [track]. [track] is private to the module and
    [confirmTransaction] is its one caller, so a callback is the closure
    that settles the promise [confirmTransaction] returns,
    [SettlePromise p]; [Listener id] stands for any other function of a
    boolean, known by the record of its calls. Neither calls back into
    the tracker. *)
Inductive TxnCallback : Type :=
  | SettlePromise (p : nat)
  | Listener (id : nat).

#[global] Instance TxnCallback_eq_dec : EqDecision TxnCallback.
Proof. solve_decision. Defined.

(** The state the tracker works on: [txCallbacks], the module-wide
    object from transaction hash to callbacks; the promises made by
    [confirmTransaction], by number; the poll loops alive, one entry a
    loop; and the calls made to callbacks so far, oldest first. *)
Record World : Type := {
  txCallbacks : gmap string (list TxnCallback);
  promises : list PromiseState;
  pollers : list string;
  calls : list (TxnCallback * bool)
}.

Definition initialWorld : World :=
  {| txCallbacks := ∅; promises := []; pollers := []; calls := [] |}.

(** [resolve] and [reject] settle a pending promise and leave a settled
    one as it is. *)
Definition settle (p : nat) (outcome : PromiseState) (ps : list PromiseState)
  : list PromiseState :=
  match ps !! p with
  | Some Pending => <[p := outcome]> ps
  | _ => ps
  end.

(** The callback of [confirmTransaction]: [resolve('Transaction
    complete')] if [didSucceed], [reject('Transaction failed')] if not. *)
Definition settlement (didSucceed : bool) : PromiseState :=
  if didSucceed
  then Resolved "Transaction complete"
  else Rejected "Transaction failed".

(** The call [f(status)]. *)
Definition invoke (status : bool) (w : World) (f : TxnCallback) : World :=
  {| txCallbacks := txCallbacks w;
     promises :=
       match f with
       | SettlePromise p => settle p (settlement status) (promises w)
       | Listener _ => promises w
       end;
     pollers := pollers w;
     calls := calls w ++ [(f, status)] |}.

(** One poll loop less for [txHash]. *)
Fixpoint stopPoller (txHash : string) (loops : list string) : list string :=
  match loops with
  | [] => []
  | h :: rest => if String.eqb h txHash then rest else h :: stopPoller txHash rest
  end.

(** One run of the body of [poll], from the request to its end, with the
    answers [obs]; the flag tells whether it ended in
    [setTimeout(poll, 1000)]. Callbacks registered while the answers
    were awaited are in [txCallbacks] by the time it is read. A rejected
    request, or a registry with no entry to map over, ends the run with an
    error that [poll().catch()] leaves unheard. *)
Definition poll (txHash : string) (obs : Observation) (w : World)
  : World * bool :=
  match getTransaction obs with
  | RpcError _ => (w, false)
  | RpcOk tx =>
      if inBlock tx then
        match getTransactionReceipt obs with
        | RpcError _ => (w, false)
        | RpcOk receipt =>
            let status :=
              match receipt with
              | Some receipt => statusIsOne receipt
              | None => true
              end in
            match txCallbacks w !! txHash with
            | Some fs =>
                let w := fold_left (invoke status) fs w in
                ({| txCallbacks := delete txHash (txCallbacks w);
                    promises := promises w;
                    pollers := pollers w;
                    calls := calls w |}, false)
            | None => (w, false)
            end
        end
      else (w, true)
  end.

(** [track(web3, txHash, onFinalized)]; the loop it starts is entered in
    [pollers]. *)
Definition track (txHash : string) (onFinalized : TxnCallback) (w : World)
  : World :=
  match txCallbacks w !! txHash with
  | Some fs =>
      {| txCallbacks := <[txHash := fs ++ [onFinalized]]> (txCallbacks w);
         promises := promises w;
         pollers := pollers w;
         calls := calls w |}
  | None =>
      {| txCallbacks := <[txHash := [onFinalized]]> (txCallbacks w);
         promises := promises w;
         pollers := pollers w ++ [txHash];
         calls := calls w |}
  end.

(** [confirmTransaction(web3, txHash)]: the number of the new promise,
    and the state after the executor has run. *)
Definition confirmTransaction (txHash : string) (w : World) : nat * World :=
  let p := List.length (promises w) in
  let w := {| txCallbacks := txCallbacks w;
              promises := promises w ++ [Pending];
              pollers := pollers w;
              calls := calls w |} in
  (p, track txHash (SettlePromise p) w).

(** ** Runs *)

(** What happens to the tracker: a caller confirms a transaction or
    registers a callback, or a live poll loop runs once more. *)
Inductive Event : Type :=
  | Confirm (txHash : string)
  | Track (txHash : string) (onFinalized : TxnCallback)
  | Poll (txHash : string) (obs : Observation).

Definition hasPoller (txHash : string) (w : World) : bool :=
  existsb (String.eqb txHash) (pollers w).

Definition endLoop (txHash : string) (w : World) : World :=
  {| txCallbacks := txCallbacks w;
     promises := promises w;
     pollers := stopPoller txHash (pollers w);
     calls := calls w |}.

Definition step (w : World) (ev : Event) : World :=
  match ev with
  | Confirm txHash => snd (confirmTransaction txHash w)
  | Track txHash onFinalized => track txHash onFinalized w
  | Poll txHash obs =>
      if hasPoller txHash w then
        let '(w', again) := poll txHash obs w in
        if again then w' else endLoop txHash w'
      else w
  end.

Definition run (events : list Event) (w : World) : World :=
  fold_left step events w.

(** The poll loop of [txHash] alone, with the answers [chain i] to its
    [i]-th run, for [fuel] runs at most. *)
Fixpoint pollLoop (txHash : string) (chain : nat -> Observation)
    (i fuel : nat) (w : World) : World :=
  match fuel with
  | O => w
  | S fuel =>
      if hasPoller txHash w then
        pollLoop txHash chain (S i) fuel (step w (Poll txHash (chain i)))
      else w
  end.

(** The promise of [confirmTransaction(web3, txHash)], called in a state
    [w], after [fuel] runs of the poll loop. *)
Definition awaitConfirmation (txHash : string) (chain : nat -> Observation)
    (fuel : nat) (w : World) : option PromiseState :=
  let '(p, w) := confirmTransaction txHash w in
  promises (pollLoop txHash chain 0 fuel w) !! p.

(** Answers: not in a block yet, and in a block with a receipt or
    none. *)
Definition notMined : Observation :=
  {| getTransaction := RpcOk (Some {| blockHash := None |});
     getTransactionReceipt := RpcOk None |}.


Definition mined (receipt : option TransactionReceipt) : Observation :=
  {| getTransaction := RpcOk (Some {| blockHash := Some "0xb10c"%string |});
     getTransactionReceipt := RpcOk receipt |}.

Definition isWaiting (obs : Observation) : bool :=
  match getTransaction obs with
  | RpcOk tx => negb (inBlock tx)
  | RpcError _ => false
  end.

(** The answers of a run that reaches the notification: the receipt
    fetched, if the transaction is in a block and both requests were
    answered. *)
Definition fetchedReceipt (obs : Observation)
  : option (option TransactionReceipt) :=
  match getTransaction obs with
  | RpcOk tx =>
      if inBlock tx then
        match getTransactionReceipt obs with
        | RpcOk receipt => Some receipt
        | RpcError _ => None
        end
      else None
  | RpcError _ => None
  end.

(** The status passed to the callbacks. *)
Definition succeeded (receipt : option TransactionReceipt) : bool :=
  match receipt with
  | Some receipt => statusIsOne receipt
  | None => true
  end.

(** The invariant of the tracker: no hash has two poll loops, and a hash
    with a loop has an entry in the registry. *)
Definition trackerInvariant (w : World) : Prop :=
  NoDup (pollers w)
  /\ forall h : string, h ∈ pollers w -> is_Some (txCallbacks w !! h).


(* ===================================================================== *)
(** * Further definitions: prices as scaled integers *)
(* ===================================================================== *)

(** Order of two finite values, equality allowed; [false] when either is
    not finite. *)
Definition BN_leb (x y : BigNumber) : bool :=
  match x, y with
  | BNFinite c1 d1, BNFinite c2 d2 =>
      let m := Nat.max d1 d2 in
      c1 * BN.pow10 (m - d1) <=? c2 * BN.pow10 (m - d2)
  | _, _ => false
  end.

(** [scaled x k n]: [x] is finite, has [k] decimals at most, and its
    value is [n / 10^k]. *)
Definition scaled (x : BigNumber) (k : nat) (n : Z) : Prop :=
  exists (c : Z) (dp : nat),
    x = BNFinite c dp /\ (dp <= k)%nat /\ n = c * BN.pow10 (k - dp).

(** The terms of sale of an order as whole numbers, the form the data
    model gives them. *)
Definition integerTerms (order : Order.t) (basePrice extra listingTime
    expirationTime : Z) : Prop :=
  Order.basePrice order = BN.of_Z basePrice
  /\ Order.extra order = BN.of_Z extra
  /\ Order.listingTime order = BN.of_Z listingTime
  /\ Order.expirationTime order = BN.of_Z expirationTime.

(** The Dutch-auction [diff] in units of [10^-20], for a clock of
    [nowMs] milliseconds: the quotient rounded to twenty decimals. *)
Definition scaledDiff (extra listingTime expirationTime nowMs
    secondsToBacktrack : Z) : Z :=
  BN.div_half_up
    (extra * (nowMs - 1000 * secondsToBacktrack - 1000 * listingTime)
     * BN.pow10 20)
    ((expirationTime - listingTime) * 1000).

(* ===================================================================== *)
(** * Further definitions: the tracker after a failed request *)
(* ===================================================================== *)

(** A run of [poll] that a rejected request cuts short: the lookup of
    the transaction fails, or that of the receipt does once the
    transaction is in a block. *)
Definition failedRequest (obs : Observation) : bool :=
  match getTransaction obs with
  | RpcError _ => true
  | RpcOk tx =>
      inBlock tx
      && match getTransactionReceipt obs with
         | RpcError _ => true
         | RpcOk _ => false
         end
  end.

(** A hash that is in the registry with no poll loop alive. *)
Definition abandoned (txHash : string) (w : World) : Prop :=
  is_Some (txCallbacks w !! txHash) /\ hasPoller txHash w = false.

(* ===================================================================== *)
(** * Further definitions: [makeBigNumber], [orderFromJSONv0],
      [assetFromJSON] *)
(* ===================================================================== *)

(** An argument that is a number (integer-valued) or a string. *)
Inductive NumberOrString : Type :=
  | ANumber (z : Z)
  | AString (str : string).

(** [arg.toString()]. *)
Definition NumberOrString_toString (arg : NumberOrString) : string :=
  match arg with
  | ANumber z => Number_toString z
  | AString str => str
  end.

(** The message of the first call that throws, if any does. *)
Fixpoint firstThrown {A : Type} (outcomes : list (Outcome A)) : option string :=
  match outcomes with
  | [] => None
  | Returns _ :: rest => firstThrown rest
  | Throws e :: _ => Some e
  end.

(** The legacy flat wire order, with the keys [orderFromJSONv0] reads. *)
Module WireOrderV0.
Record t : Type := {
  hash : option string;
  cancelledOrFinalized : bool;
  markedInvalid : bool;
  metadata : option JSON;
  exchange : string;
  maker : string;
  taker : string;
  makerRelayerFee : string;
  takerRelayerFee : string;
  makerProtocolFee : string;
  takerProtocolFee : string;
  feeMethod : Z;
  feeRecipient : string;
  side : OrderSide;
  saleKind : SaleKind;
  target : string;
  howToCall : Z;
  calldata : string;
  replacementPattern : string;
  staticTarget : string;
  staticExtradata : string;
  paymentToken : string;
  basePrice : string;
  extra : string;
  listingTime : string;
  expirationTime : string;
  salt : string;
  v : option Z;
  r : option string;
  s : option string
}.
End WireOrderV0.

(** Modelled from the spec: the [OpenSeaAsset] interface of [./types],
    with the fields [assetFromJSON] fills in. *)
Module AssetContract.
Record t : Type := {
  name : option string;
  address : string;
  buyerFeeBasisPoints : Z;
  sellerFeeBasisPoints : Z
}.
End AssetContract.

Module OpenSeaAsset.
Record t : Type := {
  tokenId : string;
  name : option string;
  owner : option JSON;
  assetContract : AssetContract.t;
  orders : list Order.t
}.
End OpenSeaAsset.

(** The wire asset, with the keys [assetFromJSON] reads. *)
Module WireAsset.
Record t : Type := {
  token_id : NumberOrString;
  name : option string;
  owner : option JSON;
  asset_contract : AssetContract.t;
  orders : list WireOrder.t
}.
End WireAsset.

Section FurtherAdapters.

Variable otherNotation : string -> Outcome BigNumber.

(** [makeBigNumber(arg)]: the answer ['0x'] of a contract counts for
    zero, and a number goes through its string. *)
Definition makeBigNumber (arg : NumberOrString) : Outcome BigNumber :=
  let arg :=
    match arg with
    | AString str => if String.eqb str "0x" then ANumber 0 else arg
    | ANumber _ => arg
    end in
  let arg := NumberOrString_toString arg in
  BigNumber_new otherNotation arg.

(** [orderFromJSONv0(order)], run when the clock reads [nowMs]. The
    price is estimated on the wire order itself, whose terms are
    strings: [estimateCurrentPrice] reads [basePrice], [listingTime],
    [expirationTime] and [extra] with the constructor once more. *)
Definition orderFromJSONv0 (order : WireOrderV0.t) (nowMs : Z)
  : Outcome Order.t :=
  let! makerRelayerFee := BigNumber_new otherNotation (WireOrderV0.makerRelayerFee order) in
  let! takerRelayerFee := BigNumber_new otherNotation (WireOrderV0.takerRelayerFee order) in
  let! makerProtocolFee := BigNumber_new otherNotation (WireOrderV0.makerProtocolFee order) in
  let! takerProtocolFee := BigNumber_new otherNotation (WireOrderV0.takerProtocolFee order) in
  let! basePrice := BigNumber_new otherNotation (WireOrderV0.basePrice order) in
  let! extra := BigNumber_new otherNotation (WireOrderV0.extra order) in
  let! listingTime := BigNumber_new otherNotation (WireOrderV0.listingTime order) in
  let! expirationTime := BigNumber_new otherNotation (WireOrderV0.expirationTime order) in
  let! salt := BigNumber_new otherNotation (WireOrderV0.salt order) in
  let fromJSON :=
    {| Order.hash := WireOrderV0.hash order;
       Order.cancelledOrFinalized := WireOrderV0.cancelledOrFinalized order;
       Order.markedInvalid := WireOrderV0.markedInvalid order;
       Order.metadata := WireOrderV0.metadata order;
       Order.exchange := WireOrderV0.exchange order;
       Order.makerAccount := None;
       Order.takerAccount := None;
       Order.maker := WireOrderV0.maker order;
       Order.taker := WireOrderV0.taker order;
       Order.makerRelayerFee := makerRelayerFee;
       Order.takerRelayerFee := takerRelayerFee;
       Order.makerProtocolFee := makerProtocolFee;
       Order.takerProtocolFee := takerProtocolFee;
       Order.feeMethod := WireOrderV0.feeMethod order;
       Order.feeRecipientAccount := None;
       Order.feeRecipient := WireOrderV0.feeRecipient order;
       Order.side := WireOrderV0.side order;
       Order.saleKind := WireOrderV0.saleKind order;
       Order.target := WireOrderV0.target order;
       Order.howToCall := WireOrderV0.howToCall order;
       Order.calldata := WireOrderV0.calldata order;
       Order.replacementPattern := WireOrderV0.replacementPattern order;
       Order.staticTarget := WireOrderV0.staticTarget order;
       Order.staticExtradata := WireOrderV0.staticExtradata order;
       Order.paymentToken := WireOrderV0.paymentToken order;
       Order.basePrice := basePrice;
       Order.extra := extra;
       Order.listingTime := listingTime;
       Order.expirationTime := expirationTime;
       Order.salt := salt;
       Order.v := WireOrderV0.v order;
       Order.r := WireOrderV0.r order;
       Order.s := WireOrderV0.s order;
       Order.asset := None;
       Order.currentPrice := None |} in
  let! basePrice' := BigNumber_new otherNotation (WireOrderV0.basePrice order) in
  let! listingTime' := BigNumber_new otherNotation (WireOrderV0.listingTime order) in
  let! expirationTime' := BigNumber_new otherNotation (WireOrderV0.expirationTime order) in
  let! extra' := BigNumber_new otherNotation (WireOrderV0.extra order) in
  let priced := withTerms basePrice' listingTime' expirationTime' extra' fromJSON in
  Returns (set_currentPrice (estimateCurrentPrice_default priced nowMs) fromJSON).

(** [asset.orders.map(orderFromJSON)]: the orders in turn, the [i]-th
    with the clock at [clock i]; the first call that throws ends the
    whole. *)
Fixpoint ordersFromJSON (orders : list WireOrder.t) (clock : nat -> Z)
    (i : nat) : Outcome (list Order.t) :=
  match orders with
  | [] => Returns []
  | order :: rest =>
      let! fromJSON := orderFromJSON otherNotation order (clock i) in
      let! others := ordersFromJSON rest clock (S i) in
      Returns (fromJSON :: others)
  end.

Definition assetFromJSON (asset : WireAsset.t) (clock : nat -> Z)
  : Outcome OpenSeaAsset.t :=
  let tokenId := NumberOrString_toString (WireAsset.token_id asset) in
  let! orders := ordersFromJSON (WireAsset.orders asset) clock 0 in
  Returns
    {| OpenSeaAsset.tokenId := tokenId;
       OpenSeaAsset.name := WireAsset.name asset;
       OpenSeaAsset.owner := WireAsset.owner asset;
       OpenSeaAsset.assetContract := WireAsset.asset_contract asset;
       OpenSeaAsset.orders := orders |}.

End FurtherAdapters.

Definition numericFieldsV0 (order : WireOrderV0.t) : list string :=
  [ WireOrderV0.makerRelayerFee order; WireOrderV0.takerRelayerFee order;
    WireOrderV0.makerProtocolFee order; WireOrderV0.takerProtocolFee order;
    WireOrderV0.basePrice order; WireOrderV0.extra order;
    WireOrderV0.listingTime order; WireOrderV0.expirationTime order;
    WireOrderV0.salt order ].

Definition wellFormedWireOrderV0 (TO_EXP_POS : Z) (order : WireOrderV0.t) : bool :=
  forallb
    (fun field =>
       isDecimalString field
       && (Z.of_nat (String.length field) <=? TO_EXP_POS))
    (numericFieldsV0 order).

(** A legacy wire order for the worked examples: a Dutch auction. *)
Definition exampleWireOrderV0 : WireOrderV0.t :=
  {| WireOrderV0.hash := Some "0x5f1e"%string;
     WireOrderV0.cancelledOrFinalized := false;
     WireOrderV0.markedInvalid := false;
     WireOrderV0.metadata := None;
     WireOrderV0.exchange := "0x7Be8076f4EA4A4AD08075C2508e481d6C946D12b";
     WireOrderV0.maker := "0xAbCdEf0000000000000000000000000000000001";
     WireOrderV0.taker := "0x0000000000000000000000000000000000000000";
     WireOrderV0.makerRelayerFee := "250";
     WireOrderV0.takerRelayerFee := "0";
     WireOrderV0.makerProtocolFee := "0";
     WireOrderV0.takerProtocolFee := "0";
     WireOrderV0.feeMethod := 1;
     WireOrderV0.feeRecipient := "0x5b3256965e7C3cF26E11FCAf296DfC8807C01073";
     WireOrderV0.side := Sell;
     WireOrderV0.saleKind := DutchAuction;
     WireOrderV0.target := "0x06012c8cf97BEaD5deAe237070F9587f8E7A266d";
     WireOrderV0.howToCall := 0;
     WireOrderV0.calldata := "0x23b872dd";
     WireOrderV0.replacementPattern := "0x00000000";
     WireOrderV0.staticTarget := "0x0000000000000000000000000000000000000000";
     WireOrderV0.staticExtradata := "0x";
     WireOrderV0.paymentToken := "0x0000000000000000000000000000000000000000";
     WireOrderV0.basePrice := "1000";
     WireOrderV0.extra := "100";
     WireOrderV0.listingTime := "1540000000";
     WireOrderV0.expirationTime := "1540003600";
     WireOrderV0.salt := "8374652910384756291038475629103847562910";
     WireOrderV0.v := Some 27;
     WireOrderV0.r := Some "0x11"%string;
     WireOrderV0.s := Some "0x22"%string |}.

(** A wire asset for the worked examples, with two orders, and a clock
    that advances by a millisecond from one call to the next. *)
Definition exampleWireAsset : WireAsset.t :=
  {| WireAsset.token_id := ANumber 42;
     WireAsset.name := None;
     WireAsset.owner := None;
     WireAsset.asset_contract :=
       {| AssetContract.name := None;
          AssetContract.address := "0x06012c8cf97BEaD5deAe237070F9587f8E7A266d";
          AssetContract.buyerFeeBasisPoints := 0;
          AssetContract.sellerFeeBasisPoints := 250 |};
     WireAsset.orders := [exampleWireOrder; exampleWireOrder] |}.

Definition exampleClock (i : nat) : Z := 1541000000000 + Z.of_nat i.

(* ===================================================================== *)
(** * Further definitions: [personalSignAsync], [sendRawTransaction] *)
(* ===================================================================== *)

(** How the promise of an [async] function ends. *)
Inductive Settled (A : Type) : Type :=
  | Fulfilled (a : A)
  | RejectedWith (reason : string).
Arguments Fulfilled {A} a.
Arguments RejectedWith {A} reason.

(** [personalSignAsync(web3, message, signerAddress)], given the answer
    of the provider to the [personal_sign] request: the [result] of the
    response, or the error of the request. *)
Definition personalSignAsync (answer : RpcResult string)
  : Settled ECSignature.t :=
  match answer with
  | RpcError err => RejectedWith err
  | RpcOk result =>
      match parseSignatureHex result with
      | Returns sig => Fulfilled sig
      | Throws message => RejectedWith message
      end
  end.

(** [sendRawTransaction(web3, {..., awaitConfirmation})], given the
    answer [sent] to [sendTransaction] and, when it awaits the
    confirmation, the answers of the chain to a poll loop that runs
    [fuel] times at most: the state of the promise it returns, and the
    state of the tracker. *)
Definition sendRawTransaction (sent : RpcResult string)
    (awaitConfirmation : bool) (chain : nat -> Observation) (fuel : nat)
    (w : World) : PromiseState * World :=
  match sent with
  | RpcError err => (Rejected err, w)
  | RpcOk txHash =>
      if awaitConfirmation then
        let '(p, w) := confirmTransaction txHash w in
        let w := pollLoop txHash chain 0 fuel w in
        (match promises w !! p with
         | Some (Resolved _) => Resolved txHash
         | Some (Rejected reason) => Rejected reason
         | _ => Pending
         end, w)
      else (Resolved txHash, w)
  end.

(** ** The registry over a whole run *)

(** The callers of the tracker: [track] is private, so what happens to
    it is a [confirmTransaction] or a run of a poll loop. *)
Definition confirmOrPoll (ev : Event) : bool :=
  match ev with
  | Track _ _ => false
  | _ => true
  end.

(** What holds of the registry, the promises and the record of calls in
    every state such a run reaches. *)
Record registryInvariant (w : World) : Prop := {
  registered_pending :
    forall h fs, txCallbacks w !! h = Some fs ->
      NoDup fs
      /\ forall f, f ∈ fs ->
           (exists p, f = SettlePromise p /\ promises w !! p = Some Pending)
           /\ f ∉ map fst (calls w);
  registered_once :
    forall h1 h2 fs1 fs2 f,
      h1 <> h2 -> txCallbacks w !! h1 = Some fs1 -> txCallbacks w !! h2 = Some fs2 ->
      f ∈ fs1 -> f ∉ fs2;
  called_once : NoDup (map fst (calls w));
  called_settled :
    forall f st, (f, st) ∈ calls w ->
      exists p, f = SettlePromise p /\ promises w !! p = Some (settlement st);
  pending_registered :
    forall p, promises w !! p = Some Pending ->
      exists h fs, txCallbacks w !! h = Some fs /\ SettlePromise p ∈ fs
}.

(* ===================================================================== *)
(** * Properties of the numbers *)
(* ===================================================================== *)

Lemma pow10_pos (n : nat) : 0 < BN.pow10 n.
Proof. unfold BN.pow10. apply Z.pow_pos_nonneg; lia. Qed.

Lemma value_le_inject (c : Z) (dp : nat) (k : Z) :
  (BN.value c dp <= inject_Z k)%Q <-> c <= k * BN.pow10 dp.
Proof.
  unfold BN.value, Qle, inject_Z; simpl.
  rewrite Z2Pos.id by apply pow10_pos. lia.
Qed.

(** [ceil] of a finite value is the least integer that is not below it. *)
Lemma ceil_least (c : Z) (dp : nat) :
  exists k, BN.ceil (BNFinite c dp) = BNFinite k 0
    /\ (BN.value c dp <= inject_Z k)%Q
    /\ forall j, (BN.value c dp <= inject_Z j)%Q -> k <= j.
Proof.
  exists (- ((- c) / BN.pow10 dp)). split; [reflexivity|].
  pose proof (pow10_pos dp) as Hp.
  pose proof (Z.mul_div_le (- c) (BN.pow10 dp) Hp) as Hlo.
  split.
  - apply value_le_inject. lia.
  - intros j Hj. apply value_le_inject in Hj.
    assert (- j <= (- c) / BN.pow10 dp); [|lia].
    apply Z.div_le_lower_bound; lia.
Qed.

Lemma ceil_not_fractional (x : BigNumber) : BN.isFractional (BN.ceil x) = false.
Proof.
  destruct x as [c dp| |]; simpl; try reflexivity.
  unfold BN.pow10. simpl. rewrite Z.mod_1_r. reflexivity.
Qed.

Lemma ceil_integer (x : BigNumber) : BN.isInteger x = true -> BN.ceil x = x.
Proof.
  destruct x as [c [|dp]| |]; simpl; try discriminate. intros _.
  unfold BN.pow10. simpl. rewrite Z.div_1_r. f_equal. lia.
Qed.

Lemma value_lt_inject (c : Z) (dp : nat) (k : Z) :
  (BN.value c dp < inject_Z k)%Q <-> c < k * BN.pow10 dp.
Proof.
  unfold BN.value, Qlt, inject_Z; simpl.
  rewrite Z2Pos.id by apply pow10_pos. lia.
Qed.

Lemma inject_lt_value (c : Z) (dp : nat) (k : Z) :
  (inject_Z k < BN.value c dp)%Q <-> k * BN.pow10 dp < c.
Proof.
  unfold BN.value, Qlt, inject_Z; simpl.
  rewrite Z2Pos.id by apply pow10_pos. lia.
Qed.

(** [ceil] of a value with a fractional part is the integer just above
    it. *)
Lemma ceil_fractional (c : Z) (dp : nat) :
  BN.isFractional (BNFinite c dp) = true ->
  exists k, BN.ceil (BNFinite c dp) = BNFinite k 0
    /\ (inject_Z (k - 1) < BN.value c dp)%Q
    /\ (BN.value c dp < inject_Z k)%Q.
Proof.
  cbn [BN.isFractional]. intros H. apply negb_true_iff, Z.eqb_neq in H.
  exists (- ((- c) / BN.pow10 dp)). split; [reflexivity|].
  pose proof (pow10_pos dp) as Hp.
  pose proof (Z.div_mod (- c) (BN.pow10 dp) ltac:(lia)) as Hdiv.
  pose proof (Z.mod_pos_bound (- c) (BN.pow10 dp) Hp) as Hr.
  assert (Hnz : (- c) mod BN.pow10 dp <> 0).
  { intros E. apply H. apply Z.mod_divide in E; [|lia]. apply Z.mod_divide; [lia|].
    destruct E as [q Hq]. exists (- q). lia. }
  split.
  - apply inject_lt_value. nia.
  - apply value_lt_inject. nia.
Qed.

Lemma ceil_changes_fractional (x : BigNumber) :
  BN.isFractional x = true -> BN.ceil x <> x.
Proof.
  destruct x as [c dp| |]; try discriminate. intros H E.
  cbn [BN.ceil] in E. injection E as _ Hdp. subst dp.
  cbn [BN.isFractional] in H. unfold BN.pow10 in H. simpl in H.
  rewrite Z.mod_1_r in H. discriminate H.
Qed.

Lemma ceil_not_finite (x : BigNumber) : BN.isFinite x = false -> BN.ceil x = x.
Proof. destruct x; [discriminate|reflexivity..]. Qed.

(** A value the library builds is whole, in the form [BNFinite c 0], or
    has a fractional part. *)
Lemma mk_integer_or_fractional (c : Z) (dp : nat) :
  BN.isInteger (BN.mk c dp) = true \/ BN.isFractional (BN.mk c dp) = true.
Proof.
  unfold BN.mk. revert c. induction dp as [|d IH]; intros c; [left; reflexivity|].
  cbn [BN.strip]. destruct (c mod 10 =? 0) eqn:E; [apply IH|].
  right. cbn [BN.isFractional]. apply negb_true_iff, Z.eqb_neq. intros H.
  apply Z.eqb_neq in E. apply E.
  apply Z.mod_divide in H; [|pose proof (pow10_pos (S d)); lia].
  apply Z.mod_divide; [lia|]. destruct H as [q Hq].
  exists (q * BN.pow10 d). rewrite Hq. unfold BN.pow10.
  rewrite Nat2Z.inj_succ, Z.pow_succ_r by lia. lia.
Qed.

(* ===================================================================== *)
(** * Properties of [estimateCurrentPrice] *)
(* ===================================================================== *)

(** The auction of the spec's boundary example: a Sell order listed at
    [T0 = 1540000000], expiring an hour later, from 1000 down by 100. *)
Example dutch_sell_at_listing :
  estimateCurrentPrice
    (termsOnlyOrder Sell DutchAuction 1000 100 1540000000 1540003600)
    1540000000000 0 true = BNFinite 1000 0.
Proof. vm_compute. reflexivity. Qed.

Example dutch_sell_at_expiration :
  estimateCurrentPrice
    (termsOnlyOrder Sell DutchAuction 1000 100 1540000000 1540003600)
    1540003600000 0 true = BNFinite 900 0.
Proof. vm_compute. reflexivity. Qed.

Example dutch_sell_default_backtrack :
  estimateCurrentPrice_default
    (termsOnlyOrder Sell DutchAuction 1000 100 1540000000 1540003600)
    1540001800500 = BNFinite 951 0
  /\ estimateCurrentPrice
    (termsOnlyOrder Sell DutchAuction 1000 100 1540000000 1540003600)
    1540001800500 30 false = BNFinite 95081944444444444444444 20.
Proof. vm_compute. split; reflexivity. Qed.

Example dutch_buy_midway :
  estimateCurrentPrice
    (termsOnlyOrder Buy DutchAuction 1000 100 1540000000 1540003600)
    1540001800000 0 true = BNFinite 1050 0.
Proof. vm_compute. reflexivity. Qed.

(** An empty auction window divides by zero: the price is not finite. *)
Example dutch_empty_window :
  estimateCurrentPrice
    (termsOnlyOrder Sell DutchAuction 1000 100 1540000000 1540000000)
    1540001800000 0 true = BNInfinity true.
Proof. vm_compute. reflexivity. Qed.

Lemma exactPrice_fixed (order : Order.t) (nowMs secondsToBacktrack : Z) :
  Order.saleKind order = FixedPrice ->
  exactPrice order nowMs secondsToBacktrack = Order.basePrice order.
Proof. intros H. unfold exactPrice. rewrite H. reflexivity. Qed.

Lemma exactPrice_dutch (order : Order.t) (nowMs secondsToBacktrack : Z) :
  Order.saleKind order = DutchAuction ->
  exactPrice order nowMs secondsToBacktrack =
    let diff := dutchAuctionDiff order (backtrackedNow nowMs secondsToBacktrack) in
    match Order.side order with
    | Sell => BN.minus (Order.basePrice order) diff
    | Buy => BN.plus (Order.basePrice order) diff
    end.
Proof.
  intros H. unfold exactPrice. rewrite H. simpl.
  destruct (Order.side order); reflexivity.
Qed.

(** C1. For a Dutch-auction order the price is the linear formula
    [basePrice - diff] (Sell) or [basePrice + diff] (Buy), where
    [diff = extra * (now - listingTime) / (expirationTime - listingTime)]
    and [now] is the Unix time less [secondsToBacktrack]; the result is
    that value, rounded up when [shouldRoundUp] is set. Nothing clamps
    it: after the expiration a Sell price falls below
    [basePrice - extra], and before the listing it lies above
    [basePrice]. *)
Theorem estimateCurrentPrice_dutch_auction :
  (forall (order : Order.t) (nowMs secondsToBacktrack : Z) (shouldRoundUp : bool),
     Order.saleKind order = DutchAuction ->
     let now := BN.minus (unixTimeSeconds nowMs) (BN.of_Z secondsToBacktrack) in
     let diff :=
       BN.dividedBy
         (BN.times (Order.extra order) (BN.minus now (Order.listingTime order)))
         (BN.minus (Order.expirationTime order) (Order.listingTime order)) in
     let price :=
       match Order.side order with
       | Sell => BN.minus (Order.basePrice order) diff
       | Buy => BN.plus (Order.basePrice order) diff
       end in
     estimateCurrentPrice order nowMs secondsToBacktrack shouldRoundUp =
       if shouldRoundUp then BN.ceil price else price)
  /\ (exists (order : Order.t) (nowMs : Z),
        Order.saleKind order = DutchAuction /\ Order.side order = Sell
        /\ BN_ltb (Order.expirationTime order) (backtrackedNow nowMs 0) = true
        /\ BN_ltb (estimateCurrentPrice order nowMs 0 false)
                  (BN.minus (Order.basePrice order) (Order.extra order)) = true)
  /\ (exists (order : Order.t) (nowMs : Z),
        Order.saleKind order = DutchAuction /\ Order.side order = Sell
        /\ BN_ltb (backtrackedNow nowMs 0) (Order.listingTime order) = true
        /\ BN_ltb (Order.basePrice order)
                  (estimateCurrentPrice order nowMs 0 false) = true).
Proof.
  split; [|split].
  - intros order nowMs stb ru H. cbv zeta.
    unfold estimateCurrentPrice. rewrite (exactPrice_dutch _ _ _ H).
    reflexivity.
  - exists (termsOnlyOrder Sell DutchAuction 1000 100 1540000000 1540003600),
      1540007200000.
    vm_compute. repeat split; reflexivity.
  - exists (termsOnlyOrder Sell DutchAuction 1000 100 1540000000 1540003600),
      1539996400000.
    vm_compute. repeat split; reflexivity.
Qed.

Lemma estimateCurrentPrice_dutch_auction_witness :
  Order.saleKind (termsOnlyOrder Sell DutchAuction 1000 100 1540000000 1540003600)
    = DutchAuction
  /\ estimateCurrentPrice
       (termsOnlyOrder Sell DutchAuction 1000 100 1540000000 1540003600)
       1540007200000 30 true = BNFinite 801 0.
Proof.
  split; [reflexivity|].
  rewrite (proj1 estimateCurrentPrice_dutch_auction
             (termsOnlyOrder Sell DutchAuction 1000 100 1540000000 1540003600)
             1540007200000 30 true eq_refl).
  vm_compute. reflexivity.
Defined.

(** C3, as amended. For a fixed-price order the clock and
    [secondsToBacktrack] play no part, but [shouldRoundUp] does. With
    the flag off the result is [basePrice] as it stands. With the flag
    on, which is the default, the result is the ceiling of [basePrice]:
    [basePrice] itself when that is whole or not finite, and the integer
    just above it, not [basePrice], when it has a fractional part. *)
Theorem estimateCurrentPrice_fixed_price
    (order : Order.t) (nowMs secondsToBacktrack : Z) :
  Order.saleKind order = FixedPrice ->
  estimateCurrentPrice order nowMs secondsToBacktrack false
    = Order.basePrice order
  /\ estimateCurrentPrice order nowMs secondsToBacktrack true
     = BN.ceil (Order.basePrice order)
  /\ (BN.isInteger (Order.basePrice order) = true
      \/ BN.isFinite (Order.basePrice order) = false ->
      estimateCurrentPrice order nowMs secondsToBacktrack true
        = Order.basePrice order)
  /\ (BN.isFractional (Order.basePrice order) = true ->
      estimateCurrentPrice order nowMs secondsToBacktrack true
        <> Order.basePrice order
      /\ exists (c : Z) (dp : nat) (k : Z),
           Order.basePrice order = BNFinite c dp
           /\ estimateCurrentPrice order nowMs secondsToBacktrack true
              = BNFinite k 0
           /\ (inject_Z (k - 1) < BN.value c dp)%Q
           /\ (BN.value c dp < inject_Z k)%Q).
Proof.
  intros H. unfold estimateCurrentPrice.
  rewrite (exactPrice_fixed _ _ _ H). split; [reflexivity|]. split; [reflexivity|].
  split.
  - intros [Hint|Hinf]; [now apply ceil_integer | now apply ceil_not_finite].
  - intros Hfrac. split; [now apply ceil_changes_fractional|].
    destruct (Order.basePrice order) as [c dp| |] eqn:E; try discriminate Hfrac.
    destruct (ceil_fractional c dp Hfrac) as (k & Hk & Hlo & Hhi).
    exists c, dp, k. auto.
Qed.

Lemma estimateCurrentPrice_fixed_price_witness :
  estimateCurrentPrice (termsOnlyOrder Buy FixedPrice 1000 100 1540000000 0)
    1540007200123 30 true = BNFinite 1000 0
  /\ estimateCurrentPrice fractionalPriceOrder 1540007200123 30 false
     = BNFinite 10005 1
  /\ estimateCurrentPrice fractionalPriceOrder 1540007200123 30 true
     = BNFinite 1001 0
  /\ estimateCurrentPrice fractionalPriceOrder 1540007200123 30 true
     <> Order.basePrice fractionalPriceOrder.
Proof.
  pose proof (estimateCurrentPrice_fixed_price
                (termsOnlyOrder Buy FixedPrice 1000 100 1540000000 0)
                1540007200123 30 eq_refl) as (_ & _ & Hwhole & _).
  pose proof (estimateCurrentPrice_fixed_price fractionalPriceOrder
                1540007200123 30 eq_refl) as (Hoff & Hon & _ & Hfrac).
  split; [exact (Hwhole (or_introl eq_refl))|].
  split; [exact Hoff|]. split; [exact Hon|].
  exact (proj1 (Hfrac eq_refl)).
Defined.

(** C3 as it is worded fails: with [shouldRoundUp] on, a fixed-price
    order whose [basePrice] is 1000.5 is priced 1001. *)
Lemma estimateCurrentPrice_fixed_price_rounds_fraction :
  ~ (forall (order : Order.t) (nowMs secondsToBacktrack : Z)
            (shouldRoundUp : bool),
        Order.saleKind order = FixedPrice ->
        estimateCurrentPrice order nowMs secondsToBacktrack shouldRoundUp
          = Order.basePrice order).
Proof.
  intros H. specialize (H fractionalPriceOrder 1540007200123 30 true eq_refl).
  vm_compute in H. discriminate H.
Qed.

(** C4. With [shouldRoundUp] the result is never fractional: it is the
    ceiling of the exact price, the least integer not below it whenever
    the exact price is a number. Without [shouldRoundUp] the exact price
    is returned as it is. *)
Theorem estimateCurrentPrice_rounding
    (order : Order.t) (nowMs secondsToBacktrack : Z) :
  estimateCurrentPrice order nowMs secondsToBacktrack false
    = exactPrice order nowMs secondsToBacktrack
  /\ estimateCurrentPrice order nowMs secondsToBacktrack true
    = BN.ceil (exactPrice order nowMs secondsToBacktrack)
  /\ BN.isFractional (estimateCurrentPrice order nowMs secondsToBacktrack true)
    = false
  /\ forall (c : Z) (dp : nat),
       exactPrice order nowMs secondsToBacktrack = BNFinite c dp ->
       exists k : Z,
         estimateCurrentPrice order nowMs secondsToBacktrack true = BNFinite k 0
         /\ (BN.value c dp <= inject_Z k)%Q
         /\ forall j : Z, (BN.value c dp <= inject_Z j)%Q -> k <= j.
Proof.
  unfold estimateCurrentPrice. repeat split.
  - apply ceil_not_fractional.
  - intros c dp ->. apply ceil_least.
Qed.

Lemma estimateCurrentPrice_rounding_witness :
  exists k : Z,
    estimateCurrentPrice
      (termsOnlyOrder Sell DutchAuction 1000 100 1540000000 1540003600)
      1540001800500 30 true = BNFinite k 0
    /\ (BN.value 95081944444444444444444 20 <= inject_Z k)%Q
    /\ forall j : Z, (BN.value 95081944444444444444444 20 <= inject_Z j)%Q -> k <= j.
Proof.
  apply (proj2 (proj2 (proj2 (estimateCurrentPrice_rounding
           (termsOnlyOrder Sell DutchAuction 1000 100 1540000000 1540003600)
           1540001800500 30)))).
  vm_compute. reflexivity.
Defined.

(* ===================================================================== *)
(** * Properties of [parseSignatureHex] *)
(* ===================================================================== *)

Example parse_rsv_27 :
  parseSignatureHex (signatureRSV Byte.x11 Byte.x22 Byte.x1b)
  = Returns {| ECSignature.v := 27;
               ECSignature.r := bufferToHex (repeat Byte.x11 32);
               ECSignature.s := bufferToHex (repeat Byte.x22 32) |}.
Proof. vm_compute. reflexivity. Qed.

Example parse_vrs_28 :
  parseSignatureHex (signatureVRS Byte.x11 Byte.x22 Byte.x1c)
  = Returns {| ECSignature.v := 28;
               ECSignature.r := bufferToHex (repeat Byte.x11 32);
               ECSignature.s := bufferToHex (repeat Byte.x22 32) |}.
Proof. vm_compute. reflexivity. Qed.

Example parse_vrs_recovery_id_1 :
  parseSignatureHex (signatureVRS Byte.xaa Byte.x22 Byte.x01)
  = Returns {| ECSignature.v := 28;
               ECSignature.r := bufferToHex (repeat Byte.xaa 32);
               ECSignature.s := bufferToHex (repeat Byte.x22 32) |}.
Proof. vm_compute. reflexivity. Qed.

Example parse_rejected :
  parseSignatureHex (signatureRSV Byte.x11 Byte.x22 Byte.x1d)
  = Throws "Invalid signature".
Proof. vm_compute. reflexivity. Qed.

Example parse_short :
  parseSignatureHex "0x1b1c" = Throws "Invalid signature length".
Proof. vm_compute. reflexivity. Qed.

Lemma includes_valid (v : Z) :
  includes validVParamValues v = true <-> v = 27 \/ v = 28.
Proof. unfold includes, validVParamValues. simpl. lia. Qed.

Lemma includes_invalid (v : Z) :
  includes validVParamValues v = false <-> ~ (v = 27 \/ v = 28).
Proof. unfold includes, validVParamValues. simpl. lia. Qed.

Lemma slice_front (n : nat) (a b : Buffer) :
  List.length a = n -> slice 0 n (a ++ b) = a.
Proof.
  intros H. unfold slice. simpl. rewrite Nat.sub_0_r.
  apply take_app_length'. symmetry. exact H.
Qed.

Lemma slice_middle (n m : nat) (a b c : Buffer) :
  List.length a = n -> List.length b = (m - n)%nat ->
  slice n m (a ++ b ++ c) = b.
Proof.
  intros Ha Hb. unfold slice.
  rewrite (drop_app_length' a (b ++ c) n (eq_sym Ha)).
  apply take_app_length'. symmetry. exact Hb.
Qed.

Lemma slice_end (n m : nat) (a b : Buffer) :
  List.length a = n -> List.length b = (m - n)%nat ->
  slice n m (a ++ b) = b.
Proof.
  intros Ha Hb. rewrite <- (app_nil_r b) at 1.
  rewrite (slice_middle n m a b [] Ha Hb). reflexivity.
Qed.

(** The bytes of a signature laid out as r, s, v. *)
Lemma parse_RSV_layout (signature : string) (rb sb : Buffer) (vb : Byte.byte) :
  toBuffer signature = rb ++ sb ++ [vb] ->
  List.length rb = 32%nat -> List.length sb = 32%nat ->
  _parseSignatureHexAsRSV signature
  = Returns {| ECSignature.v := addRecoveryOffset (byteValue vb);
               ECSignature.r := bufferToHex rb;
               ECSignature.s := bufferToHex sb |}.
Proof.
  intros Hbuf Hr Hs. unfold _parseSignatureHexAsRSV, fromRpcSig.
  rewrite Hbuf.
  assert (Hlen : List.length (rb ++ sb ++ [vb]) = 65%nat).
  { rewrite !length_app, Hr, Hs. reflexivity. }
  rewrite Hlen. simpl negb. cbv iota.
  rewrite (slice_front 32 rb _ Hr).
  rewrite (slice_middle 32 64 rb sb [vb] Hr Hs).
  replace (nth 64 (rb ++ sb ++ [vb]) Byte.x00) with vb; [reflexivity|].
  rewrite app_assoc.
  rewrite app_nth2 by (rewrite length_app, Hr, Hs; simpl; lia).
  rewrite length_app, Hr, Hs. reflexivity.
Qed.

(** The bytes of a signature laid out as v, r, s. *)
Lemma parse_VRS_layout (signature : string) (vb : Byte.byte) (rb sb : Buffer) :
  toBuffer signature = [vb] ++ rb ++ sb ->
  List.length rb = 32%nat -> List.length sb = 32%nat ->
  _parseSignatureHexAsVRS signature
  = Some {| ECSignature.v := addRecoveryOffset (byteValue vb);
            ECSignature.r := bufferToHex rb;
            ECSignature.s := bufferToHex sb |}.
Proof.
  intros Hbuf Hr Hs. unfold _parseSignatureHexAsVRS.
  rewrite Hbuf. cbn [app]. do 3 f_equal.
  - apply (slice_middle 1 33 [vb] rb sb); [reflexivity | exact Hr].
  - change (vb :: rb ++ sb) with (([vb] ++ rb) ++ sb).
    apply (slice_end 33 65 ([vb] ++ rb) sb); [|exact Hs].
    rewrite length_app, Hr. reflexivity.
Qed.

(** With 65 bytes both parsers give a candidate. *)
Lemma parse_candidates (signature : string) :
  List.length (toBuffer signature) = 65%nat ->
  exists rsv vrs,
    _parseSignatureHexAsRSV signature = Returns rsv
    /\ _parseSignatureHexAsVRS signature = Some vrs.
Proof.
  intros Hlen. unfold _parseSignatureHexAsRSV, _parseSignatureHexAsVRS, fromRpcSig.
  rewrite Hlen. simpl negb. cbv iota.
  destruct (toBuffer signature) as [|b0 rest]; [discriminate|].
  eexists. eexists. split; reflexivity.
Qed.

Lemma parse_wrong_length (signature : string) :
  List.length (toBuffer signature) <> 65%nat ->
  parseSignatureHex signature = Throws "Invalid signature length".
Proof.
  intros Hlen. unfold parseSignatureHex, _parseSignatureHexAsRSV, fromRpcSig.
  apply Nat.eqb_neq in Hlen. rewrite Hlen. reflexivity.
Qed.

Lemma hexEncode_digits (buf : Buffer) :
  string_forallb isHexDigit (hexEncode buf) = true.
Proof.
  induction buf as [|b rest IH]; [reflexivity|].
  cbn [hexEncode string_forallb]. rewrite IH.
  destruct b; reflexivity.
Qed.

Lemma hexEncode_even (buf : Buffer) :
  Nat.even (String.length (hexEncode buf)) = true.
Proof. induction buf as [|b rest IH]; [reflexivity | exact IH]. Qed.

Lemma hexDecode_hexEncode (buf : Buffer) : hexDecode (hexEncode buf) = buf.
Proof.
  induction buf as [|b rest IH]; [reflexivity|].
  cbn [hexEncode hexDecode]. rewrite IH.
  destruct b; reflexivity.
Qed.

(** Every buffer is spelled by its hex string. *)
Lemma toBuffer_bufferToHex (buf : Buffer) : toBuffer (bufferToHex buf) = buf.
Proof.
  unfold toBuffer, bufferToHex. cbn [isHexString stripHexPrefix].
  rewrite hexEncode_digits. unfold padToEven.
  rewrite hexEncode_even. apply hexDecode_hexEncode.
Qed.

(** C2. [parseSignatureHex] parses the bytes as r, s, v first and
    returns that result when its [v] is 27 or 28; otherwise it parses
    them as v, r, s, adding 27 to a first byte below 27, and returns
    that result when its [v] is 27 or 28. *)
Theorem parseSignatureHex_layouts (signature : string) :
  (forall rsv : ECSignature.t,
      _parseSignatureHexAsRSV signature = Returns rsv ->
      ECSignature.v rsv = 27 \/ ECSignature.v rsv = 28 ->
      parseSignatureHex signature = Returns rsv)
  /\ (forall rsv vrs : ECSignature.t,
      _parseSignatureHexAsRSV signature = Returns rsv ->
      ~ (ECSignature.v rsv = 27 \/ ECSignature.v rsv = 28) ->
      _parseSignatureHexAsVRS signature = Some vrs ->
      ECSignature.v vrs = 27 \/ ECSignature.v vrs = 28 ->
      parseSignatureHex signature = Returns vrs)
  /\ (forall (rb sb : Buffer) (vb : Byte.byte),
      toBuffer signature = rb ++ sb ++ [vb] ->
      List.length rb = 32%nat -> List.length sb = 32%nat ->
      _parseSignatureHexAsRSV signature
      = Returns {| ECSignature.v := addRecoveryOffset (byteValue vb);
                   ECSignature.r := bufferToHex rb;
                   ECSignature.s := bufferToHex sb |})
  /\ (forall (vb : Byte.byte) (rb sb : Buffer),
      toBuffer signature = [vb] ++ rb ++ sb ->
      List.length rb = 32%nat -> List.length sb = 32%nat ->
      _parseSignatureHexAsVRS signature
      = Some {| ECSignature.v :=
                  if byteValue vb <? 27 then byteValue vb + 27 else byteValue vb;
                ECSignature.r := bufferToHex rb;
                ECSignature.s := bufferToHex sb |}).
Proof.
  repeat split.
  - intros rsv Hrsv Hv. unfold parseSignatureHex. rewrite Hrsv.
    apply includes_valid in Hv. rewrite Hv. reflexivity.
  - intros rsv vrs Hrsv Hv Hvrs Hv'. unfold parseSignatureHex.
    rewrite Hrsv, Hvrs.
    apply includes_invalid in Hv. apply includes_valid in Hv'.
    rewrite Hv, Hv'. reflexivity.
  - intros rb sb vb. apply parse_RSV_layout.
  - intros vb rb sb. apply parse_VRS_layout.
Qed.

Lemma parseSignatureHex_layouts_witness :
  parseSignatureHex (signatureVRS Byte.xaa Byte.x22 Byte.x01)
  = Returns {| ECSignature.v := 28;
               ECSignature.r := bufferToHex (repeat Byte.xaa 32);
               ECSignature.s := bufferToHex (repeat Byte.x22 32) |}.
Proof.
  pose proof (parseSignatureHex_layouts
                (signatureVRS Byte.xaa Byte.x22 Byte.x01)) as (_ & Hsecond & _ & Hvrs).
  apply (Hsecond
           {| ECSignature.v := 34;
              ECSignature.r := bufferToHex (repeat Byte.x01 1 ++ repeat Byte.xaa 31);
              ECSignature.s := bufferToHex (repeat Byte.xaa 1 ++ repeat Byte.x22 31) |}).
  - vm_compute. reflexivity.
  - simpl. lia.
  - rewrite (Hvrs Byte.x01 (repeat Byte.xaa 32) (repeat Byte.x22 32)).
    + reflexivity.
    + unfold signatureVRS. apply toBuffer_bufferToHex.
    + reflexivity.
    + reflexivity.
  - simpl. lia.
Defined.

(** C5. On a 65-byte signature [parseSignatureHex] throws "Invalid
    signature" exactly when neither the r, s, v candidate nor the v, r, s
    candidate has a [v] of 27 or 28; it returns a signature exactly when
    one of them has, and a returned signature has such a [v]. The
    function is an ordinary one: its outcome is the value returned or
    the error thrown by the call itself. *)
Theorem parseSignatureHex_invalid (signature : string) :
  List.length (toBuffer signature) = 65%nat ->
  exists rsv vrs : ECSignature.t,
    _parseSignatureHexAsRSV signature = Returns rsv
    /\ _parseSignatureHexAsVRS signature = Some vrs
    /\ (parseSignatureHex signature = Throws "Invalid signature" <->
        ~ (ECSignature.v rsv = 27 \/ ECSignature.v rsv = 28)
        /\ ~ (ECSignature.v vrs = 27 \/ ECSignature.v vrs = 28))
    /\ ((exists sig, parseSignatureHex signature = Returns sig) <->
        (ECSignature.v rsv = 27 \/ ECSignature.v rsv = 28)
        \/ (ECSignature.v vrs = 27 \/ ECSignature.v vrs = 28))
    /\ (forall sig, parseSignatureHex signature = Returns sig ->
        ECSignature.v sig = 27 \/ ECSignature.v sig = 28)
    /\ (forall message, parseSignatureHex signature = Throws message ->
        message = "Invalid signature"%string).
Proof.
  intros Hlen.
  destruct (parse_candidates signature Hlen) as (rsv & vrs & Hrsv & Hvrs).
  exists rsv, vrs. split; [exact Hrsv|]. split; [exact Hvrs|].
  unfold parseSignatureHex. rewrite Hrsv, Hvrs.
  destruct (includes validVParamValues (ECSignature.v rsv)) eqn:E1;
    [apply includes_valid in E1 | apply includes_invalid in E1];
    [| destruct (includes validVParamValues (ECSignature.v vrs)) eqn:E2;
       [apply includes_valid in E2 | apply includes_invalid in E2]].
  - split; [|split; [|split]].
    + split; [discriminate | tauto].
    + split; [intros _; left; exact E1 | intros _; eexists; reflexivity].
    + intros sig [= <-]. exact E1.
    + intros message. discriminate.
  - split; [|split; [|split]].
    + split; [discriminate | tauto].
    + split; [intros _; right; exact E2 | intros _; eexists; reflexivity].
    + intros sig [= <-]. exact E2.
    + intros message. discriminate.
  - split; [|split; [|split]].
    + split; [intros _; split; assumption | reflexivity].
    + split; [intros [sig Hsig]; discriminate | tauto].
    + intros sig. discriminate.
    + intros message [= <-]. reflexivity.
Qed.

Lemma parseSignatureHex_invalid_witness :
  List.length (toBuffer (signatureRSV Byte.x11 Byte.x22 Byte.x1d)) = 65%nat
  /\ parseSignatureHex (signatureRSV Byte.x11 Byte.x22 Byte.x1d)
     = Throws "Invalid signature".
Proof.
  split; [reflexivity|].
  destruct (parseSignatureHex_invalid
              (signatureRSV Byte.x11 Byte.x22 Byte.x1d) eq_refl)
    as (rsv & vrs & Hrsv & Hvrs & Hthrows & _).
  apply Hthrows.
  vm_compute in Hrsv. vm_compute in Hvrs.
  injection Hrsv as <-. injection Hvrs as <-.
  simpl. lia.
Defined.

(* ===================================================================== *)
(** * Properties of [findAsset] *)
(* ===================================================================== *)

Lemma lowerAscii_idempotent (c : ascii) : lowerAscii (lowerAscii c) = lowerAscii c.
Proof.
  destruct c as [[] [] [] [] [] [] [] []]; reflexivity.
Qed.

Lemma toLowerCase_idempotent (str : string) :
  toLowerCase (toLowerCase str) = toLowerCase str.
Proof.
  induction str as [|c rest IH]; [reflexivity|].
  simpl. rewrite lowerAscii_idempotent, IH. reflexivity.
Qed.

Example findAsset_checksummed_account :
  findAsset (ownerOfOnly "0xAbCdEf0000000000000000000000000000000001")
            "0xaBcDeF0000000000000000000000000000000001"
            (Some "0x00000000000000000000000000000000000000b2"%string)
  = "account"%string.
Proof. vm_compute. reflexivity. Qed.

Example findAsset_empty_answer :
  findAsset (ownerOfOnly "0x")
            "0xabcdef0000000000000000000000000000000001"
            (Some "0x00000000000000000000000000000000000000b2"%string)
  = "unknown"%string.
Proof. vm_compute. reflexivity. Qed.

(** C9, as amended. When the schema has an owner-of query and it yields
    an owner, the owner is lowercased and the answer is 'proxy' when a
    proxy address is given and the owner equals it, 'account' when it
    equals the account address (both compared in lowercase), 'unknown'
    when the owner is the empty hex string '0x', and 'other' otherwise,
    whatever a count-of query says. *)
Theorem findAsset_owner_classes
    (functions : SchemaFunctions) (q : OwnerOfQuery)
    (account : string) (proxy : option string) :
  ownerOf functions = Some q ->
  ownerOf_inputsDefined q = true ->
  let owner := toLowerCase (ownerOf_result q) in
  findAsset functions account proxy =
    if truthy proxy && String.eqb owner (toLowerCase (default "" proxy))
    then "proxy"%string
    else if String.eqb owner (toLowerCase account) then "account"%string
    else if String.eqb owner "0x" then "unknown"%string
    else "other"%string.
Proof.
  intros Hq Hdef owner. unfold findAsset. rewrite Hq, Hdef.
  fold owner. unfold owner. rewrite toLowerCase_idempotent. reflexivity.
Qed.

Lemma findAsset_owner_classes_witness :
  findAsset (ownerOfOnly ZERO_ADDRESS)
            "0xabcdef0000000000000000000000000000000001"
            (Some "0x00000000000000000000000000000000000000b2"%string)
  = "other"%string.
Proof.
  rewrite (findAsset_owner_classes (ownerOfOnly ZERO_ADDRESS)
             {| ownerOf_inputsDefined := true; ownerOf_result := ZERO_ADDRESS |}
             _ _ eq_refl eq_refl).
  vm_compute. reflexivity.
Defined.

(** C9 as it is worded fails: an owner that is the zero address, held by
    neither the account nor its proxy, is classified 'other', not
    'unknown'. *)
Lemma findAsset_zero_address_is_other :
  ~ (forall (functions : SchemaFunctions) (q : OwnerOfQuery)
            (account : string) (proxy : option string),
        ownerOf functions = Some q ->
        ownerOf_inputsDefined q = true ->
        let owner := toLowerCase (ownerOf_result q) in
        findAsset functions account proxy =
          if truthy proxy && String.eqb owner (toLowerCase (default "" proxy))
          then "proxy"%string
          else if String.eqb owner (toLowerCase account) then "account"%string
          else if String.eqb owner ZERO_ADDRESS then "unknown"%string
          else "other"%string).
Proof.
  intros H.
  specialize (H (ownerOfOnly ZERO_ADDRESS)
                {| ownerOf_inputsDefined := true; ownerOf_result := ZERO_ADDRESS |}
                "0xabcdef0000000000000000000000000000000001"%string
                (Some "0x00000000000000000000000000000000000000b2"%string)
                eq_refl eq_refl).
  vm_compute in H. discriminate H.
Qed.

(* ===================================================================== *)
(** * Properties of reading and printing numbers *)
(* ===================================================================== *)

Example toString_default_config :
  BigNumber_toString (-7) 21 (BN.mk 1500 3) = "1.5"%string
  /\ BigNumber_toString (-7) 21 (BNFinite (-12345) 2) = "-123.45"%string
  /\ BigNumber_toString (-7) 21 (BNFinite 5 3) = "0.005"%string
  /\ BigNumber_toString (-7) 21 (BNFinite 1 7) = "1e-7"%string
  /\ BigNumber_toString (-7) 21 (BNFinite 0 0) = "0"%string
  /\ BigNumber_toString (-7) 21 (BN.of_Z (12 * 10 ^ 20)) = "1.2e+21"%string
  /\ BigNumber_toString (-1000) 1000 (BN.of_Z (12 * 10 ^ 20))
     = "1200000000000000000000"%string.
Proof. vm_compute. repeat split; reflexivity. Qed.

Example BigNumber_new_examples :
  BigNumber_new notANumber "1000000000000000000" = Returns (BNFinite (10 ^ 18) 0)
  /\ BigNumber_new notANumber "007" = Returns (BNFinite 7 0)
  /\ BigNumber_new notANumber "-12.50" = Returns (BNFinite (-125) 1)
  /\ BigNumber_new notANumber ".5" = Returns (BNFinite 5 1)
  /\ BigNumber_new notANumber "" = Throws "new BigNumber() not a number: "
  /\ BigNumber_new notANumber "1.2.3" = Throws "new BigNumber() not a number: 1.2.3".
Proof. vm_compute. repeat split; reflexivity. Qed.

Lemma digits_all_digits (d : Decimal.uint) :
  string_forallb isDigit (NilEmpty.string_of_uint d) = true.
Proof. induction d; simpl; auto. Qed.

Lemma digitsOf_NilEmpty (n : N) :
  digitsOf n = NilEmpty.string_of_uint (N.to_uint n).
Proof.
  unfold digitsOf, NilZero.string_of_uint.
  destruct (N.to_uint n) eqn:E; try reflexivity.
  destruct n as [|p]; [discriminate|].
  exfalso. exact (DecimalPos.Unsigned.to_uint_nonnil p E).
Qed.

Lemma digitsOf_nonempty (n : N) : digitsOf n <> EmptyString.
Proof.
  unfold digitsOf, NilZero.string_of_uint.
  destruct (N.to_uint n) eqn:E; simpl; discriminate.
Qed.

Lemma digitsOf_all_digits (n : N) : string_forallb isDigit (digitsOf n) = true.
Proof. rewrite digitsOf_NilEmpty. apply digits_all_digits. Qed.

Lemma digitsValue_digitsOf (n : N) : digitsValue (digitsOf n) = Some n.
Proof.
  unfold digitsValue. rewrite digitsOf_NilEmpty, NilEmpty.usu.
  f_equal. apply DecimalN.Unsigned.of_to.
Qed.

Lemma splitAtDot_digits (str : string) :
  string_forallb isDigit str = true -> splitAtDot str = (str, None).
Proof.
  induction str as [|c rest IH]; [reflexivity|].
  simpl. intros H. apply andb_true_iff in H as [Hc Hrest].
  rewrite (IH Hrest).
  destruct (Ascii.eqb_spec c "."); [subst c; discriminate Hc | reflexivity].
Qed.

Lemma string_app_empty (str : string) : (str ++ "")%string = str.
Proof.
  induction str as [|c rest IH]; [reflexivity|].
  change (String c (rest ++ "")%string = String c rest). f_equal. exact IH.
Qed.

(** Reading the decimal notation of a natural number gives that number,
    with no decimals. *)
Lemma parseDecimal_digitsOf (n : N) :
  parseDecimal (digitsOf n) = Some (Z.of_N n, O).
Proof.
  unfold parseDecimal.
  pose proof (digitsOf_all_digits n) as Hd.
  pose proof (digitsOf_nonempty n) as Hne.
  pose proof (digitsValue_digitsOf n) as Hv.
  destruct (digitsOf n) as [|c rest] eqn:E; [congruence|].
  assert (Hminus : c <> "-"%char).
  { intros ->. simpl in Hd. discriminate Hd. }
  replace (match String c rest with
           | String "-"%char r => (true, r)
           | _ => (false, String c rest)
           end) with (false, String c rest).
  2:{ destruct c as [[] [] [] [] [] [] [] []]; try reflexivity.
      exfalso. apply Hminus. reflexivity. }
  rewrite (splitAtDot_digits _ Hd). cbv beta iota zeta. cbn [default].
  rewrite string_app_empty. cbn [String.eqb]. rewrite Hv. reflexivity.
Qed.

Lemma isDecimalString_digitsOf (str : string) :
  isDecimalString str = true -> exists n : N, str = digitsOf n.
Proof.
  unfold isDecimalString. destruct (digitsValue str) as [n|]; [|discriminate].
  intros H. exists n. apply String.eqb_eq. exact H.
Qed.

Lemma digitsOf_length_pos (n : N) : (0 < String.length (digitsOf n))%nat.
Proof.
  pose proof (digitsOf_nonempty n). destruct (digitsOf n); [congruence|].
  simpl. lia.
Qed.

(** Printing a natural number that is short enough gives its decimal
    notation. *)
Lemma toString_natural (TO_EXP_NEG TO_EXP_POS : Z) (n : N) :
  TO_EXP_NEG < 0 ->
  Z.of_nat (String.length (digitsOf n)) <= TO_EXP_POS ->
  BigNumber_toString TO_EXP_NEG TO_EXP_POS (BNFinite (Z.of_N n) 0) = digitsOf n.
Proof.
  intros Hneg Hpos. unfold BigNumber_toString. cbn [BN.strip].
  rewrite Zabs2N.id.
  pose proof (digitsOf_length_pos n) as Hlen.
  replace (Z.of_N n <? 0) with false by (symmetry; apply Z.ltb_ge; lia).
  replace (Z.of_nat (String.length (digitsOf n)) - 1 - Z.of_nat 0 <=? TO_EXP_NEG)
    with false by (symmetry; apply Z.leb_gt; lia).
  replace (TO_EXP_POS <=? Z.of_nat (String.length (digitsOf n)) - 1 - Z.of_nat 0)
    with false by (symmetry; apply Z.leb_gt; lia).
  reflexivity.
Qed.

(** A well-formed numeric field is read without an error, and printing
    what was read gives the field back. *)
Lemma numeric_round_trip (otherNotation : string -> Outcome BigNumber)
    (TO_EXP_NEG TO_EXP_POS : Z) (field : string) :
  TO_EXP_NEG < 0 ->
  isDecimalString field && (Z.of_nat (String.length field) <=? TO_EXP_POS) = true ->
  exists x : BigNumber,
    BigNumber_new otherNotation field = Returns x
    /\ BN.isInteger x = true
    /\ BigNumber_toString TO_EXP_NEG TO_EXP_POS x = field.
Proof.
  intros Hneg H. apply andb_true_iff in H as [Hwf Hlen].
  apply Z.leb_le in Hlen.
  destruct (isDecimalString_digitsOf field Hwf) as [n ->].
  exists (BNFinite (Z.of_N n) 0). unfold BigNumber_new.
  rewrite parseDecimal_digitsOf. split; [reflexivity|]. split; [reflexivity|].
  apply toString_natural; assumption.
Qed.

(* ===================================================================== *)
(** * Properties of the order adapters *)
(* ===================================================================== *)

Example exampleWireOrder_well_formed :
  wellFormedWireOrder 1000 exampleWireOrder = true
  /\ wellFormedWireOrder 21 exampleWireOrder = false.
Proof. vm_compute. split; reflexivity. Qed.

(** Under the library's first setting the 40-digit salt is printed in
    exponential notation; under a wide one it is printed as it came. *)
Example exampleWireOrder_salt :
  (exists fromJSON,
      orderFromJSON notANumber exampleWireOrder 1541000000000 = Returns fromJSON
      /\ OrderJSON.salt (orderToJSON (-7) 21 (fun _ => "0x") fromJSON)
         = "8.37465291038475629103847562910384756291e+39"%string
      /\ OrderJSON.salt (orderToJSON (-1000) 1000 (fun _ => "0x") fromJSON)
         = "8374652910384756291038475629103847562910"%string).
Proof. eexists. vm_compute. repeat split; reflexivity. Qed.

(** C8. For a well-formed current-schema wire order, [orderFromJSON]
    followed by [orderToJSON] gives back every numeric field as its
    decimal string and every address field in lowercase; the hash, which
    the protocol library computes, and the derived current price are
    left aside. *)
Theorem orderFromJSON_orderToJSON_round_trip
    (otherNotation : string -> Outcome BigNumber)
    (TO_EXP_NEG TO_EXP_POS : Z) (getOrderHashHex : OrderJSON.t -> string)
    (order : WireOrder.t) (nowMs : Z) :
  TO_EXP_NEG < 0 ->
  wellFormedWireOrder TO_EXP_POS order = true ->
  exists fromJSON : Order.t,
    orderFromJSON otherNotation order nowMs = Returns fromJSON
    /\ let asJSON := orderToJSON TO_EXP_NEG TO_EXP_POS getOrderHashHex fromJSON in
       OrderJSON.makerRelayerFee asJSON
         = WireOrder.maker_relayer_fee order
       /\ OrderJSON.takerRelayerFee asJSON
         = WireOrder.taker_relayer_fee order
       /\ OrderJSON.makerProtocolFee asJSON
         = WireOrder.maker_protocol_fee order
       /\ OrderJSON.takerProtocolFee asJSON
         = WireOrder.taker_protocol_fee order
       /\ OrderJSON.basePrice asJSON = WireOrder.base_price order
       /\ OrderJSON.extra asJSON = WireOrder.extra order
       /\ OrderJSON.listingTime asJSON
         = WireOrder.listing_time order
       /\ OrderJSON.expirationTime asJSON
         = WireOrder.expiration_time order
       /\ OrderJSON.salt asJSON = WireOrder.salt order
       /\ OrderJSON.exchange asJSON = toLowerCase (WireOrder.exchange order)
       /\ OrderJSON.maker asJSON
         = toLowerCase (Account.address (WireOrder.maker order))
       /\ OrderJSON.taker asJSON
         = toLowerCase (Account.address (WireOrder.taker order))
       /\ OrderJSON.feeRecipient asJSON
         = toLowerCase (Account.address (WireOrder.fee_recipient order))
       /\ OrderJSON.target asJSON = toLowerCase (WireOrder.target order)
       /\ OrderJSON.staticTarget asJSON
         = toLowerCase (WireOrder.static_target order)
       /\ OrderJSON.paymentToken asJSON
         = toLowerCase (WireOrder.payment_token order).
Proof.
  intros Hneg Hwf. unfold wellFormedWireOrder, numericFields in Hwf.
  cbn [forallb] in Hwf.
  repeat (apply andb_true_iff in Hwf as [?H Hwf]).
  repeat match goal with
  | H : isDecimalString _ && _ = true |- _ =>
      apply (numeric_round_trip otherNotation TO_EXP_NEG TO_EXP_POS _ Hneg) in H;
      destruct H as (? & ?Hnew & _ & ?Hprint)
  end.
  unfold orderFromJSON.
  repeat match goal with
  | H : BigNumber_new _ _ = Returns _ |- _ => rewrite H; clear H
  end.
  cbn [bindOutcome]. eexists. split; [reflexivity|].
  cbv zeta. unfold orderToJSON. cbn.
  repeat split; assumption.
Qed.

Lemma orderFromJSON_orderToJSON_round_trip_witness :
  -1000 < 0
  /\ wellFormedWireOrder 1000 exampleWireOrder = true
  /\ exists fromJSON : Order.t,
       orderFromJSON notANumber exampleWireOrder 1541000000000 = Returns fromJSON
       /\ OrderJSON.salt (orderToJSON (-1000) 1000 (fun _ => "0x"%string) fromJSON)
          = "8374652910384756291038475629103847562910"%string
       /\ OrderJSON.maker (orderToJSON (-1000) 1000 (fun _ => "0x"%string) fromJSON)
          = "0xabcdef0000000000000000000000000000000001"%string.
Proof.
  split; [lia|]. split; [reflexivity|].
  destruct (orderFromJSON_orderToJSON_round_trip notANumber
              (-1000) 1000 (fun _ => "0x"%string) exampleWireOrder 1541000000000
              eq_refl eq_refl)
    as (fromJSON & Hfrom & H).
  exists fromJSON. split; [exact Hfrom|].
  cbv zeta in H.
  destruct H as (_ & _ & _ & _ & _ & _ & _ & _ & Hsalt & _ & Hmaker & _).
  split; [exact Hsalt | exact Hmaker].
Defined.

(** C10. [orderFromJSON] fills both [makerAccount] and [takerAccount]
    with the wire order's maker object: the wire taker object is read
    for its address only. The flat [maker] and [taker] are the addresses
    of the wire maker and of the wire taker. *)
Theorem orderFromJSON_accounts
    (otherNotation : string -> Outcome BigNumber)
    (order : WireOrder.t) (nowMs : Z) (fromJSON : Order.t) :
  orderFromJSON otherNotation order nowMs = Returns fromJSON ->
  Order.makerAccount fromJSON = Some (WireOrder.maker order)
  /\ Order.takerAccount fromJSON = Some (WireOrder.maker order)
  /\ Order.maker fromJSON = Account.address (WireOrder.maker order)
  /\ Order.taker fromJSON = Account.address (WireOrder.taker order).
Proof.
  unfold orderFromJSON. intros H.
  repeat match type of H with
  | bindOutcome ?m _ = _ => destruct m; cbn [bindOutcome] in H; [|discriminate H]
  end.
  injection H as <-. repeat split.
Qed.

Lemma orderFromJSON_accounts_witness :
  exists fromJSON : Order.t,
    orderFromJSON notANumber exampleWireOrder 1541000000000 = Returns fromJSON
    /\ Order.takerAccount fromJSON
       = Some {| Account.address := "0xAbCdEf0000000000000000000000000000000001";
                 Account.rest := [("user"%string, JNull)] |}
    /\ Order.taker fromJSON = "0x0000000000000000000000000000000000000000"%string.
Proof.
  eexists. split; [vm_compute; reflexivity|].
  match goal with
  | |- Order.takerAccount ?o = _ /\ _ =>
      pose proof (orderFromJSON_accounts notANumber exampleWireOrder
                    1541000000000 o) as H
  end.
  specialize (H ltac:(vm_compute; reflexivity)).
  destruct H as (_ & Htaker & _ & Haddr).
  split; [exact Htaker | exact Haddr].
Defined.

(* ===================================================================== *)
(** * Properties of the confirmation tracker *)
(* ===================================================================== *)

Example parseInt_examples :
  parseInt "0x1" = Some 1 /\ parseInt "1" = Some 1 /\ parseInt "0x0" = Some 0
  /\ parseInt " 12px" = Some 12 /\ parseInt "-7" = Some (-7)
  /\ parseInt "true" = None /\ parseInt "" = None /\ parseInt "0x" = None.
Proof. vm_compute. repeat split; reflexivity. Qed.

Example statusIsOne_examples :
  statusIsOne {| status := StatusString "0x1" |} = true
  /\ statusIsOne {| status := StatusNumber 1 |} = true
  /\ statusIsOne {| status := StatusString "0x0" |} = false
  /\ statusIsOne {| status := StatusNumber 0 |} = false
  /\ statusIsOne {| status := StatusMissing |} = false.
Proof. vm_compute. repeat split; reflexivity. Qed.

(** Two waiters for one hash: one loop, both promises settled by its
    single notification. *)
Example two_waiters_one_loop :
  let w := run [Confirm "0xaa"; Poll "0xaa" notMined; Confirm "0xaa";
                Poll "0xaa" notMined;
                Poll "0xaa" (mined (Some {| status := StatusString "0x1" |}))]
               initialWorld in
  promises w = [Resolved "Transaction complete"; Resolved "Transaction complete"]
  /\ calls w = [(SettlePromise 0, true); (SettlePromise 1, true)]
  /\ pollers w = []
  /\ txCallbacks w !! "0xaa"%string = None.
Proof. vm_compute. repeat split; reflexivity. Qed.

Example failed_transaction :
  awaitConfirmation "0xaa"
    (fun i => if (i <? 3)%nat then notMined
              else mined (Some {| status := StatusString "0x0" |}))
    10 initialWorld
  = Some (Rejected "Transaction failed").
Proof. vm_compute. reflexivity. Qed.

(** ** The notification pass *)

Lemma notify_txCallbacks (status : bool) (fs : list TxnCallback) (w : World) :
  txCallbacks (fold_left (invoke status) fs w) = txCallbacks w.
Proof. revert w. induction fs as [|f fs IH]; intros w; [reflexivity|]. simpl. now rewrite IH. Qed.

Lemma notify_pollers (status : bool) (fs : list TxnCallback) (w : World) :
  pollers (fold_left (invoke status) fs w) = pollers w.
Proof. revert w. induction fs as [|f fs IH]; intros w; [reflexivity|]. simpl. now rewrite IH. Qed.

(** Every callback of the list is called once, in the order of the
    list, with the one status. *)
Lemma notify_calls (status : bool) (fs : list TxnCallback) (w : World) :
  calls (fold_left (invoke status) fs w)
  = calls w ++ map (fun f => (f, status)) fs.
Proof.
  revert w. induction fs as [|f fs IH]; intros w.
  - simpl. now rewrite app_nil_r.
  - simpl. rewrite IH. simpl. now rewrite <- app_assoc.
Qed.

(** ** The poll loops alive *)

Lemma stopPoller_subset (h x : string) (loops : list string) :
  x ∈ stopPoller h loops -> x ∈ loops.
Proof.
  induction loops as [|a rest IH]; simpl; [easy|].
  destruct (String.eqb_spec a h).
  - intros Hx. now apply elem_of_cons; right.
  - intros Hx. apply elem_of_cons in Hx as [->|Hx].
    + apply elem_of_cons. now left.
    + apply elem_of_cons. right. now apply IH.
Qed.

Lemma stopPoller_NoDup (h : string) (loops : list string) :
  NoDup loops -> NoDup (stopPoller h loops).
Proof.
  induction loops as [|a rest IH]; simpl; [easy|].
  intros Hnd. apply NoDup_cons in Hnd as [Ha Hrest].
  destruct (String.eqb_spec a h); [exact Hrest|].
  apply NoDup_cons. split; [|now apply IH].
  intros Hin. apply Ha. now apply (stopPoller_subset h).
Qed.

Lemma stopPoller_gone (h : string) (loops : list string) :
  NoDup loops -> h ∉ stopPoller h loops.
Proof.
  induction loops as [|a rest IH]; simpl.
  - intros _ Hin. now apply elem_of_nil in Hin.
  - intros Hnd. apply NoDup_cons in Hnd as [Ha Hrest].
    destruct (String.eqb_spec a h) as [->|Hne]; [exact Ha|].
    intros Hin. apply elem_of_cons in Hin as [Heq|Hin]; [congruence|].
    now apply IH.
Qed.

Lemma hasPoller_elem_of (h : string) (w : World) :
  hasPoller h w = true <-> h ∈ pollers w.
Proof.
  unfold hasPoller. rewrite existsb_exists. split.
  - intros (x & Hin & Heq). apply String.eqb_eq in Heq. subst x.
    now apply list_elem_of_In.
  - intros Hin. exists h. split; [now apply list_elem_of_In | apply String.eqb_refl].
Qed.

Lemma track_invariant (h : string) (f : TxnCallback) (w : World) :
  trackerInvariant w -> trackerInvariant (track h f w).
Proof.
  intros [Hnd Hreg]. unfold track.
  destruct (txCallbacks w !! h) as [fs|] eqn:E; split; simpl.
  - exact Hnd.
  - intros h' Hin. destruct (decide (h = h')) as [<-|Hne].
    + rewrite lookup_insert_eq. eauto.
    + rewrite lookup_insert_ne by exact Hne. now apply Hreg.
  - apply NoDup_app. split; [exact Hnd|]. split; [|apply NoDup_singleton].
    intros x Hx Hx'. apply list_elem_of_singleton in Hx'. subst x.
    destruct (Hreg h Hx) as [fs Hfs]. congruence.
  - intros h' Hin. destruct (decide (h = h')) as [<-|Hne].
    + rewrite lookup_insert_eq. eauto.
    + rewrite lookup_insert_ne by exact Hne. apply Hreg.
      apply elem_of_app in Hin as [Hin|Hin]; [exact Hin|].
      apply list_elem_of_singleton in Hin. congruence.
Qed.

Lemma poll_invariant (h : string) (obs : Observation) (w : World) :
  trackerInvariant w ->
  trackerInvariant
    (let '(w', again) := poll h obs w in if again then w' else endLoop h w').
Proof.
  intros [Hnd Hreg]. unfold poll.
  assert (Hend : trackerInvariant (endLoop h w)).
  { split; simpl; [now apply stopPoller_NoDup|].
    intros h' Hin. apply Hreg. now apply (stopPoller_subset h). }
  destruct (getTransaction obs) as [tx|err]; [|exact Hend].
  destruct (inBlock tx); [|split; assumption].
  destruct (getTransactionReceipt obs) as [receipt|err]; [|exact Hend].
  destruct (txCallbacks w !! h) as [fs|] eqn:E; [|exact Hend].
  split; simpl; rewrite notify_pollers.
  - now apply stopPoller_NoDup.
  - intros h' Hin. rewrite notify_txCallbacks.
    assert (h' <> h) as Hne.
    { intros ->. now apply (stopPoller_gone h (pollers w) Hnd). }
    rewrite lookup_delete_ne by congruence.
    apply Hreg. now apply (stopPoller_subset h).
Qed.

Lemma step_invariant (w : World) (ev : Event) :
  trackerInvariant w -> trackerInvariant (step w ev).
Proof.
  intros Hinv. destruct ev as [h|h f|h obs]; simpl.
  - apply track_invariant. exact Hinv.
  - apply track_invariant. exact Hinv.
  - destruct (hasPoller h w); [|exact Hinv].
    now apply poll_invariant.
Qed.

Lemma run_invariant (events : list Event) (w : World) :
  trackerInvariant w -> trackerInvariant (run events w).
Proof.
  revert w. induction events as [|ev events IH]; intros w Hinv; [exact Hinv|].
  simpl. apply IH. now apply step_invariant.
Qed.

Lemma initialWorld_invariant : trackerInvariant initialWorld.
Proof.
  split; simpl; [apply NoDup_nil_2|].
  intros h Hin. now apply elem_of_nil in Hin.
Qed.

Lemma track_tracked (h : string) (f : TxnCallback) (fs : list TxnCallback)
    (w : World) :
  txCallbacks w !! h = Some fs ->
  track h f w
  = {| txCallbacks := <[h := fs ++ [f]]> (txCallbacks w);
       promises := promises w;
       pollers := pollers w;
       calls := calls w |}.
Proof. intros H. unfold track. now rewrite H. Qed.

Lemma track_untracked (h : string) (f : TxnCallback) (w : World) :
  txCallbacks w !! h = None ->
  track h f w
  = {| txCallbacks := <[h := [f]]> (txCallbacks w);
       promises := promises w;
       pollers := pollers w ++ [h];
       calls := calls w |}.
Proof. intros H. unfold track. now rewrite H. Qed.

(** Callbacks registered one after another for a tracked hash are
    appended in the order they come, and no loop is started. *)
Lemma track_fold (h : string) (fs done : list TxnCallback) (w : World) :
  txCallbacks w !! h = Some done ->
  let w' := fold_left (fun w f => track h f w) fs w in
  txCallbacks w' !! h = Some (done ++ fs)
  /\ pollers w' = pollers w
  /\ promises w' = promises w
  /\ calls w' = calls w.
Proof.
  revert done w. induction fs as [|f fs IH]; intros done w Hreg; cbv zeta.
  - simpl. now rewrite app_nil_r.
  - cbn [fold_left].
    specialize (IH (done ++ [f]) (track h f w)).
    rewrite (track_tracked h f done w Hreg) in *. simpl in IH.
    rewrite lookup_insert_eq in IH. specialize (IH eq_refl).
    rewrite <- app_assoc in IH. exact IH.
Qed.

(** The terminal run of [poll]: the callbacks of the hash are called,
    and the entry of the hash is deleted. *)
Lemma poll_notifies (h : string) (obs : Observation) (w : World)
    (fs : list TxnCallback) (receipt : option TransactionReceipt) :
  txCallbacks w !! h = Some fs ->
  fetchedReceipt obs = Some receipt ->
  poll h obs w
  = (let w1 := fold_left (invoke (succeeded receipt)) fs w in
     {| txCallbacks := delete h (txCallbacks w1);
        promises := promises w1;
        pollers := pollers w1;
        calls := calls w1 |}, false).
Proof.
  intros Hreg Hobs. unfold poll, fetchedReceipt in *.
  destruct (getTransaction obs) as [tx|]; [|discriminate].
  destruct (inBlock tx); [|discriminate].
  destruct (getTransactionReceipt obs) as [r|]; [|discriminate].
  injection Hobs as ->. rewrite Hreg. reflexivity.
Qed.

Lemma poll_waiting (h : string) (obs : Observation) (w : World) :
  isWaiting obs = true -> poll h obs w = (w, true).
Proof.
  unfold isWaiting, poll. destruct (getTransaction obs) as [tx|]; [|discriminate].
  destruct (inBlock tx); [discriminate | reflexivity].
Qed.

(** C7. For every transaction hash the tracker keeps one poll loop at
    most. Registering a callback for a hash that is tracked appends the
    callback to the list of the hash and starts no loop; registering
    for a hash that is not tracked makes a one-element list and starts
    one; so the list of a hash holds its callbacks in the order of
    registration. When the loop finds the transaction in a block, every
    callback registered for the hash is called once, in that order, with
    one and the same status, and the entry of the hash is removed. *)
Theorem tracker_single_poller_and_notification :
  (forall (events : list Event),
      let w := run events initialWorld in
      NoDup (pollers w)
      /\ forall h : string, h ∈ pollers w -> is_Some (txCallbacks w !! h))
  /\ (forall (w : World) (h : string) (f : TxnCallback) (fs : list TxnCallback),
      txCallbacks w !! h = Some fs ->
      txCallbacks (track h f w) = <[h := fs ++ [f]]> (txCallbacks w)
      /\ pollers (track h f w) = pollers w
      /\ calls (track h f w) = calls w)
  /\ (forall (w : World) (h : string) (f : TxnCallback),
      txCallbacks w !! h = None ->
      txCallbacks (track h f w) = <[h := [f]]> (txCallbacks w)
      /\ pollers (track h f w) = pollers w ++ [h]
      /\ calls (track h f w) = calls w)
  /\ (forall (w : World) (h : string) (f : TxnCallback) (fs : list TxnCallback),
      txCallbacks w !! h = None ->
      let registered := fold_left (fun w f => track h f w) (f :: fs) w in
      txCallbacks registered !! h = Some (f :: fs)
      /\ pollers registered = pollers w ++ [h]
      /\ calls registered = calls w)
  /\ (forall (w : World) (h : string) (fs : list TxnCallback)
             (obs : Observation) (receipt : option TransactionReceipt),
      txCallbacks w !! h = Some fs ->
      hasPoller h w = true ->
      fetchedReceipt obs = Some receipt ->
      let notified := step w (Poll h obs) in
      calls notified = calls w ++ map (fun f => (f, succeeded receipt)) fs
      /\ txCallbacks notified = delete h (txCallbacks w)
      /\ pollers notified = stopPoller h (pollers w)).
Proof.
  split; [|split; [|split; [|split]]].
  - intros events. apply run_invariant, initialWorld_invariant.
  - intros w h f fs H. rewrite (track_tracked h f fs w H). auto.
  - intros w h f H. rewrite (track_untracked h f w H). auto.
  - intros w h f fs Hnone. cbv zeta. cbn [fold_left].
    pose proof (track_fold h fs [f] (track h f w)) as Hfold.
    rewrite (track_untracked h f w Hnone) in *. simpl in Hfold.
    rewrite lookup_insert_eq in Hfold.
    destruct (Hfold eq_refl) as (Hreg & Hloops & _ & Hcalls). auto.
  - intros w h fs obs receipt Hreg Hhas Hobs. cbv zeta. unfold step.
    rewrite Hhas, (poll_notifies h obs w fs receipt Hreg Hobs).
    cbv zeta. unfold endLoop. cbn [calls txCallbacks pollers promises].
    rewrite notify_calls, notify_txCallbacks, notify_pollers. auto.
Qed.

Lemma tracker_single_poller_and_notification_witness :
  let registered :=
    fold_left (fun w f => track "0xaa" f w) [Listener 1; Listener 2]
              initialWorld in
  let notified :=
    step registered
         (Poll "0xaa" (mined (Some {| status := StatusString "0x0" |}))) in
  txCallbacks initialWorld !! "0xaa"%string = None
  /\ txCallbacks registered !! "0xaa"%string = Some [Listener 1; Listener 2]
  /\ hasPoller "0xaa" registered = true
  /\ calls notified = [(Listener 1, false); (Listener 2, false)]
  /\ txCallbacks notified !! "0xaa"%string = None.
Proof.
  cbv zeta.
  destruct tracker_single_poller_and_notification
    as (_ & _ & _ & Horder & Hnotify).
  destruct (Horder initialWorld "0xaa"%string (Listener 1) [Listener 2] eq_refl)
    as (Hreg & _ & _).
  split; [reflexivity|]. split; [exact Hreg|]. split; [reflexivity|].
  destruct (Hnotify _ "0xaa"%string _
              (mined (Some {| status := StatusString "0x0" |}))
              (Some {| status := StatusString "0x0" |})
              Hreg eq_refl eq_refl) as (Hcalls & Hdel & _).
  split; [exact Hcalls|].
  rewrite Hdel. apply lookup_delete_eq.
Defined.

(** ** Promises *)

Lemma settle_self (p : nat) (outcome : PromiseState) (ps : list PromiseState) :
  ps !! p = Some Pending -> settle p outcome ps !! p = Some outcome.
Proof.
  intros H. unfold settle. rewrite H.
  apply list_lookup_insert_eq. now apply (lookup_lt_Some ps p Pending).
Qed.

Lemma settle_other (p q : nat) (outcome : PromiseState) (ps : list PromiseState) :
  p <> q -> settle q outcome ps !! p = ps !! p.
Proof.
  intros Hne. unfold settle.
  destruct (ps !! q) as [[]|]; try reflexivity.
  apply list_lookup_insert_ne. congruence.
Qed.

Lemma settle_settled (p q : nat) (outcome st : PromiseState)
    (ps : list PromiseState) :
  ps !! p = Some st -> st <> Pending -> settle q outcome ps !! p = Some st.
Proof.
  intros H Hst. destruct (decide (p = q)) as [<-|Hne].
  - unfold settle. rewrite H. destruct st; [congruence | exact H | exact H].
  - rewrite settle_other by exact Hne. exact H.
Qed.

Lemma settlement_not_pending (status : bool) : settlement status <> Pending.
Proof. destruct status; discriminate. Qed.

(** A settled promise stays as it is through any call. *)
Lemma invoke_settled (status : bool) (w : World) (f : TxnCallback)
    (p : nat) (st : PromiseState) :
  promises w !! p = Some st -> st <> Pending ->
  promises (invoke status w f) !! p = Some st.
Proof.
  intros H Hst. destruct f as [q|id]; simpl; [|exact H].
  now apply settle_settled.
Qed.

Lemma notify_settled (status : bool) (fs : list TxnCallback) (w : World)
    (p : nat) (st : PromiseState) :
  promises w !! p = Some st -> st <> Pending ->
  promises (fold_left (invoke status) fs w) !! p = Some st.
Proof.
  revert w. induction fs as [|f fs IH]; intros w H Hst; [exact H|].
  simpl. apply IH; [|exact Hst]. now apply invoke_settled.
Qed.

(** The notification pass settles the pending promise of a registered
    [confirmTransaction] callback with the status of the pass. *)
Lemma notify_pending (status : bool) (fs : list TxnCallback) (w : World) (p : nat) :
  promises w !! p = Some Pending ->
  SettlePromise p ∈ fs ->
  promises (fold_left (invoke status) fs w) !! p = Some (settlement status).
Proof.
  revert w. induction fs as [|f fs IH]; intros w H Hin.
  - now apply elem_of_nil in Hin.
  - simpl. destruct (decide (f = SettlePromise p)) as [->|Hne].
    + apply notify_settled; [|apply settlement_not_pending].
      simpl. now apply settle_self.
    + apply IH.
      * destruct f as [q|id]; simpl; [|exact H].
        rewrite settle_other; [exact H | congruence].
      * apply elem_of_cons in Hin as [Heq|Hin]; [congruence | exact Hin].
Qed.

Lemma track_promises (h : string) (f : TxnCallback) (w : World) :
  promises (track h f w) = promises w.
Proof. unfold track. destruct (txCallbacks w !! h); reflexivity. Qed.

Lemma step_settled (w : World) (ev : Event) (p : nat) (st : PromiseState) :
  promises w !! p = Some st -> st <> Pending ->
  promises (step w ev) !! p = Some st.
Proof.
  intros H Hst. destruct ev as [h|h f|h obs]; simpl.
  - rewrite track_promises. simpl. now apply lookup_app_l_Some.
  - now rewrite track_promises.
  - destruct (hasPoller h w); [|exact H]. unfold poll.
    destruct (getTransaction obs) as [tx|]; [|exact H].
    destruct (inBlock tx); [|exact H].
    destruct (getTransactionReceipt obs) as [receipt|]; [|exact H].
    destruct (txCallbacks w !! h) as [fs|]; [|exact H].
    simpl. now apply notify_settled.
Qed.

Lemma pollLoop_settled (h : string) (chain : nat -> Observation)
    (fuel i : nat) (w : World) (p : nat) (st : PromiseState) :
  promises w !! p = Some st -> st <> Pending ->
  promises (pollLoop h chain i fuel w) !! p = Some st.
Proof.
  revert i w. induction fuel as [|fuel IH]; intros i w H Hst; [exact H|].
  cbn [pollLoop]. destruct (hasPoller h w); [|exact H].
  apply IH; [|exact Hst]. now apply step_settled.
Qed.

(** While the transaction is not in a block the loop changes nothing,
    however long it runs. *)
Lemma pollLoop_waiting (h : string) (chain : nat -> Observation)
    (n i : nat) (w : World) :
  (forall j, (i <= j < i + n)%nat -> isWaiting (chain j) = true) ->
  pollLoop h chain i n w = w.
Proof.
  revert i. induction n as [|n IH]; intros i Hwait; [reflexivity|].
  cbn [pollLoop]. destruct (hasPoller h w) eqn:Hhas; [|reflexivity].
  unfold step. rewrite Hhas.
  rewrite (poll_waiting h (chain i) w) by (apply Hwait; lia).
  apply IH. intros j Hj. apply Hwait. lia.
Qed.

Lemma pollLoop_no_loop (h : string) (chain : nat -> Observation)
    (fuel i : nat) (w : World) :
  hasPoller h w = false -> pollLoop h chain i fuel w = w.
Proof. intros H. destruct fuel; [reflexivity|]. cbn [pollLoop]. now rewrite H. Qed.

Lemma pollLoop_add (h : string) (chain : nat -> Observation)
    (n m i : nat) (w : World) :
  pollLoop h chain i (n + m) w
  = pollLoop h chain (i + n) m (pollLoop h chain i n w).
Proof.
  revert i w. induction n as [|n IH]; intros i w.
  - simpl. now rewrite Nat.add_0_r.
  - cbn [pollLoop Nat.add]. destruct (hasPoller h w) eqn:Hhas.
    + rewrite IH. f_equal. lia.
    + now rewrite pollLoop_no_loop.
Qed.

Lemma confirmTransaction_untracked (h : string) (w : World) :
  txCallbacks w !! h = None ->
  confirmTransaction h w
  = (List.length (promises w),
     {| txCallbacks :=
          <[h := [SettlePromise (List.length (promises w))]]> (txCallbacks w);
        promises := promises w ++ [Pending];
        pollers := pollers w ++ [h];
        calls := calls w |}).
Proof.
  intros H. unfold confirmTransaction. f_equal.
  apply track_untracked. exact H.
Qed.

(** The promise of a fresh [confirmTransaction] through the runs of its
    loop: pending while the transaction is not in a block, settled with
    the status of the receipt from the run that finds it in one. *)
Lemma awaitConfirmation_runs (h : string) (chain : nat -> Observation)
    (w : World) (n : nat) :
  txCallbacks w !! h = None ->
  (forall i, (i < n)%nat -> isWaiting (chain i) = true) ->
  (forall k, (k <= n)%nat -> awaitConfirmation h chain k w = Some Pending)
  /\ (forall receipt k,
        fetchedReceipt (chain n) = Some receipt -> (n < k)%nat ->
        awaitConfirmation h chain k w = Some (settlement (succeeded receipt))).
Proof.
  intros Hnone Hwait. unfold awaitConfirmation.
  rewrite (confirmTransaction_untracked h w Hnone).
  set (p := List.length (promises w)).
  set (w1 := {| txCallbacks := _; promises := _; pollers := _; calls := _ |}).
  assert (Hp : promises w1 !! p = Some Pending).
  { simpl. now apply list_lookup_middle. }
  split.
  - intros k Hk. rewrite pollLoop_waiting; [exact Hp|].
    intros j Hj. apply Hwait. lia.
  - intros receipt k Hobs Hk.
    replace k with (n + S (k - n - 1))%nat by lia.
    rewrite pollLoop_add.
    rewrite (pollLoop_waiting h chain n 0 w1)
      by (intros j Hj; apply Hwait; lia).
    cbn [pollLoop Nat.add].
    assert (Hhas : hasPoller h w1 = true).
    { apply hasPoller_elem_of. simpl. apply elem_of_app. right.
      now apply list_elem_of_singleton. }
    rewrite Hhas. apply pollLoop_settled; [|apply settlement_not_pending].
    unfold step. rewrite Hhas.
    rewrite (poll_notifies h (chain n) w1 [SettlePromise p] receipt);
      [|simpl; apply lookup_insert_eq | exact Hobs].
    cbv zeta. unfold endLoop. cbn [promises].
    apply notify_pending; [exact Hp|]. now apply list_elem_of_singleton.
Qed.





(** ** Reading the status of a receipt *)





















(* ===================================================================== *)
(** * Further properties of the numbers *)
(* ===================================================================== *)

Lemma pow10_add (a b : nat) : BN.pow10 (a + b) = BN.pow10 a * BN.pow10 b.
Proof.
  unfold BN.pow10. rewrite Nat2Z.inj_add. apply Z.pow_add_r; lia.
Qed.

Lemma pow10_S (a : nat) : BN.pow10 (S a) = 10 * BN.pow10 a.
Proof. change (S a) with (1 + a)%nat. rewrite pow10_add. reflexivity. Qed.

Lemma pow10_split (k d : nat) :
  (d <= k)%nat -> BN.pow10 k = BN.pow10 d * BN.pow10 (k - d).
Proof. intros H. rewrite <- pow10_add. f_equal. lia. Qed.

(** Dropping trailing zeros keeps the value. *)
Lemma strip_value (c : Z) (dp : nat) :
  exists (c' : Z) (dp' : nat),
    BN.strip c dp = (c', dp') /\ (dp' <= dp)%nat
    /\ c = c' * BN.pow10 (dp - dp').
Proof.
  revert c. induction dp as [|dp IH]; intros c.
  - exists c, O. simpl. split; [reflexivity|]. split; [lia|].
    unfold BN.pow10. simpl. lia.
  - simpl. destruct (c mod 10 =? 0) eqn:E.
    + destruct (IH (c / 10)) as (c' & dp' & Hs & Hle & Hv).
      exists c', dp'. split; [exact Hs|]. split; [lia|].
      apply Z.eqb_eq in E.
      pose proof (Z.div_mod c 10 ltac:(lia)) as Hdm.
      replace (S dp - dp')%nat with (S (dp - dp')) by lia.
      rewrite pow10_S. lia.
    + exists c, (S dp). split; [reflexivity|]. split; [lia|].
      rewrite Nat.sub_diag. unfold BN.pow10. simpl. lia.
Qed.

Lemma strip_mul_pow10 (c : Z) (n : nat) : BN.strip (c * BN.pow10 n) n = (c, O).
Proof.
  revert c. induction n as [|n IH]; intros c.
  - cbn [BN.strip]. f_equal. unfold BN.pow10. simpl. lia.
  - cbn [BN.strip]. rewrite pow10_S.
    replace (c * (10 * BN.pow10 n)) with (c * BN.pow10 n * 10) by lia.
    rewrite Z.mod_mul by lia. simpl. rewrite Z.div_mul by lia. apply IH.
Qed.

Lemma scaled_mk (c : Z) (dp k : nat) :
  (dp <= k)%nat -> scaled (BN.mk c dp) k (c * BN.pow10 (k - dp)).
Proof.
  intros Hle. unfold BN.mk.
  destruct (strip_value c dp) as (c' & dp' & Hs & Hle' & Hv).
  rewrite Hs. exists c', dp'. split; [reflexivity|]. split; [lia|].
  rewrite Hv. rewrite <- Z.mul_assoc, <- pow10_add. do 2 f_equal. lia.
Qed.

Lemma scaled_of_Z (z : Z) (k : nat) : scaled (BN.of_Z z) k (z * BN.pow10 k).
Proof.
  exists z, O. split; [reflexivity|]. split; [lia|]. now rewrite Nat.sub_0_r.
Qed.

Lemma scaled_plus (x y : BigNumber) (k : nat) (n m : Z) :
  scaled x k n -> scaled y k m -> scaled (BN.plus x y) k (n + m).
Proof.
  intros (c1 & d1 & -> & H1 & ->) (c2 & d2 & -> & H2 & ->). simpl.
  set (mx := Nat.max d1 d2).
  assert (Hmx : (mx <= k)%nat) by (unfold mx; lia).
  pose proof (scaled_mk (c1 * BN.pow10 (mx - d1) + c2 * BN.pow10 (mx - d2)) mx k Hmx)
    as Hs.
  replace (c1 * BN.pow10 (k - d1) + c2 * BN.pow10 (k - d2))
    with ((c1 * BN.pow10 (mx - d1) + c2 * BN.pow10 (mx - d2)) * BN.pow10 (k - mx));
    [exact Hs|].
  rewrite Z.mul_add_distr_r, <- !Z.mul_assoc, <- !pow10_add.
  replace (mx - d1 + (k - mx))%nat with (k - d1)%nat by (unfold mx; lia).
  replace (mx - d2 + (k - mx))%nat with (k - d2)%nat by (unfold mx; lia).
  reflexivity.
Qed.

Lemma scaled_negated (x : BigNumber) (k : nat) (n : Z) :
  scaled x k n -> scaled (BN.negated x) k (- n).
Proof.
  intros (c & d & -> & H & ->). exists (- c), d.
  split; [reflexivity|]. split; [exact H | lia].
Qed.

Lemma scaled_minus (x y : BigNumber) (k : nat) (n m : Z) :
  scaled x k n -> scaled y k m -> scaled (BN.minus x y) k (n - m).
Proof.
  intros Hx Hy. unfold BN.minus. replace (n - m) with (n + - m) by lia.
  apply scaled_plus; [exact Hx | now apply scaled_negated].
Qed.

Lemma scaled_times_integer (z : Z) (x : BigNumber) (k : nat) (n : Z) :
  scaled x k n -> scaled (BN.times (BN.of_Z z) x) k (z * n).
Proof.
  intros (c & d & -> & H & ->). simpl.
  replace (z * (c * BN.pow10 (k - d))) with (z * c * BN.pow10 (k - d)) by lia.
  now apply scaled_mk.
Qed.

(** Rounding to the nearest integer does not depend on the scale of the
    fraction. *)
Lemma div_half_up_scale (n d s : Z) :
  0 < s -> BN.div_half_up (n * s) (d * s) = BN.div_half_up n d.
Proof.
  intros Hs. unfold BN.div_half_up.
  rewrite !Z.sgn_mul, !Z.abs_mul.
  replace (Z.sgn s) with 1 by (symmetry; apply Z.sgn_pos; lia).
  replace (Z.abs s) with s by (symmetry; apply Z.abs_eq; lia).
  rewrite !Z.mul_1_r.
  destruct (Z.eq_dec d 0) as [->|Hd].
  - simpl. rewrite !Z.mul_0_r. reflexivity.
  - f_equal.
    replace (2 * (Z.abs n * s) + Z.abs d * s) with ((2 * Z.abs n + Z.abs d) * s) by lia.
    replace (2 * (Z.abs d * s)) with (2 * Z.abs d * s) by lia.
    apply Z.div_mul_cancel_r; lia.
Qed.

Lemma div_half_up_exact (q d : Z) : d <> 0 -> BN.div_half_up (q * d) d = q.
Proof.
  intros Hd. unfold BN.div_half_up.
  rewrite Z.sgn_mul, Z.abs_mul.
  replace (2 * (Z.abs q * Z.abs d) + Z.abs d)
    with (Z.abs d + Z.abs q * (2 * Z.abs d)) by lia.
  rewrite Z.div_add by lia. rewrite Z.div_small by lia.
  pose proof (Z.sgn_spec d) as Hsd. pose proof (Z.abs_sgn q) as Hq.
  assert (Z.sgn d * Z.sgn d = 1) by
    (destruct Hsd as [[? ->]|[[? ->]|[? ->]]]; lia).
  replace (Z.sgn q * Z.sgn d * Z.sgn d * (0 + Z.abs q))
    with (Z.sgn q * Z.abs q * (Z.sgn d * Z.sgn d)) by lia.
  rewrite H. lia.
Qed.

Lemma div_floor_mono (a b d : Z) : 0 < d -> a <= b -> a / d <= b / d.
Proof. intros Hd Hab. apply Z.div_le_mono; lia. Qed.

(** Rounding to the nearest integer is monotone in the numerator. *)
Lemma div_half_up_mono (n m d : Z) :
  0 < d -> n <= m -> BN.div_half_up n d <= BN.div_half_up m d.
Proof.
  intros Hd Hnm. unfold BN.div_half_up.
  replace (Z.sgn d) with 1 by (symmetry; apply Z.sgn_pos; lia).
  replace (Z.abs d) with d by (symmetry; apply Z.abs_eq; lia).
  rewrite !Z.mul_1_r.
  assert (Hq : forall a, 0 <= a -> 0 <= (2 * a + d) / (2 * d))
    by (intros a Ha; apply Z.div_pos; lia).
  destruct (Z.lt_trichotomy n 0) as [Hn|[->|Hn]];
    destruct (Z.lt_trichotomy m 0) as [Hm|[->|Hm]]; try lia.
  - rewrite (Z.sgn_neg n), (Z.sgn_neg m), (Z.abs_neq n), (Z.abs_neq m) by lia.
    pose proof (div_floor_mono (2 * - m + d) (2 * - n + d) (2 * d)
                  ltac:(lia) ltac:(lia)).
    lia.
  - rewrite (Z.sgn_neg n) by lia. simpl.
    pose proof (Hq (Z.abs n) (Z.abs_nonneg n)). lia.
  - rewrite (Z.sgn_neg n), (Z.sgn_pos m) by lia.
    pose proof (Hq (Z.abs n) (Z.abs_nonneg n)).
    pose proof (Hq (Z.abs m) (Z.abs_nonneg m)). lia.
  - rewrite (Z.sgn_pos m) by lia. simpl.
    pose proof (Hq (Z.abs m) (Z.abs_nonneg m)). lia.
  - rewrite (Z.sgn_pos n), (Z.sgn_pos m), (Z.abs_eq n), (Z.abs_eq m) by lia.
    pose proof (div_floor_mono (2 * n + d) (2 * m + d) (2 * d)
                  ltac:(lia) ltac:(lia)).
    lia.
Qed.

Lemma scaled_dividedBy_integer (x : BigNumber) (k : nat) (n d : Z) :
  scaled x k n -> d <> 0 ->
  scaled (BN.dividedBy x (BN.of_Z d)) BN.DECIMAL_PLACES
         (BN.div_half_up (n * BN.pow10 BN.DECIMAL_PLACES) (d * BN.pow10 k)).
Proof.
  intros (c & dp & -> & Hle & ->) Hd. simpl.
  apply Z.eqb_neq in Hd. rewrite Hd.
  change (BN.pow10 0) with 1. rewrite (Z.mul_1_r c).
  pose proof (scaled_mk
    (BN.div_half_up (c * BN.pow10 BN.DECIMAL_PLACES) (d * BN.pow10 dp))
    BN.DECIMAL_PLACES BN.DECIMAL_PLACES (Nat.le_refl _)) as Hs.
  rewrite Nat.sub_diag in Hs. change (BN.pow10 0) with 1 in Hs.
  rewrite Z.mul_1_r in Hs.
  replace (BN.div_half_up (c * BN.pow10 (k - dp) * BN.pow10 BN.DECIMAL_PLACES)
                          (d * BN.pow10 k))
    with (BN.div_half_up (c * BN.pow10 BN.DECIMAL_PLACES) (d * BN.pow10 dp));
    [exact Hs|].
  rewrite <- (div_half_up_scale (c * BN.pow10 BN.DECIMAL_PLACES) (d * BN.pow10 dp)
                (BN.pow10 (k - dp)) (pow10_pos _)).
  f_equal; [lia|]. rewrite (pow10_split k dp Hle). lia.
Qed.

Lemma scaled_leb (x y : BigNumber) (k : nat) (n m : Z) :
  scaled x k n -> scaled y k m -> (BN_leb x y = true <-> n <= m).
Proof.
  intros (c1 & d1 & -> & H1 & ->) (c2 & d2 & -> & H2 & ->). simpl.
  rewrite Z.leb_le.
  set (mx := Nat.max d1 d2).
  assert (Hmx : (mx <= k)%nat) by (unfold mx; lia).
  replace (BN.pow10 (k - d1)) with (BN.pow10 (mx - d1) * BN.pow10 (k - mx))
    by (rewrite <- pow10_add; f_equal; unfold mx; lia).
  replace (BN.pow10 (k - d2)) with (BN.pow10 (mx - d2) * BN.pow10 (k - mx))
    by (rewrite <- pow10_add; f_equal; unfold mx; lia).
  pose proof (pow10_pos (k - mx)) as Hp.
  rewrite !Z.mul_assoc. split; intros H; nia.
Qed.

Lemma scaled_weaken (x : BigNumber) (k j : nat) (n : Z) :
  scaled x k n -> scaled x (k + j) (n * BN.pow10 j).
Proof.
  intros (c & d & -> & H & ->). exists c, d.
  split; [reflexivity|]. split; [lia|].
  rewrite <- Z.mul_assoc, <- pow10_add. do 2 f_equal. lia.
Qed.

Lemma scaled_ceil (x : BigNumber) (k : nat) (n : Z) :
  scaled x k n -> BN.ceil x = BN.of_Z (- ((- n) / BN.pow10 k)).
Proof.
  intros (c & d & -> & H & ->). cbn [BN.ceil]. unfold BN.of_Z.
  assert (Hq : - (c * BN.pow10 (k - d)) / BN.pow10 k = - c / BN.pow10 d).
  { rewrite (pow10_split k d H).
    replace (- (c * BN.pow10 (k - d))) with (- c * BN.pow10 (k - d)) by lia.
    pose proof (pow10_pos d). pose proof (pow10_pos (k - d)).
    apply Z.div_mul_cancel_r; lia. }
  rewrite Hq. reflexivity.
Qed.

Lemma mk_mul_pow10 (z : Z) (n : nat) : BN.mk (z * BN.pow10 n) n = BN.of_Z z.
Proof. unfold BN.mk. now rewrite strip_mul_pow10. Qed.

Lemma of_Z_minus (a b : Z) : BN.minus (BN.of_Z a) (BN.of_Z b) = BN.of_Z (a - b).
Proof.
  unfold BN.of_Z, BN.minus, BN.plus, BN.negated, BN.mk. simpl.
  change (BN.pow10 0) with 1. f_equal. lia.
Qed.

Lemma of_Z_plus (a b : Z) : BN.plus (BN.of_Z a) (BN.of_Z b) = BN.of_Z (a + b).
Proof.
  unfold BN.of_Z, BN.plus, BN.mk. simpl.
  change (BN.pow10 0) with 1. f_equal. lia.
Qed.

Lemma of_Z_times (a b : Z) : BN.times (BN.of_Z a) (BN.of_Z b) = BN.of_Z (a * b).
Proof. reflexivity. Qed.

(** A division of whole numbers that comes out even is exact. *)
Lemma of_Z_dividedBy_exact (q d : Z) :
  d <> 0 -> BN.dividedBy (BN.of_Z (q * d)) (BN.of_Z d) = BN.of_Z q.
Proof.
  intros Hd. unfold BN.of_Z, BN.dividedBy.
  apply Z.eqb_neq in Hd. rewrite Hd. apply Z.eqb_neq in Hd.
  change (BN.pow10 0) with 1. rewrite !Z.mul_1_r.
  replace (q * d * BN.pow10 BN.DECIMAL_PLACES)
    with (q * BN.pow10 BN.DECIMAL_PLACES * d) by lia.
  rewrite div_half_up_exact by exact Hd. apply mk_mul_pow10.
Qed.

(* ===================================================================== *)
(** * Further properties of [estimateCurrentPrice] *)
(* ===================================================================== *)

Lemma backtrackedNow_scaled (nowMs secondsToBacktrack : Z) :
  scaled (backtrackedNow nowMs secondsToBacktrack) 3
         (nowMs - 1000 * secondsToBacktrack).
Proof.
  unfold backtrackedNow, unixTimeSeconds.
  pose proof (scaled_mk nowMs 3 3 (Nat.le_refl _)) as Hnow.
  pose proof (scaled_of_Z secondsToBacktrack 3) as Hback.
  pose proof (scaled_minus _ _ _ _ _ Hnow Hback) as H.
  replace (nowMs - 1000 * secondsToBacktrack)
    with (nowMs * BN.pow10 (3 - 3) - secondsToBacktrack * BN.pow10 3);
    [exact H|].
  change (BN.pow10 (3 - 3)) with 1. change (BN.pow10 3) with 1000. lia.
Qed.

Lemma backtrackedNow_whole (seconds secondsToBacktrack : Z) :
  backtrackedNow ((seconds + secondsToBacktrack) * 1000) secondsToBacktrack
  = BN.of_Z seconds.
Proof.
  unfold backtrackedNow, unixTimeSeconds.
  change 1000 with (BN.pow10 3). rewrite mk_mul_pow10, of_Z_minus.
  f_equal. lia.
Qed.

(** The exact price of a Dutch auction with whole terms, in units of
    [10^-20]. *)
Lemma exactPrice_scaled (order : Order.t)
    (basePrice extra listingTime expirationTime nowMs secondsToBacktrack : Z) :
  integerTerms order basePrice extra listingTime expirationTime ->
  Order.saleKind order = DutchAuction ->
  expirationTime <> listingTime ->
  scaled (exactPrice order nowMs secondsToBacktrack) 20
    (match Order.side order with
     | Sell => basePrice * BN.pow10 20
               - scaledDiff extra listingTime expirationTime nowMs secondsToBacktrack
     | Buy => basePrice * BN.pow10 20
              + scaledDiff extra listingTime expirationTime nowMs secondsToBacktrack
     end).
Proof.
  intros (Hb & Hx & Hl & He) Hkind Hwindow.
  rewrite (exactPrice_dutch _ _ _ Hkind). cbv zeta.
  assert (Hdiff : scaled
            (dutchAuctionDiff order (backtrackedNow nowMs secondsToBacktrack)) 20
            (scaledDiff extra listingTime expirationTime nowMs secondsToBacktrack)).
  { unfold dutchAuctionDiff. rewrite Hx, Hl, He, of_Z_minus.
    pose proof (backtrackedNow_scaled nowMs secondsToBacktrack) as Hnow.
    pose proof (scaled_minus _ _ _ _ _ Hnow (scaled_of_Z listingTime 3)) as Hsub.
    pose proof (scaled_times_integer extra _ _ _ Hsub) as Hmul.
    pose proof (scaled_dividedBy_integer _ _ _ (expirationTime - listingTime)
                  Hmul ltac:(lia)) as Hdiv.
    unfold scaledDiff. change (BN.pow10 3) with 1000 in Hdiv.
    replace (1000 * listingTime) with (listingTime * 1000) by lia.
    exact Hdiv. }
  rewrite Hb. pose proof (scaled_of_Z basePrice 20) as Hbase.
  destruct (Order.side order).
  - apply scaled_plus; assumption.
  - apply scaled_minus; assumption.
Qed.

Lemma scaledDiff_mono (extra listingTime expirationTime stb nowMs1 nowMs2 : Z) :
  0 <= extra -> listingTime < expirationTime -> nowMs1 <= nowMs2 ->
  scaledDiff extra listingTime expirationTime nowMs1 stb
  <= scaledDiff extra listingTime expirationTime nowMs2 stb.
Proof.
  intros Hx Hw Hnow. unfold scaledDiff.
  apply div_half_up_mono; [lia|].
  pose proof (pow10_pos 20).
  apply Z.mul_le_mono_nonneg_r; [lia|].
  apply Z.mul_le_mono_nonneg_l; lia.
Qed.

Lemma scaledDiff_at_listing (extra listingTime expirationTime stb : Z) :
  scaledDiff extra listingTime expirationTime
             (1000 * listingTime + 1000 * stb) stb = 0.
Proof.
  unfold scaledDiff.
  replace (1000 * listingTime + 1000 * stb - 1000 * stb - 1000 * listingTime)
    with 0 by lia.
  rewrite Z.mul_0_r, Z.mul_0_l. reflexivity.
Qed.

Lemma scaledDiff_at_expiration (extra listingTime expirationTime stb : Z) :
  expirationTime <> listingTime ->
  scaledDiff extra listingTime expirationTime
             (1000 * expirationTime + 1000 * stb) stb
  = extra * BN.pow10 20.
Proof.
  intros Hw. unfold scaledDiff.
  replace (extra * (1000 * expirationTime + 1000 * stb - 1000 * stb
                    - 1000 * listingTime) * BN.pow10 20)
    with (extra * BN.pow10 20 * ((expirationTime - listingTime) * 1000)) by lia.
  apply div_half_up_exact. lia.
Qed.

Lemma of_Z_leb (a b : Z) : BN_leb (BN.of_Z a) (BN.of_Z b) = true <-> a <= b.
Proof.
  unfold BN_leb, BN.of_Z. simpl. change (BN.pow10 0) with 1.
  rewrite Z.leb_le. lia.
Qed.

(** The two ways out of [estimateCurrentPrice], exact or rounded up,
    keep the order of prices. *)
Lemma rounding_keeps_order (x y : BigNumber) (k : nat) (n m : Z)
    (shouldRoundUp : bool) :
  scaled x k n -> scaled y k m -> n <= m ->
  BN_leb (if shouldRoundUp then BN.ceil x else x)
         (if shouldRoundUp then BN.ceil y else y) = true.
Proof.
  intros Hx Hy Hnm. destruct shouldRoundUp.
  - rewrite (scaled_ceil x k n Hx), (scaled_ceil y k m Hy).
    apply of_Z_leb.
    pose proof (pow10_pos k) as Hp.
    pose proof (div_floor_mono (- m) (- n) (BN.pow10 k) Hp ltac:(lia)). lia.
  - apply (scaled_leb x y k n m Hx Hy). exact Hnm.
Qed.

Lemma integerTerms_termsOnlyOrder (side : OrderSide) (saleKind : SaleKind)
    (basePrice extra listingTime expirationTime : Z) :
  integerTerms
    (termsOnlyOrder side saleKind basePrice extra listingTime expirationTime)
    basePrice extra listingTime expirationTime.
Proof. repeat split. Qed.

(** X1. A Dutch auction with whole terms and a window that is not empty
    starts at [basePrice] and ends at [basePrice - extra] (Sell) or
    [basePrice + extra] (Buy), exactly, whether or not the result is
    rounded up: at a clock that, backtracked, reads the listing time
    the price is [basePrice], and at one that reads the expiration time
    it is the end price. *)
Theorem estimateCurrentPrice_dutch_start_and_end (order : Order.t)
    (basePrice extra listingTime expirationTime : Z) :
  integerTerms order basePrice extra listingTime expirationTime ->
  Order.saleKind order = DutchAuction ->
  expirationTime <> listingTime ->
  forall (secondsToBacktrack : Z) (shouldRoundUp : bool),
    estimateCurrentPrice order ((listingTime + secondsToBacktrack) * 1000)
                         secondsToBacktrack shouldRoundUp
    = BN.of_Z basePrice
    /\ estimateCurrentPrice order ((expirationTime + secondsToBacktrack) * 1000)
                            secondsToBacktrack shouldRoundUp
       = match Order.side order with
         | Sell => BN.of_Z (basePrice - extra)
         | Buy => BN.of_Z (basePrice + extra)
         end.
Proof.
  intros (Hb & Hx & Hl & He) Hkind Hwindow stb ru.
  assert (Hround : forall z, (if ru then BN.ceil (BN.of_Z z) else BN.of_Z z)
                             = BN.of_Z z).
  { intros z. destruct ru; [apply ceil_integer|]; reflexivity. }
  unfold estimateCurrentPrice. rewrite !(exactPrice_dutch _ _ _ Hkind).
  cbv zeta. unfold dutchAuctionDiff.
  rewrite !backtrackedNow_whole, Hb, Hx, Hl, He, !of_Z_minus, !of_Z_times.
  replace (extra * (listingTime - listingTime))
    with (0 * (expirationTime - listingTime)) by lia.
  rewrite !of_Z_dividedBy_exact by lia.
  destruct (Order.side order);
    rewrite ?of_Z_minus, ?of_Z_plus, !Hround; split; f_equal; lia.
Qed.

Lemma estimateCurrentPrice_dutch_start_and_end_witness :
  estimateCurrentPrice
    (termsOnlyOrder Sell DutchAuction 1000 100 1540000000 1540003600)
    ((1540000000 + 30) * 1000) 30 true = BN.of_Z 1000
  /\ estimateCurrentPrice
       (termsOnlyOrder Sell DutchAuction 1000 100 1540000000 1540003600)
       ((1540003600 + 30) * 1000) 30 true = BN.of_Z (1000 - 100).
Proof.
  apply (estimateCurrentPrice_dutch_start_and_end
           (termsOnlyOrder Sell DutchAuction 1000 100 1540000000 1540003600)
           1000 100 1540000000 1540003600
           (integerTerms_termsOnlyOrder _ _ _ _ _ _) eq_refl ltac:(lia) 30 true).
Defined.

(** X2. In a Dutch auction with whole terms, [extra] not negative and
    the expiration after the listing, the price moves one way with the
    clock, inside the window and outside it: a Buy price never
    decreases and a Sell price never increases as the clock advances,
    rounded up or not. *)
Theorem estimateCurrentPrice_monotone (order : Order.t)
    (basePrice extra listingTime expirationTime : Z)
    (nowMs1 nowMs2 secondsToBacktrack : Z) (shouldRoundUp : bool) :
  integerTerms order basePrice extra listingTime expirationTime ->
  Order.saleKind order = DutchAuction ->
  0 <= extra -> listingTime < expirationTime ->
  nowMs1 <= nowMs2 ->
  let earlier := estimateCurrentPrice order nowMs1 secondsToBacktrack shouldRoundUp in
  let later := estimateCurrentPrice order nowMs2 secondsToBacktrack shouldRoundUp in
  match Order.side order with
  | Buy => BN_leb earlier later = true
  | Sell => BN_leb later earlier = true
  end.
Proof.
  intros Hterms Hkind Hx Hw Hnow. cbv zeta. unfold estimateCurrentPrice.
  pose proof (exactPrice_scaled order _ _ _ _ nowMs1 secondsToBacktrack
                Hterms Hkind ltac:(lia)) as H1.
  pose proof (exactPrice_scaled order _ _ _ _ nowMs2 secondsToBacktrack
                Hterms Hkind ltac:(lia)) as H2.
  pose proof (scaledDiff_mono extra listingTime expirationTime secondsToBacktrack
                nowMs1 nowMs2 Hx Hw Hnow) as Hmono.
  destruct (Order.side order).
  - apply (rounding_keeps_order _ _ _ _ _ _ H1 H2). lia.
  - apply (rounding_keeps_order _ _ _ _ _ _ H2 H1). lia.
Qed.

Lemma estimateCurrentPrice_monotone_witness :
  BN_leb
    (estimateCurrentPrice
       (termsOnlyOrder Buy DutchAuction 1000 100 1540000000 1540003600)
       1540000100123 30 false)
    (estimateCurrentPrice
       (termsOnlyOrder Buy DutchAuction 1000 100 1540000000 1540003600)
       1540000100124 30 false) = true.
Proof.
  apply (estimateCurrentPrice_monotone
           (termsOnlyOrder Buy DutchAuction 1000 100 1540000000 1540003600)
           1000 100 1540000000 1540003600 1540000100123 1540000100124 30 false
           (integerTerms_termsOnlyOrder _ _ _ _ _ _) eq_refl);
    lia.
Defined.

(** X3. In a Dutch auction with whole terms, [extra] not negative and
    the expiration after the listing, while the backtracked clock is
    inside the window the price stays between the start and the end
    price: between [basePrice - extra] and [basePrice] for a Sell order,
    between [basePrice] and [basePrice + extra] for a Buy order. *)
Theorem estimateCurrentPrice_within_window (order : Order.t)
    (basePrice extra listingTime expirationTime : Z)
    (nowMs secondsToBacktrack : Z) (shouldRoundUp : bool) :
  integerTerms order basePrice extra listingTime expirationTime ->
  Order.saleKind order = DutchAuction ->
  0 <= extra -> listingTime < expirationTime ->
  1000 * listingTime <= nowMs - 1000 * secondsToBacktrack <= 1000 * expirationTime ->
  let price := estimateCurrentPrice order nowMs secondsToBacktrack shouldRoundUp in
  match Order.side order with
  | Sell => BN_leb (BN.of_Z (basePrice - extra)) price = true
            /\ BN_leb price (BN.of_Z basePrice) = true
  | Buy => BN_leb (BN.of_Z basePrice) price = true
           /\ BN_leb price (BN.of_Z (basePrice + extra)) = true
  end.
Proof.
  intros Hterms Hkind Hx Hw [Hlo Hhi]. cbv zeta. unfold estimateCurrentPrice.
  pose proof (exactPrice_scaled order _ _ _ _ nowMs secondsToBacktrack
                Hterms Hkind ltac:(lia)) as Hp.
  pose proof (scaledDiff_mono extra listingTime expirationTime secondsToBacktrack
                (1000 * listingTime + 1000 * secondsToBacktrack) nowMs
                Hx Hw ltac:(lia)) as Hge.
  pose proof (scaledDiff_mono extra listingTime expirationTime secondsToBacktrack
                nowMs (1000 * expirationTime + 1000 * secondsToBacktrack)
                Hx Hw ltac:(lia)) as Hle.
  rewrite scaledDiff_at_listing in Hge.
  rewrite scaledDiff_at_expiration in Hle by lia.
  assert (Hint : forall z, (if shouldRoundUp then BN.ceil (BN.of_Z z) else BN.of_Z z)
                           = BN.of_Z z).
  { intros z. destruct shouldRoundUp; [apply ceil_integer|]; reflexivity. }
  destruct (Order.side order); split.
  - rewrite <- (Hint basePrice).
    apply (rounding_keeps_order _ _ _ _ _ _ (scaled_of_Z basePrice 20) Hp). lia.
  - rewrite <- (Hint (basePrice + extra)).
    apply (rounding_keeps_order _ _ _ _ _ _ Hp (scaled_of_Z (basePrice + extra) 20)).
    lia.
  - rewrite <- (Hint (basePrice - extra)).
    apply (rounding_keeps_order _ _ _ _ _ _ (scaled_of_Z (basePrice - extra) 20) Hp).
    lia.
  - rewrite <- (Hint basePrice).
    apply (rounding_keeps_order _ _ _ _ _ _ Hp (scaled_of_Z basePrice 20)). lia.
Qed.

Lemma estimateCurrentPrice_within_window_witness :
  BN_leb (BN.of_Z (1000 - 100))
    (estimateCurrentPrice
       (termsOnlyOrder Sell DutchAuction 1000 100 1540000000 1540003600)
       1540001800500 30 true) = true
  /\ BN_leb
       (estimateCurrentPrice
          (termsOnlyOrder Sell DutchAuction 1000 100 1540000000 1540003600)
          1540001800500 30 true)
       (BN.of_Z 1000) = true.
Proof.
  apply (estimateCurrentPrice_within_window
           (termsOnlyOrder Sell DutchAuction 1000 100 1540000000 1540003600)
           1000 100 1540000000 1540003600 1540001800500 30 true
           (integerTerms_termsOnlyOrder _ _ _ _ _ _) eq_refl);
    lia.
Defined.

(* ===================================================================== *)
(** * Further properties of [parseSignatureHex] *)
(* ===================================================================== *)

Lemma hexEncode_length (buf : Buffer) :
  String.length (hexEncode buf) = (2 * List.length buf)%nat.
Proof.
  induction buf as [|b rest IH]; [reflexivity|].
  cbn [hexEncode String.length List.length]. rewrite IH. lia.
Qed.

Lemma bufferToHex_length (buf : Buffer) :
  String.length (bufferToHex buf) = (2 + 2 * List.length buf)%nat.
Proof. unfold bufferToHex. cbn [String.length]. rewrite hexEncode_length. lia. Qed.

Lemma slice_length (start end_ : nat) (buf : Buffer) :
  (start <= end_)%nat -> (end_ <= List.length buf)%nat ->
  List.length (slice start end_ buf) = (end_ - start)%nat.
Proof.
  intros H1 H2. unfold slice. rewrite length_take, length_drop. lia.
Qed.

Lemma parse_returns_valid (signature : string) (sig : ECSignature.t) :
  parseSignatureHex signature = Returns sig ->
  ECSignature.v sig = 27 \/ ECSignature.v sig = 28.
Proof.
  unfold parseSignatureHex.
  destruct (_parseSignatureHexAsRSV signature) as [rsv|e]; [|discriminate].
  destruct (includes validVParamValues (ECSignature.v rsv)) eqn:E1.
  - intros [= <-]. now apply includes_valid.
  - destruct (_parseSignatureHexAsVRS signature) as [vrs|]; [|discriminate].
    destruct (includes validVParamValues (ECSignature.v vrs)) eqn:E2;
      [|discriminate].
    intros [= <-]. now apply includes_valid.
Qed.

(** X4. A signature that [parseSignatureHex] returns is canonical,
    whatever string it was given: the string spelled 65 bytes, [v] is 27
    or 28, and [r] and [s] are each "0x" and 64 hex digits. *)
Theorem parseSignatureHex_returns_canonical
    (signature : string) (sig : ECSignature.t) :
  parseSignatureHex signature = Returns sig ->
  List.length (toBuffer signature) = 65%nat
  /\ (ECSignature.v sig = 27 \/ ECSignature.v sig = 28)
  /\ String.length (ECSignature.r sig) = 66%nat
  /\ String.length (ECSignature.s sig) = 66%nat
  /\ isHexString (ECSignature.r sig) = true
  /\ isHexString (ECSignature.s sig) = true.
Proof.
  intros H. pose proof (parse_returns_valid signature sig H) as Hv.
  destruct (Nat.eq_dec (List.length (toBuffer signature)) 65%nat) as [Hlen|Hlen].
  2:{ rewrite (parse_wrong_length signature Hlen) in H. discriminate H. }
  split; [exact Hlen|]. split; [exact Hv|].
  unfold parseSignatureHex, _parseSignatureHexAsRSV, _parseSignatureHexAsVRS,
    fromRpcSig in H.
  rewrite Hlen in H. simpl negb in H. cbv iota in H.
  destruct (toBuffer signature) as [|b0 rest] eqn:Hbuf; [discriminate Hlen|].
  cbn [ECSignature.v] in H.
  assert (Hshape : forall a b, (a <= b)%nat -> (b <= 65)%nat -> (b - a = 32)%nat ->
            String.length (bufferToHex (slice a b (b0 :: rest))) = 66%nat
            /\ isHexString (bufferToHex (slice a b (b0 :: rest))) = true).
  { intros a b Hab Hb Hd. split.
    - rewrite bufferToHex_length, slice_length; lia.
    - unfold bufferToHex. cbn [isHexString]. apply hexEncode_digits. }
  destruct (includes validVParamValues _) in H.
  - injection H as <-. cbn [ECSignature.r ECSignature.s].
    destruct (Hshape 0%nat 32%nat) as [? ?]; try lia.
    destruct (Hshape 32%nat 64%nat) as [? ?]; try lia. auto.
  - destruct (includes validVParamValues _) in H; [|discriminate H].
    injection H as <-. cbn [ECSignature.r ECSignature.s].
    destruct (Hshape 1%nat 33%nat) as [? ?]; try lia.
    destruct (Hshape 33%nat 65%nat) as [? ?]; try lia. auto.
Qed.

Lemma parseSignatureHex_returns_canonical_witness :
  String.length (bufferToHex (repeat Byte.xaa 32)) = 66%nat
  /\ isHexString (bufferToHex (repeat Byte.x22 32)) = true.
Proof.
  destruct (parseSignatureHex_returns_canonical
              (signatureVRS Byte.xaa Byte.x22 Byte.x01)
              {| ECSignature.v := 28;
                 ECSignature.r := bufferToHex (repeat Byte.xaa 32);
                 ECSignature.s := bufferToHex (repeat Byte.x22 32) |}
              ltac:(vm_compute; reflexivity))
    as (_ & _ & Hr & _ & _ & Hs).
  split; [exact Hr | exact Hs].
Defined.

(** X5. Encoding and parsing back: the bytes of [r], [s] and [v] in the
    r, s, v layout, with a [v] byte of 27 or 28 (or a recovery id 0 or
    1), parse to the same [r] and [s] and to [v] as 27 or 28. *)
Theorem parseSignatureHex_round_trip_RSV
    (rb sb : Buffer) (vb : Byte.byte) :
  List.length rb = 32%nat -> List.length sb = 32%nat ->
  addRecoveryOffset (byteValue vb) = 27 \/ addRecoveryOffset (byteValue vb) = 28 ->
  parseSignatureHex (bufferToHex (rb ++ sb ++ [vb]))
  = Returns {| ECSignature.v := addRecoveryOffset (byteValue vb);
               ECSignature.r := bufferToHex rb;
               ECSignature.s := bufferToHex sb |}.
Proof.
  intros Hr Hs Hv. unfold parseSignatureHex.
  rewrite (parse_RSV_layout _ rb sb vb (toBuffer_bufferToHex _) Hr Hs).
  cbn [ECSignature.v]. apply includes_valid in Hv. rewrite Hv. reflexivity.
Qed.

Lemma parseSignatureHex_round_trip_RSV_witness :
  parseSignatureHex
    (bufferToHex (repeat Byte.x11 32 ++ repeat Byte.x22 32 ++ [Byte.x00]))
  = Returns {| ECSignature.v := 27;
               ECSignature.r := bufferToHex (repeat Byte.x11 32);
               ECSignature.s := bufferToHex (repeat Byte.x22 32) |}.
Proof.
  apply (parseSignatureHex_round_trip_RSV
           (repeat Byte.x11 32) (repeat Byte.x22 32) Byte.x00 eq_refl eq_refl).
  left. reflexivity.
Defined.

(** X6. The v, r, s layout is recognised only by the failure of the
    other reading. With the bytes laid out as v, r, s: if the last byte
    of [s] does not read as a 27 or 28 (it is none of 0, 1, 27, 28), the
    signature encoded is returned; if it does, the r, s, v reading is
    returned instead, with [v] taken from that byte and [r] and [s] each
    shifted by one byte. *)
Theorem parseSignatureHex_VRS_layout
    (vb : Byte.byte) (rfront sfront : Buffer) (rlast slast : Byte.byte) :
  List.length rfront = 31%nat -> List.length sfront = 31%nat ->
  let signature :=
    bufferToHex ([vb] ++ (rfront ++ [rlast]) ++ (sfront ++ [slast])) in
  let valid (v : Z) := v = 27 \/ v = 28 in
  (~ valid (addRecoveryOffset (byteValue slast)) ->
   valid (addRecoveryOffset (byteValue vb)) ->
   parseSignatureHex signature
   = Returns {| ECSignature.v := addRecoveryOffset (byteValue vb);
                ECSignature.r := bufferToHex (rfront ++ [rlast]);
                ECSignature.s := bufferToHex (sfront ++ [slast]) |})
  /\ (valid (addRecoveryOffset (byteValue slast)) ->
      parseSignatureHex signature
      = Returns {| ECSignature.v := addRecoveryOffset (byteValue slast);
                   ECSignature.r := bufferToHex ([vb] ++ rfront);
                   ECSignature.s := bufferToHex ([rlast] ++ sfront) |}).
Proof.
  intros Hr Hs. cbv zeta.
  assert (Hrsv : _parseSignatureHexAsRSV
                   (bufferToHex ([vb] ++ (rfront ++ [rlast]) ++ sfront ++ [slast]))
                 = Returns {| ECSignature.v := addRecoveryOffset (byteValue slast);
                              ECSignature.r := bufferToHex ([vb] ++ rfront);
                              ECSignature.s := bufferToHex ([rlast] ++ sfront) |}).
  { apply parse_RSV_layout.
    - rewrite toBuffer_bufferToHex. rewrite <- !app_assoc. reflexivity.
    - rewrite length_app, Hr. reflexivity.
    - rewrite length_app, Hs. reflexivity. }
  assert (Hvrs : _parseSignatureHexAsVRS
                   (bufferToHex ([vb] ++ (rfront ++ [rlast]) ++ sfront ++ [slast]))
                 = Some {| ECSignature.v := addRecoveryOffset (byteValue vb);
                           ECSignature.r := bufferToHex (rfront ++ [rlast]);
                           ECSignature.s := bufferToHex (sfront ++ [slast]) |}).
  { apply parse_VRS_layout.
    - apply toBuffer_bufferToHex.
    - rewrite length_app, Hr. reflexivity.
    - rewrite length_app, Hs. reflexivity. }
  unfold parseSignatureHex. rewrite Hrsv, Hvrs. cbn [ECSignature.v]. split.
  - intros Hlast Hv. apply includes_invalid in Hlast. apply includes_valid in Hv.
    rewrite Hlast, Hv. reflexivity.
  - intros Hlast. apply includes_valid in Hlast. rewrite Hlast. reflexivity.
Qed.

Lemma parseSignatureHex_VRS_layout_witness :
  parseSignatureHex
    (bufferToHex ([Byte.x1b] ++ (repeat Byte.x11 31 ++ [Byte.x11])
                  ++ (repeat Byte.x22 31 ++ [Byte.x1c])))
  = Returns {| ECSignature.v := 28;
               ECSignature.r := bufferToHex ([Byte.x1b] ++ repeat Byte.x11 31);
               ECSignature.s := bufferToHex ([Byte.x11] ++ repeat Byte.x22 31) |}.
Proof.
  apply (proj2 (parseSignatureHex_VRS_layout Byte.x1b (repeat Byte.x11 31)
                  (repeat Byte.x22 31) Byte.x11 Byte.x1c eq_refl eq_refl)).
  right. reflexivity.
Defined.

(* ===================================================================== *)
(** * Further properties of the confirmation tracker *)
(* ===================================================================== *)

Lemma hasPoller_false (h : string) (w : World) :
  hasPoller h w = false <-> h ∉ pollers w.
Proof.
  rewrite <- hasPoller_elem_of. destruct (hasPoller h w); split; congruence.
Qed.

Lemma poll_failed (h : string) (obs : Observation) (w : World) :
  failedRequest obs = true -> poll h obs w = (w, false).
Proof.
  unfold failedRequest, poll.
  destruct (getTransaction obs) as [tx|]; [|reflexivity].
  destruct (inBlock tx); [|discriminate].
  destruct (getTransactionReceipt obs); [discriminate | reflexivity].
Qed.

Lemma track_abandoned (h h' : string) (f : TxnCallback) (w : World) :
  abandoned h w -> abandoned h (track h' f w).
Proof.
  intros [[fs Hreg] Hloop]. apply hasPoller_false in Hloop.
  unfold abandoned. rewrite hasPoller_false. unfold track.
  destruct (decide (h' = h)) as [->|Hne].
  - rewrite Hreg. simpl. rewrite lookup_insert_eq. split; [eauto | exact Hloop].
  - destruct (txCallbacks w !! h') as [fs'|]; simpl;
      rewrite lookup_insert_ne by exact Hne; (split; [eauto|]).
    + exact Hloop.
    + intros Hin. apply elem_of_app in Hin as [Hin|Hin]; [now apply Hloop|].
      apply list_elem_of_singleton in Hin. congruence.
Qed.

Lemma step_abandoned (h : string) (w : World) (ev : Event) :
  abandoned h w -> abandoned h (step w ev).
Proof.
  intros Hab. destruct ev as [h'|h' f|h' obs]; simpl.
  - apply track_abandoned. exact Hab.
  - apply track_abandoned. exact Hab.
  - destruct (hasPoller h' w) eqn:Hhas; [|exact Hab].
    destruct Hab as [[fs Hreg] Hloop].
    assert (Hne : h' <> h) by (intros ->; congruence).
    apply hasPoller_false in Hloop.
    assert (Hend : forall w', txCallbacks w' !! h = Some fs ->
                              pollers w' = pollers w ->
                              abandoned h (endLoop h' w')).
    { intros w' Hreg' Hloops. split; [simpl; eauto|].
      apply hasPoller_false. simpl. rewrite Hloops.
      intros Hin. apply Hloop. now apply (stopPoller_subset h'). }
    unfold poll.
    destruct (getTransaction obs) as [tx|]; [|now apply Hend].
    destruct (inBlock tx).
    2:{ split; [eauto | now apply hasPoller_false]. }
    destruct (getTransactionReceipt obs) as [receipt|]; [|now apply Hend].
    destruct (txCallbacks w !! h') as [fs'|]; [|now apply Hend].
    apply Hend; simpl.
    + rewrite notify_txCallbacks, lookup_delete_ne by exact Hne. exact Hreg.
    + apply notify_pollers.
Qed.

Lemma run_abandoned (h : string) (events : list Event) (w : World) :
  abandoned h w -> abandoned h (run events w).
Proof.
  revert w. induction events as [|ev events IH]; intros w Hab; [exact Hab|].
  simpl. apply IH. now apply step_abandoned.
Qed.

(** X7. A rejected request ends the poll loop of the hash and leaves the
    registry as it is: no callback is called, the entry of the hash
    stays, and no event ever starts a loop for the hash again. A
    [confirmTransaction] for that hash from then on only joins the list:
    its promise stays pending however the chain answers. *)
Theorem tracker_abandoned_after_failed_request :
  (forall (w : World) (h : string) (obs : Observation),
      trackerInvariant w ->
      hasPoller h w = true ->
      failedRequest obs = true ->
      let w' := step w (Poll h obs) in
      abandoned h w'
      /\ txCallbacks w' = txCallbacks w
      /\ promises w' = promises w
      /\ calls w' = calls w)
  /\ (forall (w : World) (h : string) (events : list Event),
      abandoned h w -> abandoned h (run events w))
  /\ (forall (w : World) (h : string) (chain : nat -> Observation) (fuel : nat),
      abandoned h w ->
      awaitConfirmation h chain fuel w = Some Pending).
Proof.
  split; [|split].
  - intros w h obs [Hnd Hreg] Hhas Hfail. cbv zeta. unfold step.
    rewrite Hhas, (poll_failed h obs w Hfail). simpl.
    repeat split.
    + apply Hreg. now apply hasPoller_elem_of.
    + apply hasPoller_false. simpl. now apply stopPoller_gone.
  - intros w h events. apply run_abandoned.
  - intros w h chain fuel [[fs Hreg] Hloop]. unfold awaitConfirmation.
    unfold confirmTransaction.
    rewrite (track_tracked h _ fs); [|exact Hreg].
    rewrite pollLoop_no_loop; [|exact Hloop].
    simpl. now apply list_lookup_middle.
Qed.

Lemma tracker_abandoned_after_failed_request_witness :
  let failed := {| getTransaction := RpcError "timeout";
                   getTransactionReceipt := RpcOk None |} in
  let w := run [Confirm "0xaa"; Poll "0xaa" failed] initialWorld in
  promises w = [Pending]
  /\ awaitConfirmation "0xaa"
       (fun _ => mined (Some {| status := StatusString "0x1" |})) 5 w
     = Some Pending.
Proof.
  cbv zeta. split; [reflexivity|].
  apply (proj2 (proj2 tracker_abandoned_after_failed_request)).
  split; [vm_compute; eauto | reflexivity].
Defined.

(* ===================================================================== *)
(** * Further properties of the adapters *)
(* ===================================================================== *)

Lemma parseDecimal_negative (n : N) :
  parseDecimal (String "-" (digitsOf n)) = Some (- Z.of_N n, O).
Proof.
  unfold parseDecimal.
  rewrite (splitAtDot_digits _ (digitsOf_all_digits n)). cbv beta iota zeta.
  cbn [default]. rewrite string_app_empty.
  pose proof (digitsOf_nonempty n) as Hne.
  destruct (String.eqb_spec (digitsOf n) "") as [E|_]; [congruence|].
  rewrite digitsValue_digitsOf. reflexivity.
Qed.

Lemma parseDecimal_Number_toString (z : Z) :
  parseDecimal (Number_toString z) = Some (z, O).
Proof.
  destruct z as [|p|p].
  - reflexivity.
  - change (Number_toString (Z.pos p)) with (digitsOf (N.pos p)).
    apply parseDecimal_digitsOf.
  - change (Number_toString (Z.neg p)) with (String "-" (digitsOf (N.pos p))).
    apply parseDecimal_negative.
Qed.

(** X8. [makeBigNumber] reads the contract answer ['0x'] as zero, and
    reads a number through its decimal string: a whole number in the
    safe range comes out as itself and the constructor is never handed
    a number, so that its limit of fifteen digits for numbers is not
    met. *)
Theorem makeBigNumber_values (otherNotation : string -> Outcome BigNumber) :
  makeBigNumber otherNotation (AString "0x") = Returns (BN.of_Z 0)
  /\ (forall z : Z,
        - 9007199254740991 <= z <= 9007199254740991 ->
        makeBigNumber otherNotation (ANumber z) = Returns (BN.of_Z z))
  /\ (forall n : N,
        makeBigNumber otherNotation (AString (digitsOf n))
        = Returns (BN.of_Z (Z.of_N n))).
Proof.
  split; [reflexivity|]. split.
  - intros z _. unfold makeBigNumber, BigNumber_new. cbn [NumberOrString_toString].
    rewrite parseDecimal_Number_toString. reflexivity.
  - intros n. unfold makeBigNumber, BigNumber_new.
    destruct (String.eqb_spec (digitsOf n) "0x") as [E|_].
    + exfalso. pose proof (digitsOf_all_digits n) as Hd. rewrite E in Hd.
      discriminate Hd.
    + cbn [NumberOrString_toString]. rewrite parseDecimal_digitsOf. reflexivity.
Qed.

Lemma makeBigNumber_values_witness :
  makeBigNumber notANumber (ANumber 1234567890123456)
  = Returns (BN.of_Z 1234567890123456).
Proof.
  apply (proj1 (proj2 (makeBigNumber_values notANumber))). lia.
Defined.

Lemma firstThrown_orderFromJSON (otherNotation : string -> Outcome BigNumber)
    (order : WireOrder.t) (nowMs : Z) :
  match firstThrown (map (BigNumber_new otherNotation) (numericFields order)) with
  | Some e => orderFromJSON otherNotation order nowMs = Throws e
  | None => exists fromJSON, orderFromJSON otherNotation order nowMs = Returns fromJSON
  end.
Proof.
  unfold orderFromJSON, numericFields. cbn [map firstThrown].
  repeat match goal with
  | |- context [BigNumber_new otherNotation ?f] =>
      destruct (BigNumber_new otherNotation f);
      cbn [bindOutcome firstThrown]; [|reflexivity]
  end.
  eexists. reflexivity.
Qed.

(** X9. [orderFromJSON] throws exactly when the constructor rejects one
    of the nine numeric fields, and then with the error of the first
    such field in the order maker and taker relayer fee, maker and taker
    protocol fee, base price, extra, listing time, expiration time,
    salt. *)
Theorem orderFromJSON_first_error (otherNotation : string -> Outcome BigNumber)
    (order : WireOrder.t) (nowMs : Z) :
  (forall e : string,
      firstThrown (map (BigNumber_new otherNotation) (numericFields order)) = Some e
      <-> orderFromJSON otherNotation order nowMs = Throws e)
  /\ (firstThrown (map (BigNumber_new otherNotation) (numericFields order)) = None
      <-> exists fromJSON, orderFromJSON otherNotation order nowMs = Returns fromJSON).
Proof.
  pose proof (firstThrown_orderFromJSON otherNotation order nowMs) as H.
  destruct (firstThrown _) as [e'|].
  - rewrite H. split.
    + intros e. split; congruence.
    + split; [discriminate | intros [o Ho]; discriminate].
  - destruct H as [o Ho]. rewrite Ho. split.
    + intros e. split; discriminate.
    + split; [eauto | reflexivity].
Qed.

Lemma estimateCurrentPrice_set_currentPrice (price : BigNumber) (o : Order.t)
    (nowMs secondsToBacktrack : Z) (shouldRoundUp : bool) :
  estimateCurrentPrice (set_currentPrice price o) nowMs secondsToBacktrack
                       shouldRoundUp
  = estimateCurrentPrice o nowMs secondsToBacktrack shouldRoundUp.
Proof. reflexivity. Qed.

(** X10. The order [orderFromJSON] returns carries its own price: its
    [currentPrice] is [estimateCurrentPrice] of that very order at the
    time of the call, with the defaults (30 seconds back, rounded up).
    For a well-formed fixed-price wire order that price prints as the
    wire's base price. *)
Theorem orderFromJSON_currentPrice (otherNotation : string -> Outcome BigNumber) :
  (forall (order : WireOrder.t) (nowMs : Z) (fromJSON : Order.t),
      orderFromJSON otherNotation order nowMs = Returns fromJSON ->
      Order.currentPrice fromJSON
      = Some (estimateCurrentPrice fromJSON nowMs 30 true))
  /\ (forall (TO_EXP_NEG TO_EXP_POS : Z) (order : WireOrder.t) (nowMs : Z),
      TO_EXP_NEG < 0 ->
      wellFormedWireOrder TO_EXP_POS order = true ->
      WireOrder.sale_kind order = FixedPrice ->
      exists (fromJSON : Order.t) (price : BigNumber),
        orderFromJSON otherNotation order nowMs = Returns fromJSON
        /\ Order.currentPrice fromJSON = Some price
        /\ BigNumber_toString TO_EXP_NEG TO_EXP_POS price
           = WireOrder.base_price order).
Proof.
  split.
  - intros order nowMs fromJSON. unfold orderFromJSON. intros H.
    repeat match type of H with
    | bindOutcome ?m _ = _ => destruct m; cbn [bindOutcome] in H; [|discriminate H]
    end.
    injection H as <-. reflexivity.
  - intros neg pos order nowMs Hneg Hwf Hkind.
    unfold wellFormedWireOrder, numericFields in Hwf. cbn [forallb] in Hwf.
    repeat (apply andb_true_iff in Hwf as [?H Hwf]).
    repeat match goal with
    | H : isDecimalString _ && _ = true |- _ =>
        apply (numeric_round_trip otherNotation neg pos _ Hneg) in H;
        destruct H as (? & ?Hnew & ?Hint & ?Hprint)
    end.
    unfold orderFromJSON.
    repeat match goal with
    | H : BigNumber_new _ _ = Returns _ |- _ => rewrite H; clear H
    end.
    cbn [bindOutcome]. eexists. eexists. split; [reflexivity|].
    split; [reflexivity|].
    unfold estimateCurrentPrice_default, estimateCurrentPrice, exactPrice.
    cbn [Order.saleKind Order.basePrice]. rewrite Hkind. cbn [SaleKind_eqb].
    rewrite ceil_integer by assumption. assumption.
Qed.

Lemma orderFromJSON_currentPrice_witness :
  exists (fromJSON : Order.t) (price : BigNumber),
    orderFromJSON notANumber exampleWireOrder 1541000000000 = Returns fromJSON
    /\ Order.currentPrice fromJSON = Some price
    /\ BigNumber_toString (-1000) 1000 price = "1000000000000000000"%string.
Proof.
  apply (proj2 (orderFromJSON_currentPrice notANumber)
           (-1000) 1000 exampleWireOrder 1541000000000);
    [lia | reflexivity | reflexivity].
Defined.

Example orderFromJSONv0_example :
  exists fromJSON,
    orderFromJSONv0 notANumber exampleWireOrderV0 1540001800500 = Returns fromJSON
    /\ Order.currentPrice fromJSON = Some (BNFinite 951 0)
    /\ Order.makerAccount fromJSON = None.
Proof. eexists. vm_compute. repeat split; reflexivity. Qed.

(** X11. The order [orderFromJSONv0] returns has no account objects and
    no asset, takes [maker], [taker] and [feeRecipient] from the flat
    wire fields, and carries the price of that very order at the time of
    the call with the defaults, although the price is worked out on the
    wire order. For a well-formed legacy wire order, [orderToJSON] of
    the result gives back every numeric field as it came and every
    address in lowercase. *)
Theorem orderFromJSONv0_properties (otherNotation : string -> Outcome BigNumber) :
  (forall (order : WireOrderV0.t) (nowMs : Z) (fromJSON : Order.t),
      orderFromJSONv0 otherNotation order nowMs = Returns fromJSON ->
      Order.currentPrice fromJSON
      = Some (estimateCurrentPrice fromJSON nowMs 30 true)
      /\ Order.makerAccount fromJSON = None
      /\ Order.takerAccount fromJSON = None
      /\ Order.feeRecipientAccount fromJSON = None
      /\ Order.asset fromJSON = None
      /\ Order.maker fromJSON = WireOrderV0.maker order
      /\ Order.taker fromJSON = WireOrderV0.taker order
      /\ Order.feeRecipient fromJSON = WireOrderV0.feeRecipient order)
  /\ (forall (TO_EXP_NEG TO_EXP_POS : Z) (getOrderHashHex : OrderJSON.t -> string)
             (order : WireOrderV0.t) (nowMs : Z),
      TO_EXP_NEG < 0 ->
      wellFormedWireOrderV0 TO_EXP_POS order = true ->
      exists fromJSON : Order.t,
        orderFromJSONv0 otherNotation order nowMs = Returns fromJSON
        /\ let asJSON := orderToJSON TO_EXP_NEG TO_EXP_POS getOrderHashHex fromJSON in
           OrderJSON.makerRelayerFee asJSON = WireOrderV0.makerRelayerFee order
           /\ OrderJSON.takerRelayerFee asJSON = WireOrderV0.takerRelayerFee order
           /\ OrderJSON.makerProtocolFee asJSON = WireOrderV0.makerProtocolFee order
           /\ OrderJSON.takerProtocolFee asJSON = WireOrderV0.takerProtocolFee order
           /\ OrderJSON.basePrice asJSON = WireOrderV0.basePrice order
           /\ OrderJSON.extra asJSON = WireOrderV0.extra order
           /\ OrderJSON.listingTime asJSON = WireOrderV0.listingTime order
           /\ OrderJSON.expirationTime asJSON = WireOrderV0.expirationTime order
           /\ OrderJSON.salt asJSON = WireOrderV0.salt order
           /\ OrderJSON.exchange asJSON = toLowerCase (WireOrderV0.exchange order)
           /\ OrderJSON.maker asJSON = toLowerCase (WireOrderV0.maker order)
           /\ OrderJSON.taker asJSON = toLowerCase (WireOrderV0.taker order)
           /\ OrderJSON.feeRecipient asJSON
              = toLowerCase (WireOrderV0.feeRecipient order)
           /\ OrderJSON.target asJSON = toLowerCase (WireOrderV0.target order)
           /\ OrderJSON.staticTarget asJSON
              = toLowerCase (WireOrderV0.staticTarget order)
           /\ OrderJSON.paymentToken asJSON
              = toLowerCase (WireOrderV0.paymentToken order)).
Proof.
  split.
  - intros order nowMs fromJSON. unfold orderFromJSONv0. intros H.
    repeat match type of H with
    | bindOutcome ?m _ = _ => destruct m; cbn [bindOutcome] in H; [|discriminate H]
    end.
    injection H as <-. repeat split.
  - intros neg pos getOrderHashHex order nowMs Hneg Hwf.
    unfold wellFormedWireOrderV0, numericFieldsV0 in Hwf. cbn [forallb] in Hwf.
    repeat (apply andb_true_iff in Hwf as [?H Hwf]).
    repeat match goal with
    | H : isDecimalString _ && _ = true |- _ =>
        apply (numeric_round_trip otherNotation neg pos _ Hneg) in H;
        destruct H as (? & ?Hnew & _ & ?Hprint)
    end.
    unfold orderFromJSONv0.
    repeat match goal with
    | H : BigNumber_new _ _ = Returns _ |- _ => rewrite !H; clear H
    end.
    cbn [bindOutcome]. eexists. split; [reflexivity|].
    cbv zeta. unfold orderToJSON. cbn.
    repeat split; assumption.
Qed.

Lemma orderFromJSONv0_properties_witness :
  exists fromJSON : Order.t,
    orderFromJSONv0 notANumber exampleWireOrderV0 1540001800500 = Returns fromJSON
    /\ OrderJSON.basePrice (orderToJSON (-1000) 1000 (fun _ => "0x"%string) fromJSON)
       = "1000"%string
    /\ OrderJSON.maker (orderToJSON (-1000) 1000 (fun _ => "0x"%string) fromJSON)
       = "0xabcdef0000000000000000000000000000000001"%string.
Proof.
  destruct (proj2 (orderFromJSONv0_properties notANumber)
              (-1000) 1000 (fun _ => "0x"%string) exampleWireOrderV0 1540001800500
              ltac:(lia) eq_refl)
    as (fromJSON & Hfrom & H).
  exists fromJSON. split; [exact Hfrom|]. cbv zeta in H.
  destruct H as (_ & _ & _ & _ & Hbase & _ & _ & _ & _ & _ & Hmaker & _).
  split; [exact Hbase | exact Hmaker].
Defined.

Lemma ordersFromJSON_returns (otherNotation : string -> Outcome BigNumber)
    (orders : list WireOrder.t) (clock : nat -> Z) (start : nat)
    (result : list Order.t) :
  ordersFromJSON otherNotation orders clock start = Returns result ->
  List.length result = List.length orders
  /\ forall (i : nat) (order : WireOrder.t),
       orders !! i = Some order ->
       exists fromJSON,
         result !! i = Some fromJSON
         /\ orderFromJSON otherNotation order (clock (start + i)%nat)
            = Returns fromJSON.
Proof.
  revert start result. induction orders as [|order rest IH]; intros start result H.
  - injection H as <-. split; [reflexivity|]. intros i o Hi. discriminate Hi.
  - cbn [ordersFromJSON] in H.
    destruct (orderFromJSON otherNotation order (clock start)) as [o|] eqn:Ho;
      cbn [bindOutcome] in H; [|discriminate H].
    destruct (ordersFromJSON otherNotation rest clock (S start)) as [os|] eqn:Hos;
      cbn [bindOutcome] in H; [|discriminate H].
    injection H as <-. destruct (IH _ _ Hos) as [Hlen Hall].
    split; [simpl; now rewrite Hlen|].
    intros [|i] w Hi.
    + injection Hi as <-. exists o. rewrite Nat.add_0_r. auto.
    + destruct (Hall i w Hi) as (o' & Hlook & Hfrom). exists o'.
      split; [exact Hlook|]. rewrite <- Hfrom. do 2 f_equal. lia.
Qed.

Lemma firstThrown_app {A : Type} (l1 l2 : list (Outcome A)) :
  firstThrown (l1 ++ l2)
  = match firstThrown l1 with
    | Some e => Some e
    | None => firstThrown l2
    end.
Proof.
  induction l1 as [|[a|e] l1 IH]; [reflexivity | exact IH | reflexivity].
Qed.

(** The first numeric field that the constructor rejects, over the
    orders in turn, decides what [ordersFromJSON] does; the clock has no
    say. *)
Lemma ordersFromJSON_first_error (otherNotation : string -> Outcome BigNumber)
    (orders : list WireOrder.t) (clock : nat -> Z) (start : nat) :
  match firstThrown (map (BigNumber_new otherNotation)
                         (concat (map numericFields orders))) with
  | Some e => ordersFromJSON otherNotation orders clock start = Throws e
  | None => exists result,
      ordersFromJSON otherNotation orders clock start = Returns result
  end.
Proof.
  revert start. induction orders as [|order rest IH]; intros start.
  - exists []. reflexivity.
  - cbn [map concat ordersFromJSON]. rewrite map_app, firstThrown_app.
    pose proof (firstThrown_orderFromJSON otherNotation order (clock start)) as H.
    destruct (firstThrown (map (BigNumber_new otherNotation) (numericFields order)))
      as [e|].
    + rewrite H. reflexivity.
    + destruct H as [o ->]. cbn [bindOutcome]. specialize (IH (S start)).
      destruct (firstThrown _) as [e|].
      * rewrite IH. reflexivity.
      * destruct IH as [result ->]. eexists. reflexivity.
Qed.

Lemma orderFromJSON_priced (otherNotation : string -> Outcome BigNumber)
    (order : WireOrder.t) (nowMs : Z) (fromJSON : Order.t) :
  orderFromJSON otherNotation order nowMs = Returns fromJSON ->
  Order.currentPrice fromJSON = Some (estimateCurrentPrice fromJSON nowMs 30 true).
Proof.
  unfold orderFromJSON. intros H.
  repeat match type of H with
  | bindOutcome ?m _ = _ => destruct m; cbn [bindOutcome] in H; [|discriminate H]
  end.
  injection H as <-. reflexivity.
Qed.

(** The string of a whole number is read back by [makeBigNumber] as the
    number. *)
Lemma makeBigNumber_Number_toString (otherNotation : string -> Outcome BigNumber)
    (z : Z) :
  makeBigNumber otherNotation (AString (Number_toString z)) = Returns (BN.of_Z z).
Proof.
  unfold makeBigNumber.
  destruct (String.eqb_spec (Number_toString z) "0x") as [E|_].
  - pose proof (parseDecimal_Number_toString z) as H. rewrite E in H.
    vm_compute in H. discriminate H.
  - cbn [NumberOrString_toString]. unfold BigNumber_new.
    rewrite parseDecimal_Number_toString. reflexivity.
Qed.

(** X12. [assetFromJSON] throws exactly when the constructor rejects a
    numeric field of one of the wire orders, with the error of the first
    such field, the orders taken in turn and the nine fields of each in
    the order of [orderFromJSON]; the clock has no say in it. When it
    returns, the orders correspond one for one and in order to the wire
    orders, each as [orderFromJSON] makes it at the time of its own call
    and priced at that time; and a token id given as a number, a safe
    integer, is spelled so that [makeBigNumber] reads it back as that
    number. *)
Theorem assetFromJSON_orders (otherNotation : string -> Outcome BigNumber)
    (asset : WireAsset.t) (clock : nat -> Z) :
  let thrown :=
    firstThrown (map (BigNumber_new otherNotation)
                     (concat (map numericFields (WireAsset.orders asset)))) in
  (forall e : string,
      thrown = Some e <-> assetFromJSON otherNotation asset clock = Throws e)
  /\ (thrown = None
      <-> exists fromJSON, assetFromJSON otherNotation asset clock = Returns fromJSON)
  /\ (forall fromJSON : OpenSeaAsset.t,
      assetFromJSON otherNotation asset clock = Returns fromJSON ->
      List.length (OpenSeaAsset.orders fromJSON)
      = List.length (WireAsset.orders asset)
      /\ (forall (i : nat) (order : WireOrder.t),
            WireAsset.orders asset !! i = Some order ->
            exists o,
              OpenSeaAsset.orders fromJSON !! i = Some o
              /\ orderFromJSON otherNotation order (clock i) = Returns o
              /\ Order.currentPrice o
                 = Some (estimateCurrentPrice o (clock i) 30 true))
      /\ (forall z : Z,
            WireAsset.token_id asset = ANumber z ->
            - MAX_SAFE_INTEGER <= z <= MAX_SAFE_INTEGER ->
            makeBigNumber otherNotation (AString (OpenSeaAsset.tokenId fromJSON))
            = Returns (BN.of_Z z))).
Proof.
  cbv zeta.
  pose proof (ordersFromJSON_first_error otherNotation (WireAsset.orders asset)
                clock 0) as Hfirst.
  split; [|split].
  - intros e. unfold assetFromJSON. destruct (firstThrown _) as [e'|].
    + rewrite Hfirst. cbn [bindOutcome]. split; congruence.
    + destruct Hfirst as [result ->]. cbn [bindOutcome]. split; discriminate.
  - unfold assetFromJSON. destruct (firstThrown _) as [e'|].
    + rewrite Hfirst. cbn [bindOutcome].
      split; [discriminate | intros [a Ha]; discriminate Ha].
    + destruct Hfirst as [result ->]. cbn [bindOutcome].
      split; [eauto | reflexivity].
  - intros fromJSON. unfold assetFromJSON.
    destruct (ordersFromJSON otherNotation (WireAsset.orders asset) clock 0)
      as [os|] eqn:Hos; cbn [bindOutcome]; [|discriminate].
    intros [= <-]. cbn [OpenSeaAsset.tokenId OpenSeaAsset.orders].
    destruct (ordersFromJSON_returns _ _ _ _ _ Hos) as [Hlen Hall].
    split; [exact Hlen|]. split.
    + intros i order Hi. destruct (Hall i order Hi) as (o & Ho & Hfrom).
      exists o. split; [exact Ho|]. split; [exact Hfrom|].
      exact (orderFromJSON_priced otherNotation order _ o Hfrom).
    + intros z -> _. apply makeBigNumber_Number_toString.
Qed.

Lemma assetFromJSON_orders_witness :
  exists fromJSON : OpenSeaAsset.t,
    assetFromJSON notANumber exampleWireAsset exampleClock = Returns fromJSON
    /\ List.length (OpenSeaAsset.orders fromJSON) = 2%nat
    /\ (exists o,
          OpenSeaAsset.orders fromJSON !! 1%nat = Some o
          /\ Order.currentPrice o
             = Some (estimateCurrentPrice o 1541000000001 30 true))
    /\ makeBigNumber notANumber (AString (OpenSeaAsset.tokenId fromJSON))
       = Returns (BN.of_Z 42).
Proof.
  destruct (assetFromJSON_orders notANumber exampleWireAsset exampleClock)
    as (_ & Hreturns & Hresult).
  destruct (proj1 Hreturns eq_refl) as [fromJSON E].
  exists fromJSON. split; [exact E|].
  destruct (Hresult fromJSON E) as (Hlen & Hall & Hid).
  split; [exact Hlen|]. split.
  - destruct (Hall 1%nat exampleWireOrder eq_refl) as (o & Ho & _ & Hprice).
    exists o. split; [exact Ho | exact Hprice].
  - apply (Hid 42 eq_refl). unfold MAX_SAFE_INTEGER. lia.
Defined.

(* ===================================================================== *)
(** * Further properties of [findAsset] *)
(* ===================================================================== *)

(** X13. Without a proxy address [findAsset] never answers 'proxy',
    whichever queries the schema has and whatever they answer; and when
    no owner is known but the schema has a count-of query, it never
    answers 'unknown'. *)
Theorem findAsset_never (functions : SchemaFunctions) (account : string)
    (proxy : option string) :
  (truthy proxy = false ->
   findAsset functions account proxy <> "proxy"%string)
  /\ (forall q : CountOfQuery,
        countOf functions = Some q ->
        (ownerOf functions = None
         \/ exists o, ownerOf functions = Some o /\ ownerOf_inputsDefined o = false) ->
        findAsset functions account proxy <> "unknown"%string).
Proof.
  split.
  - intros Hproxy. unfold findAsset. rewrite Hproxy. cbn [andb].
    destruct (ownerOf functions) as [o|]; [destruct (ownerOf_inputsDefined o)|].
    + repeat match goal with
             | |- context [if ?b then _ else _] => destruct b
             end; discriminate.
    + destruct (countOf functions) as [q|]; [|discriminate].
      change (1000000000000000000 <=? 0) with false. cbv iota.
      destruct (1000000000000000000 <=? countOf_account q); discriminate.
    + destruct (countOf functions) as [q|]; [|discriminate].
      change (1000000000000000000 <=? 0) with false. cbv iota.
      destruct (1000000000000000000 <=? countOf_account q); discriminate.
  - intros q Hq Howner. unfold findAsset. rewrite Hq.
    assert (Hnone : match ownerOf functions with
                    | Some o => if ownerOf_inputsDefined o
                                then Some (toLowerCase (ownerOf_result o)) else None
                    | None => None
                    end = None).
    { destruct Howner as [->|(o & -> & ->)]; reflexivity. }
    rewrite Hnone.
    repeat match goal with
           | |- context [if ?b then _ else _] => destruct b
           end; discriminate.
Qed.

Lemma findAsset_never_witness :
  findAsset {| ownerOf := None;
               countOf := Some {| countOf_proxy := 2000000000000000000;
                                  countOf_account := 0 |} |}
            "0xabcdef0000000000000000000000000000000001" None
  <> "proxy"%string.
Proof.
  apply (proj1 (findAsset_never _ _ None)). reflexivity.
Defined.

(* ===================================================================== *)
(** * Properties of [personalSignAsync] and [sendRawTransaction] *)
(* ===================================================================== *)

Lemma parse_throws_messages (signature message : string) :
  parseSignatureHex signature = Throws message ->
  message = "Invalid signature"%string
  \/ message = "Invalid signature length"%string.
Proof.
  unfold parseSignatureHex, _parseSignatureHexAsRSV, fromRpcSig.
  destruct (negb (Nat.eqb (List.length (toBuffer signature)) 65)).
  - intros [= <-]. now right.
  - destruct (includes validVParamValues _); [discriminate|].
    destruct (_parseSignatureHexAsVRS signature) as [vrs|].
    + destruct (includes validVParamValues _); [discriminate|].
      intros [= <-]. now left.
    + intros [= <-]. now left.
Qed.

(** X14. [personalSignAsync] is fulfilled only with a signature whose
    [v] is 27 or 28. It is rejected with the error of the request when
    the request fails, and otherwise only with "Invalid signature" or
    "Invalid signature length"; an answer of 65 bytes laid out as r, s,
    v with a [v] byte that reads as 27 or 28 is never rejected. *)
Theorem personalSignAsync_outcomes :
  (forall err, personalSignAsync (RpcError err) = RejectedWith err)
  /\ (forall answer sig,
        personalSignAsync answer = Fulfilled sig ->
        ECSignature.v sig = 27 \/ ECSignature.v sig = 28)
  /\ (forall result reason,
        personalSignAsync (RpcOk result) = RejectedWith reason ->
        reason = "Invalid signature"%string
        \/ reason = "Invalid signature length"%string)
  /\ (forall (rb sb : Buffer) (vb : Byte.byte),
        List.length rb = 32%nat -> List.length sb = 32%nat ->
        addRecoveryOffset (byteValue vb) = 27
        \/ addRecoveryOffset (byteValue vb) = 28 ->
        personalSignAsync (RpcOk (bufferToHex (rb ++ sb ++ [vb])))
        = Fulfilled {| ECSignature.v := addRecoveryOffset (byteValue vb);
                       ECSignature.r := bufferToHex rb;
                       ECSignature.s := bufferToHex sb |}).
Proof.
  split; [reflexivity|]. split; [|split].
  - intros [result|err] sig; simpl; [|discriminate].
    destruct (parseSignatureHex result) as [sig'|] eqn:E; [|discriminate].
    intros [= <-]. now apply (parse_returns_valid result).
  - intros result reason. simpl.
    destruct (parseSignatureHex result) as [sig'|m] eqn:E; [discriminate|].
    intros [= <-]. now apply (parse_throws_messages result).
  - intros rb sb vb Hr Hs Hv. unfold personalSignAsync, parseSignatureHex.
    rewrite (parse_RSV_layout _ rb sb vb (toBuffer_bufferToHex _) Hr Hs).
    cbn [ECSignature.v]. apply includes_valid in Hv. rewrite Hv. reflexivity.
Qed.

Lemma personalSignAsync_outcomes_witness :
  personalSignAsync
    (RpcOk (bufferToHex (repeat Byte.x11 32 ++ repeat Byte.x22 32 ++ [Byte.x1c])))
  = Fulfilled {| ECSignature.v := 28;
                 ECSignature.r := bufferToHex (repeat Byte.x11 32);
                 ECSignature.s := bufferToHex (repeat Byte.x22 32) |}.
Proof.
  apply (proj2 (proj2 (proj2 personalSignAsync_outcomes))
           (repeat Byte.x11 32) (repeat Byte.x22 32) Byte.x1c eq_refl eq_refl).
  right. reflexivity.
Defined.

(** X15. [sendRawTransaction] is rejected with the error of the
    submission when that fails, and leaves the tracker alone; without
    [awaitConfirmation] it is fulfilled with the hash at once, whatever
    becomes of the transaction, and registers nothing. With
    [awaitConfirmation], for a hash not tracked before, it stays pending
    while the transaction is not in a block; from the run that finds it
    in one it is fulfilled with the hash when the receipt is absent or
    has status 1, and rejected with 'Transaction failed' otherwise. *)
Theorem sendRawTransaction_outcomes (chain : nat -> Observation) (w : World) :
  (forall err awaitConfirmation fuel,
      sendRawTransaction (RpcError err) awaitConfirmation chain fuel w
      = (Rejected err, w))
  /\ (forall txHash fuel,
      sendRawTransaction (RpcOk txHash) false chain fuel w = (Resolved txHash, w))
  /\ (forall (txHash : string) (n : nat),
      txCallbacks w !! txHash = None ->
      (forall i, (i < n)%nat -> isWaiting (chain i) = true) ->
      (forall fuel, (fuel <= n)%nat ->
         fst (sendRawTransaction (RpcOk txHash) true chain fuel w) = Pending)
      /\ forall receipt fuel,
           fetchedReceipt (chain n) = Some receipt -> (n < fuel)%nat ->
           fst (sendRawTransaction (RpcOk txHash) true chain fuel w)
           = if succeeded receipt then Resolved txHash
             else Rejected "Transaction failed").
Proof.
  split; [reflexivity|]. split; [reflexivity|].
  intros txHash n Hnone Hwait.
  destruct (awaitConfirmation_runs txHash chain w n Hnone Hwait)
    as [Hpending Hsettled].
  unfold awaitConfirmation in Hpending, Hsettled.
  unfold sendRawTransaction.
  destruct (confirmTransaction txHash w) as [p w1]. split.
  - intros fuel Hfuel. cbn [fst]. now rewrite (Hpending fuel Hfuel).
  - intros receipt fuel Hobs Hfuel. cbn [fst].
    rewrite (Hsettled receipt fuel Hobs Hfuel).
    destruct (succeeded receipt); reflexivity.
Qed.

Lemma sendRawTransaction_outcomes_witness :
  fst (sendRawTransaction (RpcOk "0xaa") true
         (fun i => if (i <? 2)%nat then notMined
                   else mined (Some {| status := StatusString "0x1" |}))
         3 initialWorld)
  = Resolved "0xaa".
Proof.
  destruct (proj2 (proj2 (sendRawTransaction_outcomes
              (fun i => if (i <? 2)%nat then notMined
                        else mined (Some {| status := StatusString "0x1" |}))
              initialWorld)) "0xaa"%string 2%nat eq_refl) as [_ Hsettled].
  { intros i Hi. destruct i as [|[|i]]; [reflexivity | reflexivity | lia]. }
  apply (Hsettled (Some {| status := StatusString "0x1" |}) 3%nat eq_refl).
  lia.
Defined.

(* ===================================================================== *)
(** * The registry over a whole run *)
(* ===================================================================== *)

Lemma settle_pending_back (p q : nat) (outcome : PromiseState)
    (ps : list PromiseState) :
  outcome <> Pending ->
  settle q outcome ps !! p = Some Pending -> ps !! p = Some Pending.
Proof.
  intros Hout. unfold settle.
  destruct (ps !! q) as [[]|] eqn:Hq; try (intros H; exact H).
  destruct (decide (p = q)) as [->|Hne].
  - rewrite list_lookup_insert_eq by (now apply (lookup_lt_Some ps q Pending)).
    intros [= H]. congruence.
  - rewrite list_lookup_insert_ne by congruence. intros H; exact H.
Qed.

Lemma notify_pending_back (status : bool) (fs : list TxnCallback) (w : World)
    (p : nat) :
  promises (fold_left (invoke status) fs w) !! p = Some Pending ->
  promises w !! p = Some Pending.
Proof.
  revert w. induction fs as [|f fs IH]; intros w H; [exact H|].
  simpl in H. apply IH in H. destruct f as [q|id]; simpl in H; [|exact H].
  apply (settle_pending_back p q _ _ (settlement_not_pending status) H).
Qed.

Lemma notify_other (status : bool) (fs : list TxnCallback) (w : World) (p : nat) :
  SettlePromise p ∉ fs ->
  promises (fold_left (invoke status) fs w) !! p = promises w !! p.
Proof.
  revert w. induction fs as [|f fs IH]; intros w Hnot; [reflexivity|].
  simpl. rewrite IH.
  - destruct f as [q|id]; simpl; [|reflexivity].
    apply settle_other. intros ->. apply Hnot. apply elem_of_cons. now left.
  - intros Hin. apply Hnot. apply elem_of_cons. now right.
Qed.

Lemma initialWorld_registry : registryInvariant initialWorld.
Proof.
  constructor; simpl.
  - intros h fs H. rewrite lookup_empty in H. discriminate H.
  - intros h1 h2 fs1 fs2 f _ H. rewrite lookup_empty in H. discriminate H.
  - apply NoDup_nil_2.
  - intros f st H. now apply elem_of_nil in H.
  - intros p H. discriminate H.
Qed.

Lemma registered_in_range (w : World) (h : string) (fs : list TxnCallback)
    (p : nat) :
  registryInvariant w ->
  txCallbacks w !! h = Some fs -> SettlePromise p ∈ fs ->
  (p < List.length (promises w))%nat.
Proof.
  intros Hinv Hreg Hin.
  destruct (registered_pending w Hinv h fs Hreg) as [_ Hall].
  destruct (Hall _ Hin) as [(p' & [= <-] & Hp) _].
  now apply (lookup_lt_Some (promises w) p Pending).
Qed.

Lemma called_in_range (w : World) (p : nat) :
  registryInvariant w ->
  SettlePromise p ∈ map fst (calls w) ->
  (p < List.length (promises w))%nat.
Proof.
  intros Hinv Hin. apply list_elem_of_fmap in Hin as ([f st] & Hf & Hin).
  simpl in Hf. subst f.
  destruct (called_settled w Hinv _ _ Hin) as (p' & [= <-] & Hp).
  now apply (lookup_lt_Some (promises w) p (settlement st)).
Qed.

Lemma confirm_registry (h : string) (w : World) :
  registryInvariant w -> registryInvariant (snd (confirmTransaction h w)).
Proof.
  intros Hinv. unfold confirmTransaction. cbn [snd].
  set (p := List.length (promises w)).
  assert (Hfresh_reg : forall h' fs', txCallbacks w !! h' = Some fs' ->
                                      SettlePromise p ∉ fs').
  { intros h' fs' Hreg Hin.
    pose proof (registered_in_range w h' fs' p Hinv Hreg Hin). unfold p in *. lia. }
  assert (Hfresh_call : SettlePromise p ∉ map fst (calls w)).
  { intros Hin. pose proof (called_in_range w p Hinv Hin). unfold p in *. lia. }
  assert (Hnew : (promises w ++ [Pending]) !! p = Some Pending)
    by now apply list_lookup_middle.
  assert (Hold : forall q st, promises w !! q = Some st ->
                              (promises w ++ [Pending]) !! q = Some st)
    by (intros q st Hq; now apply lookup_app_l_Some).
  (* the list of [h] after the call *)
  set (before := default [] (txCallbacks w !! h)).
  assert (Htrack : exists w',
            track h (SettlePromise p)
              {| txCallbacks := txCallbacks w; promises := promises w ++ [Pending];
                 pollers := pollers w; calls := calls w |} = w'
            /\ txCallbacks w' = <[h := before ++ [SettlePromise p]]> (txCallbacks w)
            /\ promises w' = promises w ++ [Pending]
            /\ calls w' = calls w).
  { unfold track, before. simpl.
    destruct (txCallbacks w !! h) as [fs|]; eexists; split; try reflexivity;
      simpl; auto. }
  destruct Htrack as (w' & -> & Hcb & Hpr & Hcl).
  assert (Hbefore : forall f, f ∈ before -> exists fs, txCallbacks w !! h = Some fs /\ f ∈ fs).
  { unfold before. intros f Hf. destruct (txCallbacks w !! h) as [fs|]; [eauto|].
    now apply elem_of_nil in Hf. }
  assert (Hbefore_nodup : NoDup before).
  { unfold before. destruct (txCallbacks w !! h) as [fs|] eqn:E; [|apply NoDup_nil_2].
    now destruct (registered_pending w Hinv h fs E). }
  constructor; rewrite ?Hcb, ?Hpr, ?Hcl.
  - intros h' fs' Hreg. apply lookup_insert_Some in Hreg as [[<- <-]|[Hne Hreg]].
    + split.
      * apply NoDup_app. split; [exact Hbefore_nodup|]. split; [|apply NoDup_singleton].
        intros f Hf Hf'. apply list_elem_of_singleton in Hf'. subst f.
        destruct (Hbefore _ Hf) as (fs & Hfs & Hin). now apply (Hfresh_reg h fs).
      * intros f Hf. apply elem_of_app in Hf as [Hf|Hf].
        -- destruct (Hbefore _ Hf) as (fs & Hfs & Hin).
           destruct (registered_pending w Hinv h fs Hfs) as [_ Hall].
           destruct (Hall f Hin) as [(q & -> & Hq) Hnc].
           split; [exists q; split; [reflexivity | now apply Hold] | exact Hnc].
        -- apply list_elem_of_singleton in Hf. subst f.
           split; [exists p; auto | exact Hfresh_call].
    + destruct (registered_pending w Hinv h' fs' Hreg) as [Hnd Hall].
      split; [exact Hnd|]. intros f Hf.
      destruct (Hall f Hf) as [(q & -> & Hq) Hnc].
      split; [exists q; split; [reflexivity | now apply Hold] | exact Hnc].
  - intros h1 h2 fs1 fs2 f Hne H1 H2 Hf1 Hf2.
    apply lookup_insert_Some in H1 as [[<- <-]|[Hne1 H1]];
      apply lookup_insert_Some in H2 as [[<- <-]|[Hne2 H2]]; try congruence.
    + apply elem_of_app in Hf1 as [Hf1|Hf1].
      * destruct (Hbefore _ Hf1) as (fs & Hfs & Hin).
        now apply (registered_once w Hinv h h2 fs fs2 f Hne Hfs H2 Hin).
      * apply list_elem_of_singleton in Hf1. subst f. now apply (Hfresh_reg h2 fs2).
    + apply elem_of_app in Hf2 as [Hf2|Hf2].
      * destruct (Hbefore _ Hf2) as (fs & Hfs & Hin).
        now apply (registered_once w Hinv h1 h fs1 fs f Hne H1 Hfs Hf1).
      * apply list_elem_of_singleton in Hf2. subst f. now apply (Hfresh_reg h1 fs1).
    + now apply (registered_once w Hinv h1 h2 fs1 fs2 f Hne H1 H2 Hf1).
  - apply (called_once w Hinv).
  - intros f st Hin. destruct (called_settled w Hinv f st Hin) as (q & -> & Hq).
    exists q. split; [reflexivity | now apply Hold].
  - intros q Hq. destruct (decide (q = p)) as [->|Hne].
    + exists h, (before ++ [SettlePromise p]). rewrite lookup_insert_eq.
      split; [reflexivity|]. apply elem_of_app. right. now apply list_elem_of_singleton.
    + assert (Hq' : promises w !! q = Some Pending).
      { apply lookup_app_Some in Hq as [Hq|[Hlen Hq]]; [exact Hq|].
        exfalso. apply Hne. unfold p.
        apply lookup_lt_Some in Hq. simpl in Hq. lia. }
      destruct (pending_registered w Hinv q Hq') as (h' & fs' & Hreg & Hin).
      destruct (decide (h' = h)) as [->|Hne'].
      * exists h, (before ++ [SettlePromise p]). rewrite lookup_insert_eq.
        split; [reflexivity|]. apply elem_of_app. left.
        unfold before. rewrite Hreg. exact Hin.
      * exists h', fs'. rewrite lookup_insert_ne by congruence. auto.
Qed.

Lemma registry_ext (w w' : World) :
  txCallbacks w' = txCallbacks w -> promises w' = promises w ->
  calls w' = calls w ->
  registryInvariant w -> registryInvariant w'.
Proof.
  intros Hcb Hpr Hcl [J1 J2 J3 J4 J5].
  constructor; rewrite ?Hcb, ?Hpr, ?Hcl; assumption.
Qed.

Lemma notified_registry (h : string) (fs : list TxnCallback) (status : bool)
    (w : World) :
  registryInvariant w ->
  txCallbacks w !! h = Some fs ->
  let w1 := fold_left (invoke status) fs w in
  registryInvariant
    {| txCallbacks := delete h (txCallbacks w1);
       promises := promises w1;
       pollers := pollers w1;
       calls := calls w1 |}.
Proof.
  intros Hinv Hreg. cbv zeta.
  destruct (registered_pending w Hinv h fs Hreg) as [Hnd Hall].
  constructor; cbn [txCallbacks promises calls];
    rewrite ?notify_txCallbacks, ?notify_calls.
  - intros h' fs' Hreg'. apply lookup_delete_Some in Hreg' as [Hne Hreg'].
    destruct (registered_pending w Hinv h' fs' Hreg') as [Hnd' Hall'].
    split; [exact Hnd'|]. intros f Hf.
    destruct (Hall' f Hf) as [(q & -> & Hq) Hnc].
    assert (Hnot : SettlePromise q ∉ fs)
      by (apply (registered_once w Hinv h' h fs' fs); auto).
    split.
    + exists q. split; [reflexivity|]. rewrite notify_other by exact Hnot. exact Hq.
    + rewrite map_app. intros Hin. apply elem_of_app in Hin as [Hin|Hin].
      * now apply Hnc.
      * rewrite map_map in Hin. simpl in Hin. rewrite map_id in Hin.
        now apply Hnot.
  - intros h1 h2 fs1 fs2 f Hne H1 H2.
    apply lookup_delete_Some in H1 as [_ H1].
    apply lookup_delete_Some in H2 as [_ H2].
    now apply (registered_once w Hinv h1 h2).
  - rewrite map_app, map_map. simpl. rewrite map_id.
    apply NoDup_app. split; [apply (called_once w Hinv)|]. split; [|exact Hnd].
    intros f Hc Hf. destruct (Hall f Hf) as [_ Hnc]. now apply Hnc.
  - intros f st Hin. apply elem_of_app in Hin as [Hin|Hin].
    + destruct (called_settled w Hinv f st Hin) as (q & -> & Hq).
      exists q. split; [reflexivity|].
      apply notify_settled; [exact Hq | apply settlement_not_pending].
    + apply list_elem_of_fmap in Hin as (f' & [= -> ->] & Hf).
      destruct (Hall f' Hf) as [(q & -> & Hq) _].
      exists q. split; [reflexivity|]. now apply notify_pending.
  - intros q Hq. pose proof (notify_pending_back _ _ _ _ Hq) as Hq'.
    destruct (pending_registered w Hinv q Hq') as (h' & fs' & Hreg' & Hin).
    destruct (decide (h' = h)) as [->|Hne].
    + exfalso. rewrite Hreg in Hreg'. injection Hreg' as <-.
      rewrite (notify_pending status fs w q Hq' Hin) in Hq.
      injection Hq as Hq. now apply (settlement_not_pending status).
    + exists h', fs'. rewrite lookup_delete_ne by congruence. auto.
Qed.

Lemma step_registry (w : World) (ev : Event) :
  confirmOrPoll ev = true ->
  registryInvariant w -> registryInvariant (step w ev).
Proof.
  intros Hev Hinv. destruct ev as [h|h f|h obs]; [| discriminate Hev |].
  - now apply confirm_registry.
  - cbn [step]. destruct (hasPoller h w); [|exact Hinv].
    assert (Hend : registryInvariant (endLoop h w))
      by (apply (registry_ext w); auto).
    unfold poll.
    destruct (getTransaction obs) as [tx|]; [|exact Hend].
    destruct (inBlock tx); [|exact Hinv].
    destruct (getTransactionReceipt obs) as [receipt|]; [|exact Hend].
    destruct (txCallbacks w !! h) as [fs|] eqn:Hreg; [|exact Hend].
    refine (registry_ext _ _ _ _ _
              (notified_registry h fs
                 (match receipt with
                  | Some receipt => statusIsOne receipt
                  | None => true
                  end) w Hinv Hreg)); reflexivity.
Qed.

Lemma run_registry (events : list Event) (w : World) :
  forallb confirmOrPoll events = true ->
  registryInvariant w -> registryInvariant (run events w).
Proof.
  revert w. induction events as [|ev events IH]; intros w Hev Hinv; [exact Hinv|].
  cbn [forallb] in Hev. apply andb_true_iff in Hev as [Hev Hrest].
  simpl. apply IH; [exact Hrest|]. now apply step_registry.
Qed.

(** X16. Over every run of [confirmTransaction] calls and poll-loop
    runs from the empty registry: no callback is called twice; a
    callback that was called with a status has settled its promise
    accordingly (resolved for [true], rejected for [false]); a callback
    still in the registry has not been called and its promise is
    pending; and a pending promise has its callback in the registry. *)
Theorem tracker_callbacks_called_once (events : list Event) :
  forallb confirmOrPoll events = true ->
  let w := run events initialWorld in
  NoDup (map fst (calls w))
  /\ (forall f st, (f, st) ∈ calls w ->
        exists p, f = SettlePromise p /\ promises w !! p = Some (settlement st))
  /\ (forall h fs f, txCallbacks w !! h = Some fs -> f ∈ fs ->
        (f ∉ map fst (calls w))
        /\ exists p, f = SettlePromise p /\ promises w !! p = Some Pending)
  /\ (forall p, promises w !! p = Some Pending ->
        exists h fs, txCallbacks w !! h = Some fs /\ SettlePromise p ∈ fs).
Proof.
  intros Hev. cbv zeta.
  pose proof (run_registry events initialWorld Hev initialWorld_registry) as Hinv.
  split; [apply (called_once _ Hinv)|]. split; [apply (called_settled _ Hinv)|].
  split; [|apply (pending_registered _ Hinv)].
  intros h fs f Hreg Hf.
  destruct (registered_pending _ Hinv h fs Hreg) as [_ Hall].
  destruct (Hall f Hf) as [Hp Hnc]. auto.
Qed.

Lemma tracker_callbacks_called_once_witness :
  NoDup (map fst (calls
    (run [Confirm "0xaa"; Confirm "0xbb"; Confirm "0xaa";
          Poll "0xaa" (mined None);
          Confirm "0xaa";
          Poll "0xaa" (mined (Some {| status := StatusNumber 0 |}))]
         initialWorld))).
Proof.
  apply (tracker_callbacks_called_once
           [Confirm "0xaa"; Confirm "0xbb"; Confirm "0xaa";
            Poll "0xaa" (mined None);
            Confirm "0xaa";
            Poll "0xaa" (mined (Some {| status := StatusNumber 0 |}))]
           eq_refl).
Defined.

(** X17. The tracker is one-shot for a hash: the run that finds the
    transaction in a block leaves the hash untracked and without a
    loop, and a [confirmTransaction] for the same hash after that polls
    afresh; its promise settles by the receipt its own loop fetches,
    whatever the status of the earlier notification was. *)
Theorem tracker_one_shot (w : World) (h : string) (fs : list TxnCallback)
    (obs : Observation) (receipt : option TransactionReceipt) :
  trackerInvariant w ->
  txCallbacks w !! h = Some fs ->
  hasPoller h w = true ->
  fetchedReceipt obs = Some receipt ->
  let w' := step w (Poll h obs) in
  txCallbacks w' !! h = None
  /\ hasPoller h w' = false
  /\ forall (chain : nat -> Observation) (n : nat)
            (receipt' : option TransactionReceipt) (fuel : nat),
       (forall i, (i < n)%nat -> isWaiting (chain i) = true) ->
       fetchedReceipt (chain n) = Some receipt' ->
       (n < fuel)%nat ->
       awaitConfirmation h chain fuel w' = Some (settlement (succeeded receipt')).
Proof.
  intros [Hnd _] Hreg Hhas Hobs. cbv zeta.
  assert (Hnone : txCallbacks (step w (Poll h obs)) !! h = None).
  { unfold step. rewrite Hhas, (poll_notifies h obs w fs receipt Hreg Hobs).
    cbv zeta. unfold endLoop. cbn [txCallbacks].
    rewrite notify_txCallbacks. apply lookup_delete_eq. }
  split; [exact Hnone|]. split.
  - apply hasPoller_false. unfold step.
    rewrite Hhas, (poll_notifies h obs w fs receipt Hreg Hobs).
    cbv zeta. unfold endLoop. cbn [pollers]. rewrite notify_pollers.
    now apply stopPoller_gone.
  - intros chain n receipt' fuel Hwait Hobs' Hfuel.
    destruct (awaitConfirmation_runs h chain _ n Hnone Hwait) as [_ Hsettled].
    now apply Hsettled.
Qed.

Lemma tracker_one_shot_witness :
  let w := run [Confirm "0xaa"] initialWorld in
  let w' := step w (Poll "0xaa" (mined (Some {| status := StatusNumber 0 |}))) in
  promises w' = [Rejected "Transaction failed"]
  /\ awaitConfirmation "0xaa" (fun _ => mined None) 1 w'
     = Some (Resolved "Transaction complete").
Proof.
  cbv zeta. split; [reflexivity|].
  destruct (tracker_one_shot (run [Confirm "0xaa"] initialWorld) "0xaa"%string
              [SettlePromise 0]
              (mined (Some {| status := StatusNumber 0 |}))
              (Some {| status := StatusNumber 0 |})
              (run_invariant [Confirm "0xaa"] initialWorld initialWorld_invariant)
              eq_refl eq_refl eq_refl) as (_ & _ & Hnext).
  apply (Hnext (fun _ => mined None) 0%nat None 1%nat); [|reflexivity|lia].
  intros i Hi. lia.
Defined.

(* ===================================================================== *)
(** * The empty auction window *)
(* ===================================================================== *)

(** X19. A Dutch auction with whole terms whose expiration time equals
    its listing time divides by zero, and the function does not guard
    it: at every clock the price is not a finite number, rounded up or
    not. *)
Theorem estimateCurrentPrice_empty_window (order : Order.t)
    (basePrice extra listingTime : Z)
    (nowMs secondsToBacktrack : Z) (shouldRoundUp : bool) :
  integerTerms order basePrice extra listingTime listingTime ->
  Order.saleKind order = DutchAuction ->
  BN.isFinite (estimateCurrentPrice order nowMs secondsToBacktrack shouldRoundUp)
  = false.
Proof.
  intros (Hb & Hx & Hl & He) Hkind. unfold estimateCurrentPrice.
  rewrite (exactPrice_dutch _ _ _ Hkind). cbv zeta. unfold dutchAuctionDiff.
  rewrite Hb, Hx, Hl, He, of_Z_minus.
  replace (listingTime - listingTime) with 0 by lia.
  pose proof (backtrackedNow_scaled nowMs secondsToBacktrack) as Hnow.
  pose proof (scaled_minus _ _ _ _ _ Hnow (scaled_of_Z listingTime 3)) as Hsub.
  pose proof (scaled_times_integer extra _ _ _ Hsub) as (c & d & Hmul & _).
  rewrite Hmul. unfold BN.of_Z, BN.dividedBy. cbn [Z.eqb].
  destruct (c =? 0); destruct (Order.side order); destruct shouldRoundUp;
    reflexivity.
Qed.

Lemma estimateCurrentPrice_empty_window_witness :
  BN.isFinite
    (estimateCurrentPrice
       (termsOnlyOrder Buy DutchAuction 1000 100 1540000000 1540000000)
       1540000000123 30 true) = false.
Proof.
  apply (estimateCurrentPrice_empty_window
           (termsOnlyOrder Buy DutchAuction 1000 100 1540000000 1540000000)
           1000 100 1540000000 1540000000123 30 true
           (integerTerms_termsOnlyOrder _ _ _ _ _ _) eq_refl).
Defined.

(** X20. All the waiters of a hash settle alike. In a state reached by
    [confirmTransaction] calls and poll-loop runs from the empty
    registry, every callback in the list of a hash belongs to a pending
    promise, and the run of the poll loop that finds the transaction in
    a block settles every one of those promises the same way: resolved
    if the receipt is absent or has status 1, rejected if not. *)
Theorem tracker_waiters_settle_alike (events : list Event) (h : string)
    (fs : list TxnCallback) (obs : Observation)
    (receipt : option TransactionReceipt) :
  forallb confirmOrPoll events = true ->
  let w := run events initialWorld in
  txCallbacks w !! h = Some fs ->
  hasPoller h w = true ->
  fetchedReceipt obs = Some receipt ->
  let w' := step w (Poll h obs) in
  forall f, f ∈ fs ->
    exists p, f = SettlePromise p
              /\ promises w !! p = Some Pending
              /\ promises w' !! p = Some (settlement (succeeded receipt)).
Proof.
  intros Hev. cbv zeta. intros Hreg Hhas Hobs f Hf.
  pose proof (run_registry events initialWorld Hev initialWorld_registry) as Hinv.
  destruct (registered_pending _ Hinv h fs Hreg) as [_ Hall].
  destruct (Hall f Hf) as [(p & -> & Hp) _].
  exists p. split; [reflexivity|]. split; [exact Hp|].
  unfold step. rewrite Hhas, (poll_notifies h obs _ fs receipt Hreg Hobs).
  cbv zeta. unfold endLoop. cbn [promises].
  now apply notify_pending.
Qed.

Lemma tracker_waiters_settle_alike_witness :
  exists p, SettlePromise 2 = SettlePromise p
    /\ promises (run [Confirm "0xaa"; Confirm "0xbb"; Confirm "0xaa"] initialWorld)
         !! p = Some Pending
    /\ promises
         (step (run [Confirm "0xaa"; Confirm "0xbb"; Confirm "0xaa"] initialWorld)
               (Poll "0xaa" (mined (Some {| status := StatusString "0x0" |}))))
         !! p = Some (settlement false).
Proof.
  apply (tracker_waiters_settle_alike
           [Confirm "0xaa"; Confirm "0xbb"; Confirm "0xaa"] "0xaa"%string
           [SettlePromise 0; SettlePromise 2]
           (mined (Some {| status := StatusString "0x0" |}))
           (Some {| status := StatusString "0x0" |})
           eq_refl eq_refl eq_refl eq_refl).
  apply elem_of_cons. right. apply elem_of_cons. left. reflexivity.
Defined.
